(** * RP2040 load-cell / tachometer firmware: a shallow embedding of
      [firmware/src/main.cpp] and the properties of its calibration store,
      pulse capture, time base and command protocol.

    Conventions.
    - [uint32_t], [uint64_t], [unsigned long] are [Z] reduced modulo [2^32] or
      [2^64]; [long] and [int32_t] are both 32 bits wide on the target (ARM
      Cortex-M0+, ILP32) and are [Z] in [-2^31, 2^31).
    - A [float] object is carried around as its 32 bit IEEE-754 object
      representation (what [EEPROM.put] copies); arithmetic decodes it to a
      [spec_float] of precision 24 and maximal exponent 128 and rounds to
      nearest even.
    - Bytes are [Byte.byte]; the target is little endian.
    - Globals live in one record [Dev]; each C function is a computation in
      a small reader/state/writer monad [Fw] over the hardware readings, the
      globals and the lines printed on [Serial].
    - The hardware is read, not modelled: [millis()], [micros()] and the
      HX711 come from an [Env]; the EEPROM library is reduced to the bytes
      it keeps. libc's integer conversions are modelled; [atof] is a
      parameter of the protocol functions. *)

From Stdlib Require Import ZArith List Bool Ascii String Lia QArith Qpower Qabs Lqa.
From Stdlib Require Import Floats.SpecFloat.
From coqutil Require Import Byte Word.LittleEndianList.
Import ListNotations.

Local Open Scope Z_scope.

(** ** Machine integers *)

Definition u32 (z : Z) : Z := z mod 2 ^ 32.
Definition u64 (z : Z) : Z := z mod 2 ^ 64.

(** Conversion of an integer to [int32_t] / [long] (two's complement). *)
Definition s32 (z : Z) : Z := (z + 2 ^ 31) mod 2 ^ 32 - 2 ^ 31.

Definition is_u32 (z : Z) : Prop := 0 <= z < 2 ^ 32.
Definition is_s32 (z : Z) : Prop := - 2 ^ 31 <= z < 2 ^ 31.

(** ** CRC-32, polynomial 0xEDB88320, bit by bit *)

(** One pass of the body of the inner [for] loop of [crc32_update]. *)
Definition crc32_bit (crc : Z) : Z :=
  let mask := u32 (- (Z.land crc 1)) in
  Z.lxor (Z.shiftr crc 1) (Z.land 0xEDB88320 mask).

Definition crc32_update (crc : Z) (data : byte) : Z :=
  let crc := Z.lxor crc (byte.unsigned data) in
  Nat.iter 8 crc32_bit crc.

Definition crc32_span (data : list byte) : Z :=
  let crc := fold_left crc32_update data 0xFFFFFFFF in
  u32 (Z.lnot crc).

(** ** The persisted calibration record *)

Record CalRecord := mkCalRecord {
  magic   : Z;   (* uint32_t *)
  version : Z;   (* uint32_t *)
  slope   : Z;   (* float, as its 32 bit object representation *)
  tare    : Z;   (* int32_t *)
  crc     : Z    (* uint32_t *)
}.

Definition CAL_MAGIC   : Z := 0x43414C31.
Definition CAL_VERSION : Z := 0x00010000.
Definition EEPROM_SIZE : nat := 64.

(** [sizeof(CalRecord)]: five 4-byte fields, no padding. *)
Definition sizeof_CalRecord : nat := 20.
Definition sizeof_uint32 : nat := 4.

(** Object representation of a record: the bytes [reinterpret_cast] and
    [EEPROM.put] see, fields in declaration order, little endian. *)
Definition rec_bytes (r : CalRecord) : list byte :=
  le_split 4 (magic r) ++ le_split 4 (version r) ++ le_split 4 (slope r)
    ++ le_split 4 (tare r) ++ le_split 4 (crc r).

Definition field_u32 (bs : list byte) (off : nat) : Z :=
  le_combine (firstn 4 (skipn off bs)).

(** The record whose object representation is [bs] (20 bytes). *)
Definition rec_of_bytes (bs : list byte) : CalRecord :=
  {| magic   := field_u32 bs 0;
     version := field_u32 bs 4;
     slope   := field_u32 bs 8;
     tare    := s32 (field_u32 bs 12);
     crc     := field_u32 bs 16 |}.

(** ** The flash-backed EEPROM

    The store is the content of the emulation sector. [EEPROM.begin]
    mirrors it in RAM, [put] followed by [commit] writes the mirror back, so
    the store after [put; commit] is the old one with the object's bytes
    written at the address. Cells past the end of the list read as erased
    flash (0xFF). *)

Definition eeprom_t := list byte.

Definition EEPROM_read (e : eeprom_t) (addr : nat) : byte :=
  nth addr e Byte.xff.

Definition EEPROM_get (e : eeprom_t) (addr len : nat) : list byte :=
  map (fun i => EEPROM_read e (addr + i)) (seq 0 len).

Definition EEPROM_put (e : eeprom_t) (addr : nat) (obj : list byte) : eeprom_t :=
  firstn addr e ++ repeat Byte.xff (addr - List.length e)
    ++ obj ++ skipn (addr + List.length obj) e.

(** ** Globals, hardware readings, responses *)

Record Dev := mkDev {
  PULSES_PER_REV    : Z;        (* volatile uint32_t *)
  g_per_count       : Z;        (* volatile float (bits) *)
  tare_offset       : Z;        (* volatile long *)
  tach_pulses_total : Z;        (* volatile uint32_t *)
  last_edge_us      : Z;        (* volatile uint32_t *)
  last_period_us    : Z;        (* volatile uint32_t *)
  epoch_base_ms     : Z;        (* volatile uint64_t *)
  eeprom            : eeprom_t; (* persistent store *)
  linebuf           : string    (* the line in progress: loop's linebuf[0 .. idx-1] *)
}.

(** The hardware at the instant a handler is entered: what the two
    free-running clocks read then, and when the HX711 will have a sample. *)
Record Env := mkEnv {
  env_millis : Z;               (* millis(), unsigned long *)
  env_micros : Z;               (* micros(), uint32_t *)
  env_hx_ready_after : option Z;(* ms until hx.is_ready(), None = never *)
  env_hx_value : Z              (* hx.read(), long *)
}.

(** A response line. Numbers are kept as values, not as their decimal text;
    a [float] printed by [Serial.print(x, digits)] is kept as the float. *)
Inductive Response :=
| OK_READY (vendor device fw : string)
| OK_PONG
| OK_INFO (vendor device fw : string)
| OK_LOAD (mass_g : spec_float) (raw ts : Z)
| OK_TARE
| OK_SPEED (rpm period_ms : spec_float) (pulses ts : Z)
| OK_SETTIME
| OK_SETCAL
| OK_CAL (slope_bits tare : Z)
| OK_RESETCAL
| OK_SETPPR
| OK_PPR (ppr : Z)
| ERR (code : Z) (msg : string).

(** ** The firmware monad *)

Definition Fw (A : Type) : Type := Env -> Dev -> A * Dev * list Response.

Definition ret {A} (a : A) : Fw A := fun _ d => (a, d, []).

Definition bind {A B} (m : Fw A) (k : A -> Fw B) : Fw B :=
  fun env d =>
    let '(a, d1, o1) := m env d in
    let '(b, d2, o2) := k a env d1 in
    (b, d2, o1 ++ o2).

Declare Scope fw_scope.
Delimit Scope fw_scope with fw.
Notation "x <- m ;; k" := (bind m (fun x => k))
  (at level 61, m at next level, right associativity) : fw_scope.
Notation "m ;; k" := (bind m (fun _ => k))
  (at level 61, right associativity) : fw_scope.
Local Open Scope fw_scope.

Definition get : Fw Dev := fun _ d => (d, d, []).
Definition modify (f : Dev -> Dev) : Fw unit := fun _ d => (tt, f d, []).
Definition ask : Fw Env := fun env d => (env, d, []).
Definition Serial_print (r : Response) : Fw unit := fun _ d => (tt, d, [r]).

Definition state_of {A} (x : A * Dev * list Response) : Dev := snd (fst x).
Definition value_of {A} (x : A * Dev * list Response) : A := fst (fst x).
Definition output_of {A} (x : A * Dev * list Response) : list Response := snd x.

(** Field updates. *)
Definition set_PULSES_PER_REV v d :=
  mkDev v (g_per_count d) (tare_offset d) (tach_pulses_total d)
    (last_edge_us d) (last_period_us d) (epoch_base_ms d) (eeprom d) (linebuf d).
Definition set_g_per_count v d :=
  mkDev (PULSES_PER_REV d) v (tare_offset d) (tach_pulses_total d)
    (last_edge_us d) (last_period_us d) (epoch_base_ms d) (eeprom d) (linebuf d).
Definition set_tare_offset v d :=
  mkDev (PULSES_PER_REV d) (g_per_count d) v (tach_pulses_total d)
    (last_edge_us d) (last_period_us d) (epoch_base_ms d) (eeprom d) (linebuf d).
Definition set_tach_pulses_total v d :=
  mkDev (PULSES_PER_REV d) (g_per_count d) (tare_offset d) v
    (last_edge_us d) (last_period_us d) (epoch_base_ms d) (eeprom d) (linebuf d).
Definition set_last_edge_us v d :=
  mkDev (PULSES_PER_REV d) (g_per_count d) (tare_offset d) (tach_pulses_total d)
    v (last_period_us d) (epoch_base_ms d) (eeprom d) (linebuf d).
Definition set_last_period_us v d :=
  mkDev (PULSES_PER_REV d) (g_per_count d) (tare_offset d) (tach_pulses_total d)
    (last_edge_us d) v (epoch_base_ms d) (eeprom d) (linebuf d).
Definition set_epoch_base_ms v d :=
  mkDev (PULSES_PER_REV d) (g_per_count d) (tare_offset d) (tach_pulses_total d)
    (last_edge_us d) (last_period_us d) v (eeprom d) (linebuf d).
Definition set_eeprom v d :=
  mkDev (PULSES_PER_REV d) (g_per_count d) (tare_offset d) (tach_pulses_total d)
    (last_edge_us d) (last_period_us d) (epoch_base_ms d) v (linebuf d).
Definition set_linebuf v d :=
  mkDev (PULSES_PER_REV d) (g_per_count d) (tare_offset d) (tach_pulses_total d)
    (last_edge_us d) (last_period_us d) (epoch_base_ms d) (eeprom d) v.

(** ** Calibration persistence *)

(** [sl] and [ta] are the arguments [slope] and [tare]. *)
Definition saveCalibrationToEEPROM (sl ta : Z) : Fw unit :=
  let rec0 := {| magic := CAL_MAGIC; version := CAL_VERSION;
                 slope := sl; tare := s32 ta; crc := 0 |} in
  let c := crc32_span (firstn (sizeof_CalRecord - sizeof_uint32) (rec_bytes rec0)) in
  let rec := {| magic := CAL_MAGIC; version := CAL_VERSION;
                slope := sl; tare := s32 ta; crc := c |} in
  modify (fun d => set_eeprom (EEPROM_put (eeprom d) 0 (rec_bytes rec)) d).

(** [sl] and [ta] are the current values of the caller's variables passed
    by reference as [slope] and [tare]; the result carries their values on
    return. *)
Definition loadCalibrationFromEEPROM (sl ta : Z) : Fw (bool * Z * Z) :=
  d <- get ;;
  let rec := rec_of_bytes (EEPROM_get (eeprom d) 0 sizeof_CalRecord) in
  if negb (magic rec =? CAL_MAGIC) || negb (version rec =? CAL_VERSION) then
    ret (false, sl, ta)
  else
    let calc_crc :=
      crc32_span (firstn (sizeof_CalRecord - sizeof_uint32) (rec_bytes rec)) in
    if negb (calc_crc =? crc rec) then ret (false, sl, ta)
    else ret (true, slope rec, tare rec).

(** ** Single precision floats *)

Module B32.
Definition prec : Z := 24.
Definition emax : Z := 128.

(** Decoding of the object representation. *)
Definition of_bits (x : Z) : spec_float :=
  let s := Z.testbit x 31 in
  let e := Z.land (Z.shiftr x 23) 0xFF in
  let m := Z.land x 0x7FFFFF in
  if e =? 0 then
    match m with Zpos p => S754_finite s p (-149) | _ => S754_zero s end
  else if e =? 255 then
    (if m =? 0 then S754_infinity s else S754_nan)
  else
    match m + 2 ^ 23 with Zpos p => S754_finite s p (e - 150) | _ => S754_nan end.

(** Conversion of an integer, as in [(float)n]. *)
Definition of_int (n : Z) : spec_float := binary_normalize prec emax n 0 false.

Definition div := SFdiv prec emax.
Definition mul := SFmul prec emax.
Definition leb := SFleb.
Definition zero : spec_float := S754_zero false.
End B32.

(** The arithmetic the float expressions of the source use: binary32,
    every operation rounded to nearest even. *)
Class Arith (F : Type) := {
  of_int : Z -> F;
  fdiv : F -> F -> F;
  fmul : F -> F -> F;
  fleb : F -> F -> bool
}.

#[export] Instance Arith_b32 : Arith spec_float :=
  {| of_int := B32.of_int; fdiv := B32.div; fmul := B32.mul; fleb := B32.leb |}.

(** Bits of the literal [0.0020f]. *)
Definition lit_0_0020f : Z := 0x3B03126F.

(** ** Time base and tachometer *)

Definition millis : Fw Z := fun env d => (u32 (env_millis env), d, []).
Definition micros : Fw Z := fun env d => (u32 (env_micros env), d, []).

Definition now_unix_ms : Fw Z :=
  d <- get ;;
  let base := epoch_base_ms d in
  m <- millis ;;
  ret (u64 (base + m)).

Definition us_to_ms {F} `{Arith F} (us : Z) : F := fdiv (of_int us) (of_int 1000).

Record TachSnapshot := mkTachSnapshot {
  snap_pulses_total : Z;
  snap_last_period_us : Z
}.

Definition tach_snapshot : Fw TachSnapshot :=
  d <- get ;;
  ret {| snap_pulses_total := tach_pulses_total d;
         snap_last_period_us := last_period_us d |}.

Definition compute_rpm {F} `{Arith F} (s : TachSnapshot) : Fw F :=
  d <- get ;;
  if (snap_last_period_us s =? 0) || (PULSES_PER_REV d =? 0) then ret (of_int 0)
  else
    let period_s := fdiv (of_int (snap_last_period_us s)) (of_int 1000000) in
    if fleb period_s (of_int 0) then ret (of_int 0)
    else
      let rps := fdiv (fdiv (of_int 1) period_s) (of_int (PULSES_PER_REV d)) in
      ret (fmul (of_int 60) rps).

Definition tach_isr : Fw unit :=
  now <- micros ;;
  d <- get ;;
  let prev := last_edge_us d in
  modify (set_last_edge_us now) ;;
  modify (fun d => set_tach_pulses_total (u32 (tach_pulses_total d + 1)) d) ;;
  if negb (prev =? 0) then
    let dt := u32 (now - prev) in
    if dt >? 100 then modify (set_last_period_us dt) else ret tt
  else ret tt.

(** ** Calibration defaults *)

Definition resetCalibrationToDefaultsAndPersist : Fw unit :=
  let defSlope := lit_0_0020f in
  let defTare := 0 in
  modify (set_g_per_count defSlope) ;;
  modify (set_tare_offset defTare) ;;
  saveCalibrationToEEPROM defSlope defTare.

(** ** C strings and the libc functions the parser calls

    A C string is a [string] without the terminating NUL. The conversions
    are modelled after ISO C 7.22.1 as newlib implements them for base 10:
    optional white space, optional sign, decimal digits, saturation on
    overflow, 0 when there is no digit. *)

Module Libc.
Definition code (c : ascii) : Z := Z.of_N (N_of_ascii c).

(** The C string held by a buffer: its bytes up to the first NUL. *)
Fixpoint c_str (buf : string) : string :=
  match buf with
  | EmptyString => EmptyString
  | String c r => if code c =? 0 then EmptyString else String c (c_str r)
  end.

Definition strlen (s : string) : Z := Z.of_nat (String.length s).

Fixpoint strchr (delim : string) (c : ascii) : bool :=
  match delim with
  | EmptyString => false
  | String d r => Ascii.eqb d c || strchr r c
  end.

(** [s + strspn(s, delim)] *)
Fixpoint skip_delims (delim s : string) : string :=
  match s with
  | String c r => if strchr delim c then skip_delims delim r else s
  | EmptyString => EmptyString
  end.

(** The token at the head of [s] and what follows the delimiter that
    ended it (overwritten by NUL in the buffer). *)
Fixpoint break_token (delim s : string) : string * string :=
  match s with
  | EmptyString => (EmptyString, EmptyString)
  | String c r =>
      if strchr delim c then (EmptyString, r)
      else let '(tok, rest) := break_token delim r in (String c tok, rest)
  end.

(** [strtok]: the token, if any, and the saved position for the next call
    with a null first argument. *)
Definition strtok (s delim : string) : option string * string :=
  match skip_delims delim s with
  | EmptyString => (None, EmptyString)
  | s1 => let '(tok, rest) := break_token delim s1 in (Some tok, rest)
  end.

Definition isspace (c : ascii) : bool :=
  (code c =? 32) || ((9 <=? code c) && (code c <=? 13)).

Definition isdigit (c : ascii) : bool := (48 <=? code c) && (code c <=? 57).

Fixpoint skip_space (s : string) : string :=
  match s with
  | String c r => if isspace c then skip_space r else s
  | EmptyString => EmptyString
  end.

Definition take_sign (s : string) : bool * string :=
  match s with
  | String c r =>
      if code c =? 45 then (true, r)
      else if code c =? 43 then (false, r)
      else (false, s)
  | EmptyString => (false, EmptyString)
  end.

(** Value of the longest prefix of decimal digits, continuing [acc]. *)
Fixpoint digits (acc : Z) (s : string) : Z :=
  match s with
  | String c r => if isdigit c then digits (acc * 10 + (code c - 48)) r else acc
  | EmptyString => acc
  end.

Definition strtou (bits : Z) (s : string) : Z :=
  let '(neg, r) := take_sign (skip_space s) in
  let v := digits 0 r in
  if v >? 2 ^ bits - 1 then 2 ^ bits - 1
  else if neg then (- v) mod 2 ^ bits else v.

(** [strtoull(s, nullptr, 10)] and [strtoul(s, nullptr, 10)] *)
Definition strtoull (s : string) : Z := strtou 64 s.
Definition strtoul (s : string) : Z := strtou 32 s.

(** [atol(s)], that is [strtol(s, nullptr, 10)] *)
Definition atol (s : string) : Z :=
  let '(neg, r) := take_sign (skip_space s) in
  let v := digits 0 r in
  if neg then (if v >? 2 ^ 31 then - 2 ^ 31 else - v)
  else (if v >? 2 ^ 31 - 1 then 2 ^ 31 - 1 else v).

(** What remains of [s] once white space and a sign are skipped cannot
    start a floating point number: neither a digit, nor a point, nor the
    first letter of [inf] or [nan]. *)
Definition no_conversion (s : string) : bool :=
  match snd (take_sign (skip_space s)) with
  | EmptyString => true
  | String c _ =>
      negb (isdigit c || (code c =? 46)
            || (code c =? 73) || (code c =? 105)
            || (code c =? 78) || (code c =? 110))
  end.
End Libc.

(** ** Protocol helpers *)

Definition streqi_upper (c : ascii) : Z :=
  let n := Libc.code c in
  if (97 <=? n) && (n <=? 122) then n - 32 else n.

Fixpoint streqi (a b : string) : bool :=
  match a, b with
  | String ca ra, String cb rb =>
      if streqi_upper ca =? streqi_upper cb then streqi ra rb else false
  | EmptyString, EmptyString => true
  | _, _ => false
  end.

Definition FW_VENDOR  : string := "ForecverBearing"%string.
Definition FW_DEVICE  : string := "RP2040"%string.
Definition FW_VERSION : string := "1.0.1"%string.
Definition HX711_READ_TIMEOUT_MS : Z := 200.

(** [hx_read_blocking]: polls [hx.is_ready()] once per millisecond and gives
    up when more than [HX711_READ_TIMEOUT_MS] have elapsed. [elapsed] is
    [millis() - t0]; [delay(1)] advances it by one. The loop ends with
    whether the converter was ready, and with [elapsed] as it is then. *)
Fixpoint hx_poll (fuel : nat) (elapsed : Z) (ready_after : option Z)
  : option (bool * Z) :=
  match fuel with
  | O => None
  | S fuel' =>
      let is_ready :=
        match ready_after with Some t => t <=? elapsed | None => false end in
      if is_ready then Some (true, elapsed)
      else if elapsed >? HX711_READ_TIMEOUT_MS then Some (false, elapsed)
      else hx_poll fuel' (elapsed + 1) ready_after
  end.

(** The result is the sample, or [None] for [false]. *)
Definition hx_read_blocking : Fw (option Z) :=
  env <- ask ;;
  match hx_poll 203 0 (env_hx_ready_after env) with
  | Some (true, _) => ret (Some (s32 (env_hx_value env)))
  | _ => ret None
  end.

(** The milliseconds [hx_read_blocking] has spent in [delay(1)] when it
    returns. *)
Definition hx_wait_ms (env : Env) : Z :=
  match hx_poll 203 0 (env_hx_ready_after env) with
  | Some (_, elapsed) => elapsed
  | None => 0
  end.

(** The hardware [ms] milliseconds later. *)
Definition elapse (ms : Z) (env : Env) : Env :=
  {| env_millis := env_millis env + ms;
     env_micros := env_micros env + 1000 * ms;
     env_hx_ready_after := option_map (fun t => t - ms) (env_hx_ready_after env);
     env_hx_value := env_hx_value env |}.

(** What follows a call of [hx_read_blocking] in a handler runs when the
    wait is over: the clocks have moved on by [hx_wait_ms]. *)
Definition after_hx_wait {A} (m : Fw A) : Fw A :=
  fun env d => m (elapse (hx_wait_ms env) env) d.

(** ** Commands, parser, [setup] and [loop] *)

Section Firmware.

(** [(float)atof(tok)] as the bits of the float: libc's decimal to binary
    conversion is left open. *)
Variable atof : string -> Z.

(** The delimiters [" \t"]. *)
Definition blank_tab : string := String " " (String "009" EmptyString).

Definition cmd_ping : Fw unit := Serial_print OK_PONG.

Definition cmd_info : Fw unit :=
  Serial_print (OK_INFO FW_VENDOR FW_DEVICE FW_VERSION).

Definition cmd_load : Fw unit :=
  r <- hx_read_blocking ;;
  after_hx_wait
    match r with
    | None => Serial_print (ERR 20 "HX711_timeout")
    | Some raw =>
        d <- get ;;
        let tare := tare_offset d in
        let slope := g_per_count d in
        let mass_g := fmul (of_int (s32 (raw - tare))) (B32.of_bits slope) in
        ts <- now_unix_ms ;;
        Serial_print (OK_LOAD mass_g raw ts)
    end.

Definition cmd_tare : Fw unit :=
  r <- hx_read_blocking ;;
  match r with
  | None => Serial_print (ERR 20 "HX711_timeout")
  | Some raw =>
      modify (set_tare_offset raw) ;;
      d <- get ;;
      let slope := g_per_count d in
      saveCalibrationToEEPROM slope raw ;;
      Serial_print OK_TARE
  end.

Definition cmd_speed : Fw unit :=
  s <- tach_snapshot ;;
  rpm <- compute_rpm s ;;
  let period_ms :=
    if snap_last_period_us s =? 0 then B32.zero
    else us_to_ms (snap_last_period_us s) in
  ts <- now_unix_ms ;;
  Serial_print (OK_SPEED rpm period_ms (snap_pulses_total s) ts).

Definition cmd_settime (args : string) : Fw unit :=
  match fst (Libc.strtok args blank_tab) with
  | None => Serial_print (ERR 30 "missing_unix_ms")
  | Some tok =>
      let v := Libc.strtoull tok in
      m <- millis ;;
      modify (set_epoch_base_ms (u64 (v - m))) ;;
      Serial_print OK_SETTIME
  end.

Definition cmd_setcal (args : string) : Fw unit :=
  let '(a, save) := Libc.strtok args blank_tab in
  let '(b, _) := Libc.strtok save blank_tab in
  match a, b with
  | Some a, Some b =>
      let slope := atof a in
      let tare := Libc.atol b in
      modify (set_g_per_count slope) ;;
      modify (set_tare_offset tare) ;;
      saveCalibrationToEEPROM slope tare ;;
      Serial_print OK_SETCAL
  | _, _ => Serial_print (ERR 31 "missing_args")
  end.

Definition cmd_calq : Fw unit :=
  d <- get ;;
  let slope := g_per_count d in
  let tare := tare_offset d in
  Serial_print (OK_CAL slope tare).

Definition cmd_resetcal : Fw unit :=
  resetCalibrationToDefaultsAndPersist ;;
  Serial_print OK_RESETCAL.

Definition cmd_setppr (args : string) : Fw unit :=
  match fst (Libc.strtok args blank_tab) with
  | None => Serial_print (ERR 32 "missing_ppr")
  | Some a =>
      let ppr := Libc.strtoul a in
      if ppr =? 0 then Serial_print (ERR 33 "invalid_ppr")
      else
        modify (set_PULSES_PER_REV ppr) ;;
        Serial_print OK_SETPPR
  end.

Definition cmd_pprq : Fw unit :=
  d <- get ;;
  let ppr := PULSES_PER_REV d in
  Serial_print (OK_PPR ppr).

(** The first loop of [handle_line]: drop CR and LF at the end. *)
Fixpoint trim_crlf (line : string) : string :=
  match line with
  | EmptyString => EmptyString
  | String c r =>
      match trim_crlf r with
      | EmptyString =>
          if (Libc.code c =? 13) || (Libc.code c =? 10) then EmptyString
          else String c EmptyString
      | r' => String c r'
      end
  end.

(** The second loop: advance past blanks and tabs. *)
Fixpoint skip_blanks (line : string) : string :=
  match line with
  | String c r =>
      if (Libc.code c =? 32) || (Libc.code c =? 9) then skip_blanks r else line
  | EmptyString => EmptyString
  end.

Definition or_empty (args : option string) : string :=
  match args with Some a => a | None => EmptyString end.

(** [line] is the C string the argument points to at the call. The NULs
    that the trimming loop and [strtok] write into the caller's buffer show
    in the strings passed on ([cmd], [args] and the tokens cut from them);
    the buffer itself is not followed further: [loop], the only caller,
    abandons its content on return ([idx = 0]). *)
Definition handle_line (line : string) : Fw unit :=
  let line := skip_blanks (trim_crlf line) in
  match line with
  | EmptyString => ret tt
  | _ =>
      let '(cmd, save) := Libc.strtok line blank_tab in
      let '(args, _) := Libc.strtok save EmptyString in
      match cmd with
      | None => ret tt (* not reached: [line] starts with a non-blank *)
      | Some cmd =>
          if streqi cmd "PING" then cmd_ping
          else if streqi cmd "INFO" then cmd_info
          else if streqi cmd "LOAD?" then cmd_load
          else if streqi cmd "TARE" then cmd_tare
          else if streqi cmd "SPEED?" then cmd_speed
          else if streqi cmd "SETTIME" then cmd_settime (or_empty args)
          else if streqi cmd "SETCAL" then cmd_setcal (or_empty args)
          else if streqi cmd "CAL?" then cmd_calq
          else if streqi cmd "RESETCAL" then cmd_resetcal
          else if streqi cmd "SETPPR" then cmd_setppr (or_empty args)
          else if streqi cmd "PPR?" then cmd_pprq
          else Serial_print (ERR 10 "unknown_command")
      end
  end.

(** [s] and [t] are the indeterminate initial values of the two locals. *)
Definition setup (s t : Z) : Fw unit :=
  r <- loadCalibrationFromEEPROM s t ;;
  let '(ok, s, t) := r in
  (if ok then
     modify (set_g_per_count s) ;;
     modify (set_tare_offset t)
   else resetCalibrationToDefaultsAndPersist) ;;
  Serial_print (OK_READY FW_VENDOR FW_DEVICE FW_VERSION).

Definition sizeof_linebuf : Z := 128.

(** The body of the [while] of [loop] for one byte read from [Serial];
    [idx] is the length of [linebuf d]. *)
Definition loop_body (c : ascii) : Fw unit :=
  if Libc.code c =? 13 then ret tt
  else if Libc.code c =? 10 then
    d <- get ;;
    handle_line (Libc.c_str (linebuf d)) ;;
    modify (set_linebuf EmptyString)
  else
    d <- get ;;
    let idx := Libc.strlen (linebuf d) in
    if idx <? sizeof_linebuf - 1 then
      modify (set_linebuf (String.append (linebuf d) (String c EmptyString)))
    else
      modify (set_linebuf EmptyString) ;;
      Serial_print (ERR 11 "line_too_long").

(** [loop] with [input] waiting on [Serial]; [env] is what the hardware
    reads when a line of it is dispatched. *)
Fixpoint loop (input : string) : Fw unit :=
  match input with
  | EmptyString => ret tt
  | String c rest => loop_body c ;; loop rest
  end.

End Firmware.

(** The globals as their initialisers leave them at reset, over the
    persistent store [e]. *)
Definition power_on (e : eeprom_t) : Dev :=
  {| PULSES_PER_REV := 1;
     g_per_count := lit_0_0020f;
     tare_offset := 0;
     tach_pulses_total := 0;
     last_edge_us := 0;
     last_period_us := 0;
     epoch_base_ms := 0;
     eeprom := e;
     linebuf := EmptyString |}.

(** ** Vocabulary of the statements *)

(** The store with the byte at address [i] replaced by [b]. *)
Fixpoint poke (i : nat) (b : byte) (l : list byte) {struct l} : list byte :=
  match l, i with
  | [], _ => []
  | _ :: r, O => b :: r
  | x :: r, S i' => x :: poke i' b r
  end.

(** Validity of the 20 bytes of a record, as [loadCalibrationFromEEPROM]
    decides it. *)
Definition record_ok (bs : list byte) : bool :=
  (field_u32 bs 0 =? CAL_MAGIC) && (field_u32 bs 4 =? CAL_VERSION)
  && (crc32_span (firstn 16 bs) =? field_u32 bs 16).

(** The record [saveCalibrationToEEPROM] writes. *)
Definition saved_record (sl ta : Z) : CalRecord :=
  let rec0 := {| magic := CAL_MAGIC; version := CAL_VERSION;
                 slope := sl; tare := s32 ta; crc := 0 |} in
  {| magic := CAL_MAGIC; version := CAL_VERSION; slope := sl; tare := s32 ta;
     crc := crc32_span (firstn 16 (rec_bytes rec0)) |}.

(** Encoding of a single precision value; the inverse of [B32.of_bits]
    on canonical values, with the default quiet NaN. *)
Definition bits_of_b32 (x : spec_float) : Z :=
  let sign (s : bool) := if s then 2 ^ 31 else 0 in
  match x with
  | S754_zero s => sign s
  | S754_infinity s => sign s + 0x7F800000
  | S754_nan => 0x7FC00000
  | S754_finite s m e =>
      if Zpos (digits2_pos m) =? 24
      then sign s + (e + 150) * 2 ^ 23 + (Zpos m - 2 ^ 23)
      else sign s + Zpos m
  end.

(** [tok] is a decimal integer and nothing else: an optional sign and at
    least one digit. *)
Fixpoint all_digits (s : string) : bool :=
  match s with
  | EmptyString => true
  | String c r => Libc.isdigit c && all_digits r
  end.

Definition integer_literal (tok : string) : bool :=
  match snd (Libc.take_sign tok) with
  | EmptyString => false
  | r => all_digits r
  end.

(** [tok] starts with a decimal integer: a digit follows the optional
    white space and sign. *)
Definition starts_integer (tok : string) : bool :=
  match snd (Libc.take_sign (Libc.skip_space tok)) with
  | EmptyString => false
  | String c _ => Libc.isdigit c
  end.

(** A conversion for plain decimal literals
    [ws] [sign] digits [. digits] [e [sign] digits], correctly rounded to
    double and then to float: one possible [atof]. *)
Module DecimalAtof.
(** Digits at the head of [s]: value continuing [acc], how many, rest. *)
Fixpoint span_digits (acc n : Z) (s : string) : Z * Z * string :=
  match s with
  | String c r =>
      if Libc.isdigit c
      then span_digits (acc * 10 + (Libc.code c - 48)) (n + 1) r
      else (acc, n, s)
  | EmptyString => (acc, n, EmptyString)
  end.

Definition after_point (m : Z) (s : string) : Z * Z * string :=
  match s with
  | String c r => if Libc.code c =? 46 then span_digits m 0 r else (m, 0, s)
  | EmptyString => (m, 0, s)
  end.

Definition exponent (s : string) : Z :=
  match s with
  | String c r =>
      if (Libc.code c =? 101) || (Libc.code c =? 69) then
        let '(neg, r1) := Libc.take_sign r in
        let '(v, n, _) := span_digits 0 0 r1 in
        if n =? 0 then 0 else if neg then - v else v
      else 0
  | EmptyString => 0
  end.

(** [m * 10 ^ e] with sign [neg], rounded to double. *)
Definition to_double (neg : bool) (m e : Z) : spec_float :=
  match m with
  | Zpos p =>
      if 0 <=? e then binary_normalize 53 1024 (if neg then - (m * 10 ^ e) else m * 10 ^ e) 0 neg
      else SFdiv 53 1024 (S754_finite neg p 0)
             (binary_normalize 53 1024 (10 ^ (- e)) 0 false)
  | _ => S754_zero neg
  end.

Definition to_float (x : spec_float) : spec_float :=
  match x with
  | S754_finite s m e => binary_round 24 128 s m e
  | _ => x
  end.

Definition atof (s : string) : Z :=
  let '(neg, r) := Libc.take_sign (Libc.skip_space s) in
  let '(m1, n1, r1) := span_digits 0 0 r in
  let '(m2, n2, r2) := after_point m1 r1 in
  if n1 + n2 =? 0 then 0
  else bits_of_b32 (to_float (to_double neg m2 (exponent r2 - n2))).
End DecimalAtof.

Definition LF : string := String "010" EmptyString.

(** [n] bytes [c], no terminator. *)
Definition filler (n : nat) (c : ascii) : string :=
  string_of_list_ascii (repeat c n).

(** ** The string helpers [rstrip] and [lstrip] *)

Definition is_strip_space (c : ascii) : bool :=
  (Libc.code c =? 13) || (Libc.code c =? 10) || (Libc.code c =? 32)
  || (Libc.code c =? 9).

(** The [while] of [rstrip], from [n] down: the length that is left, for
    the characters [ws] strips. *)
Fixpoint rstrip_len (ws : ascii -> bool) (s : string) (n : nat) : nat :=
  match n with
  | O => O
  | S m =>
      match String.get m s with
      | Some c => if ws c then rstrip_len ws s m else n
      | None => n
      end
  end.

Definition rstrip_by (ws : ascii -> bool) (s : string) : string :=
  String.substring 0 (rstrip_len ws s (String.length s)) s.

Definition rstrip (s : string) : string := rstrip_by is_strip_space s.

(** The index [i] the [while] of [lstrip] stops at. *)
Fixpoint lstrip_index (s : string) : nat :=
  match s with
  | String c r =>
      if (Libc.code c =? 32) || (Libc.code c =? 9) then S (lstrip_index r) else O
  | EmptyString => O
  end.

Definition lstrip (s : string) : string :=
  let n := String.length s in
  let i := lstrip_index s in
  if (0 <? i)%nat then String.substring i (n - i) s else s.

(** ** Vocabulary of the further properties *)

(** The live calibration is the one a reboot would load. *)
Definition cal_synced (d : Dev) : Prop :=
  forall s0 t0 env,
    loadCalibrationFromEEPROM s0 t0 env d
    = ((true, g_per_count d, tare_offset d), d, []).

(** The command token [handle_line] dispatches on. *)
Definition command_of (line : string) : option string :=
  fst (Libc.strtok (skip_blanks (trim_crlf line)) blank_tab).

(** The commands whose handlers assign a global or write the store. *)
Definition mutating (cmd : string) : bool :=
  streqi cmd "TARE" || streqi cmd "SETTIME" || streqi cmd "SETCAL"
  || streqi cmd "RESETCAL" || streqi cmd "SETPPR".

Definition with_micros (t : Z) (env : Env) : Env :=
  {| env_millis := env_millis env; env_micros := t;
     env_hx_ready_after := env_hx_ready_after env;
     env_hx_value := env_hx_value env |}.

(** The interrupt handler run once per time stamp of [ts], in order. *)
Definition tach_edges (ts : list Z) (env : Env) (d : Dev) : Dev :=
  fold_left (fun d t => state_of (tach_isr (with_micros t env) d)) ts d.

(** [s] without its carriage returns. *)
Fixpoint drop_cr (s : string) : string :=
  match s with
  | EmptyString => EmptyString
  | String c r => if Libc.code c =? 13 then drop_cr r else String c (drop_cr r)
  end.

(** No CR and no LF in [s]. *)
Fixpoint no_eol (s : string) : bool :=
  match s with
  | EmptyString => true
  | String c r =>
      negb ((Libc.code c =? 13) || (Libc.code c =? 10)) && no_eol r
  end.

Definition is_crlf (c : ascii) : bool :=
  (Libc.code c =? 13) || (Libc.code c =? 10).

(** What one line can do to the globals and what it prints: nothing but a
    reply; a new epoch base; a new, nonzero pulse count per revolution; or a
    new calibration, saved as it is set. *)
Inductive Effect (atof : string -> Z) (env : Env) (d : Dev) :
  Dev -> list Response -> Prop :=
| eff_reply (r : Response) : Effect atof env d d [r]
| eff_settime (v : Z) :
    Effect atof env d (set_epoch_base_ms (u64 v) d) [OK_SETTIME]
| eff_setppr (p : Z) :
    1 <= p < 2 ^ 32 ->
    Effect atof env d (set_PULSES_PER_REV p d) [OK_SETPPR]
| eff_cal (sl ta : Z) (r : Response) :
    sl = g_per_count d \/ sl = lit_0_0020f \/ (exists a, sl = atof a) ->
    is_s32 ta ->
    Effect atof env d
      (state_of (saveCalibrationToEEPROM sl ta env
                   (set_tare_offset ta (set_g_per_count sl d)))) [r].

Definition effect_of (atof : string -> Z) (env : Env) (d : Dev)
    (r : unit * Dev * list Response) : Prop :=
  Effect atof env d (state_of r) (output_of r).

(** Two characters are the same letter up to case: they are equal, or one
    is an upper case letter A to Z and the other the lower case letter at
    the same place of the alphabet, 32 codes above. *)
Definition same_letter (c1 c2 : ascii) : Prop :=
  Libc.code c1 = Libc.code c2 \/
  (65 <= Libc.code c1 <= 90 /\ Libc.code c2 = Libc.code c1 + 32) \/
  (65 <= Libc.code c2 <= 90 /\ Libc.code c1 = Libc.code c2 + 32).

Fixpoint same_ignoring_case (a b : string) : Prop :=
  match a, b with
  | EmptyString, EmptyString => True
  | String ca ra, String cb rb => same_letter ca cb /\ same_ignoring_case ra rb
  | _, _ => False
  end.

(** Neither an infinity nor a NaN. *)
Definition b32_is_finite (x : spec_float) : bool :=
  match x with
  | S754_zero _ | S754_finite _ _ _ => true
  | _ => false
  end.

(** ** Vocabulary of the rounding error bound *)

(** The value of a floating point number; zero for what is not finite. *)
Definition SF2Q (x : spec_float) : Q :=
  match x with
  | S754_finite s m e => (inject_Z (cond_Zopp s (Zpos m)) * 2 ^ e)%Q
  | _ => 0%Q
  end.

(** [v] is [X] up to the relative error [u]. *)
Definition near (u X v : Q) : Prop := (X * (1 - u) <= v /\ v <= X * (1 + u))%Q.

(** [v] lies between [X * L] and [X * U]. *)
Definition within (L U X v : Q) : Prop := (X * L <= v /\ v <= X * U)%Q.

(** The unit round-off of single precision. *)
Definition b32_u : Q := (1 / inject_Z (2 ^ 24))%Q.

(** The quotient the rpm stands for, over the rationals. *)
Definition rpm_formula (p ppr : Z) : Q :=
  (60 / ((inject_Z p / 1000000) * inject_Z ppr))%Q.

(** A relative error of [2^-21]. *)
Definition rpm_tol : Q := (1 / inject_Z (2 ^ 21))%Q.

(** The record [shr] works on when the number shifted is [N / D]: the
    integer part, whether the fraction reaches one half, and whether it is
    neither 0 nor one half. *)
Definition rec_of (N D : Z) : shr_record :=
  {| shr_m := N / D;
     shr_r := D <=? 2 * (N mod D);
     shr_s := negb (N mod D =? 0) && negb (2 * (N mod D) =? D) |}.

(** The location of [r / D] in the unit interval. *)
Definition loc_of_rem (r D : Z) : location :=
  if r =? 0 then loc_Exact else loc_Inexact (2 * r ?= D).

(** * Properties *)

(** ** Machine integers and CRC *)

Lemma u32_range z : is_u32 (u32 z).
Proof. unfold is_u32, u32. apply Z.mod_pos_bound. lia. Qed.

Lemma u32_small z : is_u32 z -> u32 z = z.
Proof. unfold is_u32, u32. intros. apply Z.mod_small. lia. Qed.

Lemma s32_range z : is_s32 (s32 z).
Proof. unfold is_s32, s32. pose proof (Z.mod_pos_bound (z + 2 ^ 31) (2 ^ 32)). lia. Qed.

Lemma s32_small z : is_s32 z -> s32 z = z.
Proof. unfold is_s32, s32. intros. rewrite Z.mod_small; lia. Qed.

Lemma s32_u32 z : s32 (u32 z) = s32 z.
Proof.
  unfold s32, u32. f_equal.
  rewrite Zplus_mod_idemp_l. reflexivity.
Qed.

Lemma u32_s32 z : u32 (s32 z) = u32 z.
Proof.
  unfold s32, u32.
  rewrite Zminus_mod_idemp_l.
  f_equal. lia.
Qed.

Lemma u32_sub_add a k : is_u32 k -> u32 (u32 (a + k) - a) = k.
Proof.
  intros H. unfold u32. rewrite Zminus_mod_idemp_l.
  replace (a + k - a) with k by lia. apply Z.mod_small. exact H.
Qed.


Lemma lxor_range n a b :
  0 <= n -> 0 <= a < 2 ^ n -> 0 <= b < 2 ^ n -> 0 <= Z.lxor a b < 2 ^ n.
Proof.
  intros Hn Ha Hb.
  assert (H0 : 0 <= Z.lxor a b) by (apply Z.lxor_nonneg; split; intros; lia).
  split; [exact H0|].
  destruct (Z.eq_dec (Z.lxor a b) 0) as [E|E].
  - rewrite E. apply Z.pow_pos_nonneg; lia.
  - assert (Hpos : 0 < n).
    { destruct (Z.eq_dec n 0) as [->|]; [|lia].
      exfalso. apply E. assert (a = 0) by lia. assert (b = 0) by lia.
      subst. reflexivity. }
    apply Z.log2_lt_pow2; [lia|].
    eapply Z.le_lt_trans; [apply Z.log2_lxor; lia|].
    apply Z.max_lub_lt.
    + destruct (Z.eq_dec a 0) as [->|]; [simpl; lia|]. apply Z.log2_lt_pow2; lia.
    + destruct (Z.eq_dec b 0) as [->|]; [simpl; lia|]. apply Z.log2_lt_pow2; lia.
Qed.

Lemma lxor_cancel_r a b k : Z.lxor a k = Z.lxor b k -> a = b.
Proof.
  intros H. apply (f_equal (fun x => Z.lxor x k)) in H.
  rewrite !Z.lxor_assoc, !Z.lxor_nilpotent, !Z.lxor_0_r in H. exact H.
Qed.

Lemma lxor_cancel_l a b k : Z.lxor k a = Z.lxor k b -> a = b.
Proof. rewrite !(Z.lxor_comm k). apply lxor_cancel_r. Qed.

Lemma crc32_bit_eq c :
  crc32_bit c = Z.lxor (Z.shiftr c 1) (if Z.odd c then 0xEDB88320 else 0).
Proof.
  unfold crc32_bit. f_equal.
  change 1 with (Z.ones 1) at 1. rewrite Z.land_ones by lia.
  change (2 ^ 1) with 2. rewrite Zmod_odd.
  destruct (Z.odd c); reflexivity.
Qed.

Lemma crc32_bit_range c : is_u32 c -> is_u32 (crc32_bit c).
Proof.
  unfold is_u32. intros H. rewrite crc32_bit_eq.
  apply lxor_range; [lia| |].
  - rewrite Z.shiftr_div_pow2 by lia. change (2 ^ 1) with 2.
    split; [apply Z.div_pos; lia|]. apply Z.div_lt_upper_bound; lia.
  - destruct (Z.odd c); lia.
Qed.

Lemma crc32_bit_top c : is_u32 c -> Z.testbit (crc32_bit c) 31 = Z.odd c.
Proof.
  unfold is_u32. intros H. rewrite crc32_bit_eq, Z.lxor_spec.
  assert (Hs : Z.testbit (Z.shiftr c 1) 31 = false).
  { rewrite Z.shiftr_spec by lia. change (31 + 1) with 32.
    destruct (Z.eq_dec c 0) as [->|]; [reflexivity|].
    apply Z.bits_above_log2; [lia|]. apply Z.log2_lt_pow2; lia. }
  rewrite Hs. destruct (Z.odd c); reflexivity.
Qed.

Lemma crc32_bit_inj a b :
  is_u32 a -> is_u32 b -> crc32_bit a = crc32_bit b -> a = b.
Proof.
  intros Ha Hb E.
  assert (Ho : Z.odd a = Z.odd b).
  { rewrite <- (crc32_bit_top a), <- (crc32_bit_top b) by assumption. now rewrite E. }
  rewrite !crc32_bit_eq, Ho in E. apply lxor_cancel_r in E.
  rewrite !Z.shiftr_div_pow2 in E by lia. change (2 ^ 1) with 2 in E.
  rewrite (Z.div_mod a 2), (Z.div_mod b 2) by lia.
  rewrite !Zmod_odd, Ho, E. reflexivity.
Qed.

Lemma iter_bit_range n c : is_u32 c -> is_u32 (Nat.iter n crc32_bit c).
Proof. intros H. induction n; simpl; [exact H|]. now apply crc32_bit_range. Qed.

Lemma iter_bit_inj n a b :
  is_u32 a -> is_u32 b -> Nat.iter n crc32_bit a = Nat.iter n crc32_bit b -> a = b.
Proof.
  intros Ha Hb. induction n; simpl; intros E; [exact E|].
  apply IHn. apply crc32_bit_inj; auto using iter_bit_range.
Qed.

Lemma byte_u32 (x : byte) : is_u32 (byte.unsigned x).
Proof. pose proof (byte.unsigned_range x). unfold is_u32. lia. Qed.

Lemma crc32_update_range c x : is_u32 c -> is_u32 (crc32_update c x).
Proof.
  intros H. unfold crc32_update. apply iter_bit_range.
  apply lxor_range; [lia|exact H|apply byte_u32].
Qed.

Lemma crc32_update_eq c x :
  crc32_update c x = Nat.iter 8 crc32_bit (Z.lxor c (byte.unsigned x)).
Proof. reflexivity. Qed.

Lemma crc32_update_inj_crc a b x :
  is_u32 a -> is_u32 b -> crc32_update a x = crc32_update b x -> a = b.
Proof.
  intros Ha Hb E. rewrite !crc32_update_eq in E.
  apply iter_bit_inj in E; try (apply lxor_range; [lia|assumption|apply byte_u32]).
  now apply lxor_cancel_r in E.
Qed.

Lemma crc32_update_inj_data c x y :
  is_u32 c -> crc32_update c x = crc32_update c y -> x = y.
Proof.
  intros Hc E. rewrite !crc32_update_eq in E.
  apply iter_bit_inj in E; try (apply lxor_range; [lia|assumption|apply byte_u32]).
  apply lxor_cancel_l in E. now apply byte.unsigned_inj.
Qed.

(** The three facts about a fold that follow are proved for any step
    function with the properties of [crc32_update] shown above. *)
Section Fold.

Variable f : Z -> byte -> Z.
Hypothesis f_range : forall c x, is_u32 c -> is_u32 (f c x).
Hypothesis f_inj_crc :
  forall a b x, is_u32 a -> is_u32 b -> f a x = f b x -> a = b.
Hypothesis f_inj_data : forall c x y, is_u32 c -> f c x = f c y -> x = y.

Lemma fold_range l c : is_u32 c -> is_u32 (fold_left f l c).
Proof.
  revert c. induction l as [|x l IH]; intros c H; [exact H|].
  cbn [fold_left]. apply IH, f_range, H.
Qed.

Lemma fold_inj l a b :
  is_u32 a -> is_u32 b -> fold_left f l a = fold_left f l b -> a = b.
Proof.
  revert a b. induction l as [|x l IH]; cbn [fold_left]; intros a b Ha Hb E;
    [exact E|].
  apply IH in E; [|apply f_range; assumption ..].
  exact (f_inj_crc a b x Ha Hb E).
Qed.

Lemma fold_single init l1 x y l2 :
  is_u32 init ->
  fold_left f (l1 ++ x :: l2) init = fold_left f (l1 ++ y :: l2) init -> x = y.
Proof.
  intros Hi. rewrite !fold_left_app. cbn [fold_left]. intros E.
  assert (H0 : is_u32 (fold_left f l1 init)) by (apply fold_range, Hi).
  apply fold_inj in E; [|apply f_range; exact H0 ..].
  exact (f_inj_data _ x y H0 E).
Qed.

End Fold.

Lemma fold_update_range l c : is_u32 c -> is_u32 (fold_left crc32_update l c).
Proof. exact (fold_range crc32_update crc32_update_range l c). Qed.

Lemma fold_update_inj l a b :
  is_u32 a -> is_u32 b ->
  fold_left crc32_update l a = fold_left crc32_update l b -> a = b.
Proof.
  exact (fold_inj crc32_update crc32_update_range crc32_update_inj_crc l a b).
Qed.

Lemma crc32_span_range l : is_u32 (crc32_span l).
Proof. apply u32_range. Qed.

Lemma u32_lnot_inj a b : is_u32 a -> is_u32 b -> u32 (Z.lnot a) = u32 (Z.lnot b) -> a = b.
Proof.
  unfold is_u32, u32, Z.lnot, Z.pred. intros Ha Hb E.
  replace (- a + -1) with (2 ^ 32 - 1 - a + (-1) * 2 ^ 32) in E by lia.
  replace (- b + -1) with (2 ^ 32 - 1 - b + (-1) * 2 ^ 32) in E by lia.
  rewrite !Z.mod_add in E by lia.
  rewrite !Z.mod_small in E by lia. lia.
Qed.

Lemma crc32_span_eq l :
  crc32_span l = u32 (Z.lnot (fold_left crc32_update l 4294967295)).
Proof. reflexivity. Qed.

Lemma crc32_span_single l1 x y l2 :
  crc32_span (l1 ++ x :: l2) = crc32_span (l1 ++ y :: l2) -> x = y.
Proof.
  rewrite !crc32_span_eq. intros E.
  assert (Hi : is_u32 4294967295) by (unfold is_u32; lia).
  apply u32_lnot_inj in E; [|apply fold_update_range; exact Hi ..].
  exact (fold_single crc32_update crc32_update_range crc32_update_inj_crc
           crc32_update_inj_data 4294967295 l1 x y l2 Hi E).
Qed.

(** ** Record layout, store and the two persistence functions *)

Lemma le_split4_u32 z : le_split 4 (u32 z) = le_split 4 z.
Proof. symmetry. apply (le_split_mod z 4). Qed.

Lemma le_split4_s32 z : le_split 4 (s32 z) = le_split 4 z.
Proof. rewrite <- (le_split4_u32 (s32 z)), u32_s32. apply le_split4_u32. Qed.

Lemma le_combine_split4 z : le_combine (le_split 4 z) = u32 z.
Proof. apply (le_combine_split 4 z). Qed.

Lemma EEPROM_get_length e a n : List.length (EEPROM_get e a n) = n.
Proof. unfold EEPROM_get. now rewrite length_map, length_seq. Qed.

Lemma EEPROM_get_app obj tl :
  EEPROM_get (obj ++ tl) 0 (List.length obj) = obj.
Proof.
  unfold EEPROM_get, EEPROM_read. simpl.
  induction obj as [|x obj IH]; [reflexivity|].
  simpl. f_equal. rewrite <- seq_shift, map_map. exact IH.
Qed.

Lemma rec_bytes_of_bytes bs :
  List.length bs = 20%nat -> rec_bytes (rec_of_bytes bs) = bs.
Proof.
  intros H.
  do 20 (destruct bs as [|? bs]; [discriminate H|]).
  destruct bs; [|discriminate H].
  unfold rec_bytes, rec_of_bytes, field_u32; cbn [magic version slope tare crc skipn firstn].
  rewrite le_split4_s32.
  rewrite !(split_le_combine' _ 4) by reflexivity.
  reflexivity.
Qed.

Lemma load_spec (s0 t0 : Z) (env : Env) (d : Dev) :
  let bs := EEPROM_get (eeprom d) 0 20 in
  loadCalibrationFromEEPROM s0 t0 env d =
    if record_ok bs
    then ((true, field_u32 bs 8, s32 (field_u32 bs 12)), d, [])
    else ((false, s0, t0), d, []).
Proof.
  intros bs.
  unfold loadCalibrationFromEEPROM, bind, get, ret, sizeof_CalRecord, sizeof_uint32.
  cbv zeta. fold bs. rewrite rec_bytes_of_bytes by apply EEPROM_get_length.
  unfold record_ok. cbn [magic version slope tare crc rec_of_bytes].
  change (20 - 4)%nat with 16%nat.
  destruct (field_u32 bs 0 =? CAL_MAGIC); [|reflexivity].
  destruct (field_u32 bs 4 =? CAL_VERSION); [|reflexivity].
  destruct (crc32_span (firstn 16 bs) =? field_u32 bs 16); reflexivity.
Qed.

Lemma skipn_firstn_rec_bytes r :
  firstn 4 (rec_bytes r) = le_split 4 (magic r) /\
  firstn 4 (skipn 4 (rec_bytes r)) = le_split 4 (version r) /\
  firstn 4 (skipn 8 (rec_bytes r)) = le_split 4 (slope r) /\
  firstn 4 (skipn 12 (rec_bytes r)) = le_split 4 (tare r) /\
  firstn 4 (skipn 16 (rec_bytes r)) = le_split 4 (crc r).
Proof.
  destruct r as [m v s t c]. unfold rec_bytes. cbn [magic version slope tare crc].
  repeat split; reflexivity.
Qed.

Lemma field_rec_bytes r :
  field_u32 (rec_bytes r) 0 = u32 (magic r) /\
  field_u32 (rec_bytes r) 4 = u32 (version r) /\
  field_u32 (rec_bytes r) 8 = u32 (slope r) /\
  field_u32 (rec_bytes r) 12 = u32 (tare r) /\
  field_u32 (rec_bytes r) 16 = u32 (crc r).
Proof.
  destruct (skipn_firstn_rec_bytes r) as (H0 & H4 & H8 & H12 & H16).
  unfold field_u32. change (skipn 0 (rec_bytes r)) with (rec_bytes r).
  rewrite H0, H4, H8, H12, H16, !le_combine_split4. repeat split.
Qed.

Lemma firstn16_rec_bytes m v s t c c' :
  firstn 16 (rec_bytes (mkCalRecord m v s t c)) =
  firstn 16 (rec_bytes (mkCalRecord m v s t c')).
Proof. reflexivity. Qed.

Lemma saved_record_ok sl ta : record_ok (rec_bytes (saved_record sl ta)) = true.
Proof.
  unfold record_ok.
  destruct (field_rec_bytes (saved_record sl ta)) as (H0 & H4 & _ & _ & H16).
  rewrite H0, H4, H16. unfold saved_record. cbn [magic version crc].
  rewrite (u32_small (crc32_span _)) by apply crc32_span_range.
  rewrite (firstn16_rec_bytes _ _ _ _ _ 0).
  rewrite !Z.eqb_refl.
  reflexivity.
Qed.

Lemma saved_record_fields sl ta :
  field_u32 (rec_bytes (saved_record sl ta)) 8 = u32 sl /\
  s32 (field_u32 (rec_bytes (saved_record sl ta)) 12) = s32 ta.
Proof.
  destruct (field_rec_bytes (saved_record sl ta)) as (_ & _ & H8 & H12 & _).
  rewrite H8, H12. unfold saved_record. cbn [slope tare].
  split; [reflexivity|].
  rewrite s32_u32. apply s32_small, s32_range.
Qed.

Lemma save_spec sl ta env d :
  saveCalibrationToEEPROM sl ta env d =
    (tt, set_eeprom (rec_bytes (saved_record sl ta) ++ skipn 20 (eeprom d)) d, []).
Proof. reflexivity. Qed.

Lemma load_after_save sl ta s0 t0 env env' d :
  let d' := state_of (saveCalibrationToEEPROM sl ta env d) in
  loadCalibrationFromEEPROM s0 t0 env' d' = ((true, u32 sl, s32 ta), d', []).
Proof.
  intros d'. rewrite load_spec.
  assert (E : EEPROM_get (eeprom d') 0 20 = rec_bytes (saved_record sl ta)).
  { unfold d'. rewrite save_spec. unfold state_of. cbn [fst snd eeprom set_eeprom].
    apply (EEPROM_get_app (rec_bytes (saved_record sl ta))). }
  rewrite E, saved_record_ok.
  destruct (saved_record_fields sl ta) as [-> ->]. reflexivity.
Qed.

Lemma load_failure_no_mutation (s0 t0 : Z) (env : Env) (d : Dev) :
  fst (fst (value_of (loadCalibrationFromEEPROM s0 t0 env d))) = false ->
  loadCalibrationFromEEPROM s0 t0 env d = ((false, s0, t0), d, []).
Proof.
  rewrite load_spec. destruct (record_ok _); [discriminate|reflexivity].
Qed.

(** ** Single byte corruption *)

Lemma poke_length i b l : List.length (poke i b l) = List.length l.
Proof. revert i. induction l as [|x l IH]; intros [|i]; simpl; auto. Qed.

Lemma poke_app i b l1 l2 :
  (i < List.length l1)%nat -> poke i b (l1 ++ l2) = poke i b l1 ++ l2.
Proof.
  revert i. induction l1 as [|x l1 IH]; intros [|i] H; simpl in *; try lia.
  - reflexivity.
  - f_equal. apply IH. lia.
Qed.

Lemma poke_split i b l d :
  (i < List.length l)%nat ->
  exists l1 l2, l = l1 ++ nth i l d :: l2 /\ poke i b l = l1 ++ b :: l2.
Proof.
  revert i. induction l as [|x l IH]; intros [|i] H; simpl in *; try lia.
  - exists [], l. split; reflexivity.
  - destruct (IH i ltac:(lia)) as (l1 & l2 & E1 & E2).
    exists (x :: l1), l2. split; simpl; f_equal; assumption.
Qed.

Lemma firstn_poke n i b l :
  firstn n (poke i b l) = if (i <? n)%nat then poke i b (firstn n l) else firstn n l.
Proof.
  revert n i. induction l as [|x l IH]; intros [|n] [|i]; simpl;
    rewrite ?IH; repeat match goal with
           | |- context [(S ?a <? S ?c)%nat] => change (S a <? S c)%nat with (a <? c)%nat
           end;
    repeat match goal with |- context [if ?c then _ else _] => destruct c end;
    reflexivity.
Qed.

Lemma skipn_poke n i b l :
  skipn n (poke i b l) = if (i <? n)%nat then skipn n l else poke (i - n) b (skipn n l).
Proof.
  revert n i. induction l as [|x l IH]; intros [|n] [|i]; simpl;
    rewrite ?IH; repeat match goal with
           | |- context [(S ?a <? S ?c)%nat] => change (S a <? S c)%nat with (a <? c)%nat
           end;
    repeat match goal with
           | |- context [if ?c then _ else _] => destruct c
           | |- context [match ?c with O => _ | S _ => _ end] => destruct c
           end;
    reflexivity.
Qed.

Lemma crc32_span_poke i b l :
  (i < List.length l)%nat ->
  crc32_span (poke i b l) = crc32_span l -> b = nth i l Byte.xff.
Proof.
  intros H E. destruct (poke_split i b l Byte.xff H) as (l1 & l2 & E1 & E2).
  remember (nth i l Byte.xff) as x. rewrite E2 in E. rewrite E1 in E.
  eapply crc32_span_single; eassumption.
Qed.

Lemma le_combine_poke i b l :
  (i < List.length l)%nat ->
  le_combine (poke i b l) = le_combine l -> b = nth i l Byte.xff.
Proof.
  intros H E. apply le_combine_inj in E; [|apply poke_length].
  destruct (poke_split i b l Byte.xff H) as (l1 & l2 & E1 & E2).
  remember (nth i l Byte.xff) as x. rewrite E2 in E. rewrite E1 in E.
  apply app_inv_head in E. now injection E.
Qed.

Lemma field_u32_poke off i b l :
  (off + 4 <= List.length l)%nat ->
  field_u32 (poke i b l) off =
    if ((off <=? i) && (i <? off + 4))%nat
    then le_combine (poke (i - off) b (firstn 4 (skipn off l)))
    else field_u32 l off.
Proof.
  intros H. unfold field_u32. rewrite skipn_poke.
  destruct (Nat.ltb_spec i off) as [Hlt|Hge].
  - replace (off <=? i)%nat with false by (symmetry; apply Nat.leb_gt; lia). reflexivity.
  - replace (off <=? i)%nat with true by (symmetry; apply Nat.leb_le; lia).
    rewrite firstn_poke. cbn [andb].
    replace (i - off <? 4)%nat with (i <? off + 4)%nat;
      [destruct (i <? off + 4)%nat; reflexivity|].
    destruct (Nat.ltb_spec i (off + 4)), (Nat.ltb_spec (i - off) 4); lia || reflexivity.
Qed.

Lemma field_u32_poke_in off i b l :
  (off + 4 <= List.length l)%nat -> (off <= i < off + 4)%nat ->
  b <> nth i l Byte.xff ->
  field_u32 (poke i b l) off <> field_u32 l off.
Proof.
  intros Hl Hi Hb E. rewrite field_u32_poke in E by assumption.
  replace ((off <=? i) && (i <? off + 4))%nat with true in E.
  2:{ symmetry. apply andb_true_iff. split; [apply Nat.leb_le|apply Nat.ltb_lt]; lia. }
  unfold field_u32 in E. apply le_combine_poke in E.
  - rewrite nth_firstn in E.
    replace (i - off <? 4)%nat with true in E by (symmetry; apply Nat.ltb_lt; lia).
    rewrite nth_skipn in E. replace (off + (i - off))%nat with i in E by lia.
    contradiction.
  - rewrite length_firstn, length_skipn. lia.
Qed.

Lemma field_u32_poke_out off i b l :
  (off + 4 <= List.length l)%nat -> (i < off \/ off + 4 <= i)%nat ->
  field_u32 (poke i b l) off = field_u32 l off.
Proof.
  intros Hl Hi. rewrite field_u32_poke by assumption.
  replace ((off <=? i) && (i <? off + 4))%nat with false; [reflexivity|].
  symmetry. apply andb_false_iff.
  destruct Hi; [left; apply Nat.leb_gt|right; apply Nat.ltb_ge]; lia.
Qed.

Lemma record_ok_poke i b bs :
  List.length bs = 20%nat -> (i < 20)%nat -> b <> nth i bs Byte.xff ->
  record_ok bs = true -> record_ok (poke i b bs) = false.
Proof.
  intros Hl Hi Hb Hok. unfold record_ok in *.
  apply andb_true_iff in Hok. destruct Hok as [Hok H3].
  apply andb_true_iff in Hok. destruct Hok as [H1 H2].
  apply Z.eqb_eq in H1, H2, H3.
  destruct (Nat.lt_ge_cases i 4) as [C1|C1].
  { replace (field_u32 (poke i b bs) 0 =? CAL_MAGIC) with false; [reflexivity|].
    symmetry. apply Z.eqb_neq. rewrite <- H1.
    apply field_u32_poke_in; auto; lia. }
  destruct (Nat.lt_ge_cases i 8) as [C2|C2].
  { replace (field_u32 (poke i b bs) 4 =? CAL_VERSION) with false;
      [apply andb_false_iff; left; apply andb_false_r|].
    symmetry. apply Z.eqb_neq. rewrite <- H2.
    apply field_u32_poke_in; auto; lia. }
  apply andb_false_iff. right. apply Z.eqb_neq.
  destruct (Nat.lt_ge_cases i 16) as [C3|C3].
  - rewrite field_u32_poke_out, <- H3 by lia.
    rewrite firstn_poke.
    replace (i <? 16)%nat with true by (symmetry; apply Nat.ltb_lt; lia).
    intros E. apply crc32_span_poke in E.
    + rewrite nth_firstn in E.
      replace (i <? 16)%nat with true in E by (symmetry; apply Nat.ltb_lt; lia).
      contradiction.
    + rewrite length_firstn. lia.
  - rewrite firstn_poke.
    replace (i <? 16)%nat with false by (symmetry; apply Nat.ltb_ge; lia).
    rewrite H3. intros E. symmetry in E. revert E.
    apply field_u32_poke_in; auto; lia.
Qed.

(** ** The calibration store *)

(** C2. Saving a pair and loading the store again succeeds: the twenty
    bytes read back pass the magic, version and CRC tests, and [load]
    returns [true] with exactly the saved slope and tare, whatever the
    store held before and whatever the caller's variables held. The two
    hypotheses are the value ranges of the C types of the arguments. *)
Theorem save_then_load_roundtrip :
  forall (sl ta : Z) (env env' : Env) (d : Dev) (s0 t0 : Z),
    is_u32 sl -> is_s32 ta ->
    let d' := state_of (saveCalibrationToEEPROM sl ta env d) in
    List.length (EEPROM_get (eeprom d') 0 sizeof_CalRecord) = 20%nat /\
    record_ok (EEPROM_get (eeprom d') 0 sizeof_CalRecord) = true /\
    loadCalibrationFromEEPROM s0 t0 env' d' = ((true, sl, ta), d', []).
Proof.
  intros sl ta env env' d s0 t0 Hs Ht d'.
  assert (E : EEPROM_get (eeprom d') 0 20 = rec_bytes (saved_record sl ta)).
  { unfold d'. rewrite save_spec. unfold state_of. cbn [fst snd eeprom set_eeprom].
    apply (EEPROM_get_app (rec_bytes (saved_record sl ta))). }
  unfold sizeof_CalRecord. rewrite E.
  split; [reflexivity|]. split; [apply saved_record_ok|].
  unfold d'. rewrite load_after_save, (u32_small sl), (s32_small ta) by assumption.
  reflexivity.
Qed.

Lemma save_then_load_roundtrip_witness :
  is_u32 lit_0_0020f /\ is_s32 (-5) /\
  loadCalibrationFromEEPROM 0 0 (mkEnv 0 0 None 0)
    (state_of (saveCalibrationToEEPROM lit_0_0020f (-5) (mkEnv 0 0 None 0) (power_on [])))
  = ((true, lit_0_0020f, -5),
     state_of (saveCalibrationToEEPROM lit_0_0020f (-5) (mkEnv 0 0 None 0) (power_on [])), []).
Proof.
  assert (H1 : is_u32 lit_0_0020f) by (unfold is_u32, lit_0_0020f; lia).
  assert (H2 : is_s32 (-5)) by (unfold is_s32; lia).
  split; [exact H1|]. split; [exact H2|].
  exact (proj2 (proj2 (save_then_load_roundtrip lit_0_0020f (-5) (mkEnv 0 0 None 0)
           (mkEnv 0 0 None 0) (power_on []) 0 0 H1 H2))).
Defined.

(** C3. After a save, replacing any one of the twenty bytes of the record
    by a different byte makes [load] return [false] with the caller's
    variables untouched; and whenever [load] returns [false] it has written
    neither to them nor to any global. *)
Theorem load_rejects_single_byte_corruption :
  (forall (sl ta : Z) (env env' : Env) (d : Dev) (i : nat) (b : byte) (s0 t0 : Z),
      let d1 := state_of (saveCalibrationToEEPROM sl ta env d) in
      (i < sizeof_CalRecord)%nat ->
      b <> EEPROM_read (eeprom d1) i ->
      let d2 := set_eeprom (poke i b (eeprom d1)) d1 in
      loadCalibrationFromEEPROM s0 t0 env' d2 = ((false, s0, t0), d2, []))
  /\
  (forall (s0 t0 : Z) (env : Env) (d : Dev),
      fst (fst (value_of (loadCalibrationFromEEPROM s0 t0 env d))) = false ->
      loadCalibrationFromEEPROM s0 t0 env d = ((false, s0, t0), d, [])).
Proof.
  split; [|exact load_failure_no_mutation].
  intros sl ta env env' d i b s0 t0 d1 Hi Hb d2.
  unfold sizeof_CalRecord in Hi.
  set (B := rec_bytes (saved_record sl ta)).
  assert (E1 : eeprom d1 = B ++ skipn 20 (eeprom d)).
  { unfold d1. rewrite save_spec. reflexivity. }
  assert (HB : List.length B = 20%nat) by reflexivity.
  assert (E2 : EEPROM_get (eeprom d2) 0 20 = poke i b B).
  { unfold d2. cbn [eeprom set_eeprom]. rewrite E1, poke_app by lia.
    pose proof (EEPROM_get_app (poke i b B) (skipn 20 (eeprom d))) as G.
    rewrite poke_length, HB in G. exact G. }
  rewrite load_spec, E2.
  rewrite record_ok_poke; try assumption; try reflexivity.
  - intros E. apply Hb. rewrite E1. unfold EEPROM_read.
    rewrite app_nth1 by lia. exact E.
  - apply saved_record_ok.
Qed.

Lemma load_rejects_single_byte_corruption_witness :
  let env := mkEnv 0 0 None 0 in
  let d1 := state_of (saveCalibrationToEEPROM lit_0_0020f 0 env (power_on [])) in
  let d2 := set_eeprom (poke 9 Byte.x00 (eeprom d1)) d1 in
  (9 < sizeof_CalRecord)%nat /\ Byte.x00 <> EEPROM_read (eeprom d1) 9 /\
  loadCalibrationFromEEPROM 7 7 env d2 = ((false, 7, 7), d2, []).
Proof.
  intros env d1 d2.
  assert (H1 : (9 < sizeof_CalRecord)%nat) by (unfold sizeof_CalRecord; lia).
  assert (H2 : Byte.x00 <> EEPROM_read (eeprom d1) 9) by (vm_compute; discriminate).
  split; [exact H1|]. split; [exact H2|].
  exact (proj1 load_rejects_single_byte_corruption lit_0_0020f 0 env env
           (power_on []) 9%nat Byte.x00 7 7 H1 H2).
Defined.

(** ** Boot *)

Lemma setup_spec s t env d :
  let bs := EEPROM_get (eeprom d) 0 20 in
  setup s t env d =
    if record_ok bs
    then (tt, set_tare_offset (s32 (field_u32 bs 12)) (set_g_per_count (field_u32 bs 8) d),
          [OK_READY FW_VENDOR FW_DEVICE FW_VERSION])
    else (tt, state_of (resetCalibrationToDefaultsAndPersist env d),
          [OK_READY FW_VENDOR FW_DEVICE FW_VERSION]).
Proof.
  intros bs. unfold setup, bind. rewrite load_spec. fold bs.
  destruct (record_ok bs); reflexivity.
Qed.

Lemma reset_spec env d :
  resetCalibrationToDefaultsAndPersist env d =
    (tt, state_of (saveCalibrationToEEPROM lit_0_0020f 0 env
                     (set_tare_offset 0 (set_g_per_count lit_0_0020f d))), []).
Proof. reflexivity. Qed.

Lemma lit_0_0020f_value :
  B32.of_bits lit_0_0020f = B32.div (B32.of_int 2) (B32.of_int 1000).
Proof. vm_compute. reflexivity. Qed.

(** C4. [setup] on the globals at reset: when [load] succeeds the loaded
    pair becomes the live calibration and the store is left as it was; when
    it fails the live calibration is the default pair (0.0020f, 0), the
    store is the one [save] of the defaults produces, [CAL?] answers the
    defaults, and a reboot on that store loads the same pair and writes
    nothing. *)
Theorem boot_loads_or_persists_defaults :
  forall (e : eeprom_t) (s t : Z) (env : Env),
    let d0 := power_on e in
    let d1 := state_of (setup s t env d0) in
    B32.of_bits lit_0_0020f = fdiv (of_int 2) (of_int 1000) /\
    match value_of (loadCalibrationFromEEPROM s t env d0) with
    | (true, s', t') =>
        g_per_count d1 = s' /\ tare_offset d1 = t' /\ eeprom d1 = e
    | (false, _, _) =>
        g_per_count d1 = lit_0_0020f /\ tare_offset d1 = 0 /\
        eeprom d1 = eeprom (state_of (saveCalibrationToEEPROM lit_0_0020f 0 env d0)) /\
        (forall atof env',
            handle_line atof "CAL?" env' d1 = (tt, d1, [OK_CAL lit_0_0020f 0])) /\
        (forall s2 t2 env2,
            let d2 := state_of (setup s2 t2 env2 (power_on (eeprom d1))) in
            value_of (loadCalibrationFromEEPROM s2 t2 env2 (power_on (eeprom d1)))
              = (true, lit_0_0020f, 0) /\
            g_per_count d2 = lit_0_0020f /\ tare_offset d2 = 0 /\
            eeprom d2 = eeprom d1)
    end.
Proof.
  intros e s t env d0 d1. split; [exact lit_0_0020f_value|].
  unfold d1. rewrite setup_spec, load_spec.
  destruct (record_ok (EEPROM_get (eeprom d0) 0 20)) eqn:Hok;
    unfold value_of, state_of; cbn [fst snd].
  - repeat split.
  - rewrite reset_spec. unfold state_of; cbn [fst snd].
    rewrite save_spec; cbn [fst snd].
    set (e1 := rec_bytes (saved_record lit_0_0020f 0) ++ skipn 20 (eeprom (set_tare_offset 0 (set_g_per_count lit_0_0020f d0)))).
    split; [reflexivity|]. split; [reflexivity|]. split; [reflexivity|].
    split; [intros; reflexivity|].
    intros s2 t2 env2.
    assert (L : loadCalibrationFromEEPROM s2 t2 env2 (power_on e1)
                = ((true, lit_0_0020f, 0), power_on e1, [])).
    { pose proof (load_after_save lit_0_0020f 0 s2 t2 env2 env2 (power_on e)) as L.
      cbv zeta in L. rewrite save_spec in L. exact L. }
    change (eeprom (set_eeprom e1 (set_tare_offset 0 (set_g_per_count lit_0_0020f d0))))
      with e1.
    split; [rewrite L; reflexivity|].
    unfold setup, bind. rewrite L.
    repeat split.
Qed.

(** ** Tachometer edges *)

Lemma tach_isr_spec env d :
  let now := u32 (env_micros env) in
  let prev := last_edge_us d in
  let dt := u32 (now - prev) in
  tach_isr env d =
    (tt,
     {| PULSES_PER_REV := PULSES_PER_REV d;
        g_per_count := g_per_count d;
        tare_offset := tare_offset d;
        tach_pulses_total := u32 (tach_pulses_total d + 1);
        last_edge_us := now;
        last_period_us :=
          if negb (prev =? 0) && (dt >? 100) then dt else last_period_us d;
        epoch_base_ms := epoch_base_ms d;
        eeprom := eeprom d;
        linebuf := linebuf d |}, []).
Proof.
  intros now prev dt. unfold tach_isr, bind, micros, get, modify, ret.
  fold now. cbn [last_edge_us set_last_edge_us set_tach_pulses_total]. fold prev dt.
  destruct (prev =? 0); cbn [negb andb]; [reflexivity|].
  destruct (dt >? 100); reflexivity.
Qed.

(** C5. Every run of the edge handler counts the pulse (modulo 2^32) and
    records the time stamp. With no previous edge recorded (0) the period is
    kept. Otherwise, for an edge [dt] ticks after the previous one, wrap
    around of the 32 bit clock included, the period becomes [dt] when
    [dt > 100] and is kept when not: kept for 50, set to 150 for 150. *)
Theorem tach_isr_edge :
  forall (env : Env) (d : Dev),
    let now := u32 (env_micros env) in
    let prev := last_edge_us d in
    let d' := state_of (tach_isr env d) in
    tach_pulses_total d' = u32 (tach_pulses_total d + 1) /\
    last_edge_us d' = now /\
    (prev = 0 -> last_period_us d' = last_period_us d) /\
    (prev <> 0 ->
     forall dt, is_u32 dt -> now = u32 (prev + dt) ->
       last_period_us d' = if dt >? 100 then dt else last_period_us d) /\
    (prev <> 0 -> now = u32 (prev + 50) -> last_period_us d' = last_period_us d) /\
    (prev <> 0 -> now = u32 (prev + 150) -> last_period_us d' = 150).
Proof.
  intros env d now prev d'.
  assert (G : prev <> 0 -> forall dt, is_u32 dt -> now = u32 (prev + dt) ->
              last_period_us d' = if dt >? 100 then dt else last_period_us d).
  { intros Hp dt Hdt Hnow. unfold d'. rewrite tach_isr_spec.
    unfold state_of; cbn [fst snd last_period_us]. fold now prev.
    rewrite Hnow, u32_sub_add by exact Hdt.
    apply Z.eqb_neq in Hp. rewrite Hp. reflexivity. }
  split; [unfold d'; rewrite tach_isr_spec; reflexivity|].
  split; [unfold d'; rewrite tach_isr_spec; reflexivity|].
  split.
  { intros Hp. unfold d'. rewrite tach_isr_spec.
    unfold state_of; cbn [fst snd last_period_us]. fold prev. rewrite Hp. reflexivity. }
  split; [exact G|].
  split; intros Hp Hnow.
  - apply (G Hp 50); [unfold is_u32; lia|exact Hnow].
  - apply (G Hp 150); [unfold is_u32; lia|exact Hnow].
Qed.

Lemma tach_isr_edge_witness :
  let env := mkEnv 0 40 None 0 in
  let d := set_last_edge_us (2 ^ 32 - 110) (set_last_period_us 7 (power_on [])) in
  last_edge_us d <> 0 /\ is_u32 150 /\
  u32 (env_micros env) = u32 (last_edge_us d + 150) /\
  last_period_us (state_of (tach_isr env d)) = 150.
Proof.
  intros env d.
  assert (H1 : last_edge_us d <> 0) by (vm_compute; discriminate).
  assert (H2 : is_u32 150) by (unfold is_u32; lia).
  assert (H3 : u32 (env_micros env) = u32 (last_edge_us d + 150)) by reflexivity.
  split; [exact H1|]. split; [exact H2|]. split; [exact H3|].
  destruct (tach_isr_edge env d) as (_ & _ & _ & G & _ & _).
  exact (G H1 150 H2 H3).
Defined.

(** ** Rounding of positive numbers in [SpecFloat] *)

Lemma digits2_pos_bounds p :
  2 ^ (Zpos (digits2_pos p) - 1) <= Zpos p < 2 ^ Zpos (digits2_pos p).
Proof.
  induction p as [p IH|p IH|]; cbn [digits2_pos].
  - rewrite Pos2Z.inj_succ. replace (Z.succ (Zpos (digits2_pos p)) - 1) with (Zpos (digits2_pos p)) by lia.
    rewrite Z.pow_succ_r by lia.
    replace (2 ^ Zpos (digits2_pos p)) with (2 * 2 ^ (Zpos (digits2_pos p) - 1)) in *
      by (rewrite <- Z.pow_succ_r by lia; f_equal; lia).
    lia.
  - rewrite Pos2Z.inj_succ. replace (Z.succ (Zpos (digits2_pos p)) - 1) with (Zpos (digits2_pos p)) by lia.
    rewrite Z.pow_succ_r by lia.
    replace (2 ^ Zpos (digits2_pos p)) with (2 * 2 ^ (Zpos (digits2_pos p) - 1)) in *
      by (rewrite <- Z.pow_succ_r by lia; f_equal; lia).
    lia.
  - simpl. lia.
Qed.

Lemma digits2_pos_le p k : 0 <= k -> Zpos p < 2 ^ k -> Zpos (digits2_pos p) <= k.
Proof.
  intros Hk H. destruct (Z_le_gt_dec (Zpos (digits2_pos p)) k) as [L|G]; [exact L|].
  exfalso. pose proof (digits2_pos_bounds p) as [B _].
  assert (2 ^ k <= 2 ^ (Zpos (digits2_pos p) - 1)) by (apply Z.pow_le_mono_r; lia).
  lia.
Qed.

Lemma shr_1_m mrs : 0 <= shr_m mrs -> shr_m (shr_1 mrs) = shr_m mrs / 2.
Proof.
  destruct mrs as [m r s]. cbn [shr_m]. intros H.
  destruct m as [|[p|p|]|p]; cbn [shr_1 shr_m]; try reflexivity; try lia.
  - rewrite Pos2Z.inj_xI. apply Z.div_unique with (r := 1); lia.
  - rewrite Pos2Z.inj_xO. apply Z.div_unique with (r := 0); lia.
Qed.

Lemma iter_pos_shr_m p : forall mrs,
  0 <= shr_m mrs ->
  shr_m (iter_pos shr_1 p mrs) = shr_m mrs / 2 ^ Zpos p.
Proof.
  induction p as [p IH|p IH|]; intros mrs H; cbn [iter_pos].
  - assert (H1 : 0 <= shr_m (shr_1 mrs)) by (rewrite shr_1_m by exact H; apply Z.div_pos; lia).
    assert (H2 : 0 <= shr_m (iter_pos shr_1 p (shr_1 mrs)))
      by (rewrite IH by exact H1; apply Z.div_pos; [exact H1|apply Z.pow_pos_nonneg; lia]).
    rewrite IH, IH, shr_1_m by assumption.
    rewrite !Z.div_div by (try apply Z.pow_pos_nonneg; lia).
    f_equal. rewrite Pos2Z.inj_xI, <- Z.pow_add_r, <- (Z.pow_1_r 2) at 1 by lia.
    rewrite <- Z.pow_add_r by lia. f_equal. lia.
  - assert (H2 : 0 <= shr_m (iter_pos shr_1 p mrs))
      by (rewrite IH by exact H; apply Z.div_pos; [exact H|apply Z.pow_pos_nonneg; lia]).
    rewrite IH, IH by assumption.
    rewrite !Z.div_div by (try apply Z.pow_pos_nonneg; lia).
    f_equal. rewrite Pos2Z.inj_xO, <- Z.pow_add_r by lia. f_equal. lia.
  - rewrite shr_1_m by exact H. reflexivity.
Qed.

Lemma shr_m_of_loc m l : shr_m (shr_record_of_loc m l) = m.
Proof. destruct l as [|[| |]]; reflexivity. Qed.

Lemma round_nearest_even_bounds m l :
  m <= round_nearest_even m l <= m + 1.
Proof.
  unfold round_nearest_even. destruct l as [|[| |]]; try lia.
  destruct (Z.even m); lia.
Qed.

Section RoundAux.

Variables prec emax : Z.
Hypothesis prec_pos : 0 < prec.

Lemma shr_fexp_pos mx ex lx :
  0 < mx -> emin prec emax <= ex ->
  0 < shr_m (fst (shr_fexp prec emax mx ex lx)) < 2 ^ prec /\
  ex <= snd (shr_fexp prec emax mx ex lx).
Proof.
  intros Hm He. destruct mx as [|p|p]; try lia.
  unfold shr_fexp, shr, fexp. cbn [Zdigits2].
  pose proof (digits2_pos_bounds p) as [B1 B2].
  set (d := Zpos (digits2_pos p)) in *.
  assert (Hd : 0 < d) by (unfold d; lia).
  destruct (Z.max (d + ex - prec) (emin prec emax) - ex) as [|q|q] eqn:En;
    cbn [fst snd].
  - rewrite shr_m_of_loc. split; [|lia]. split; [lia|].
    eapply Z.lt_le_trans; [exact B2|]. apply Z.pow_le_mono_r; lia.
  - assert (Hn : Zpos q = d - prec) by lia.
    rewrite iter_pos_shr_m by (rewrite shr_m_of_loc; lia).
    rewrite shr_m_of_loc. split; [|lia].
    assert (Hq : 0 < 2 ^ Zpos q) by (apply Z.pow_pos_nonneg; lia).
    split.
    + apply Z.lt_le_trans with (2 ^ (prec - 1)); [apply Z.pow_pos_nonneg; lia|].
      apply Z.div_le_lower_bound; [exact Hq|].
      rewrite <- Z.pow_add_r by lia.
      replace (Zpos q + (prec - 1)) with (d - 1) by lia. exact B1.
    + apply Z.div_lt_upper_bound; [exact Hq|].
      rewrite <- Z.pow_add_r by lia.
      replace (Zpos q + prec) with d by lia. exact B2.
  - rewrite shr_m_of_loc. split; [|lia]. split; [lia|].
    eapply Z.lt_le_trans; [exact B2|]. apply Z.pow_le_mono_r; lia.
Qed.

(** Rounding a positive mantissa whose exponent is not below [emin] never
    underflows to zero: the result is a positive-mantissa finite number, no
    smaller in exponent, or the infinity of the same sign. *)
Lemma binary_round_aux_pos sx mx ex lx :
  0 < mx -> emin prec emax <= ex ->
  (exists m e, binary_round_aux prec emax sx mx ex lx = S754_finite sx m e /\
               ex <= e /\ Zpos m < 2 ^ prec)
  \/ binary_round_aux prec emax sx mx ex lx = S754_infinity sx.
Proof.
  intros Hm He. unfold binary_round_aux.
  pose proof (shr_fexp_pos mx ex lx Hm He) as [[A1 A2] A3].
  destruct (shr_fexp prec emax mx ex lx) as [mrs1 e1]. cbn [fst snd] in A1, A2, A3.
  pose proof (round_nearest_even_bounds (shr_m mrs1) (loc_of_shr_record mrs1)) as [R1 R2].
  set (m2 := round_nearest_even (shr_m mrs1) (loc_of_shr_record mrs1)) in *.
  assert (Hm2 : 0 < m2) by lia.
  pose proof (shr_fexp_pos m2 e1 loc_Exact Hm2 ltac:(lia)) as [[C1 C2] C3].
  destruct (shr_fexp prec emax m2 e1 loc_Exact) as [mrs2 e2]. cbn [fst snd] in C1, C2, C3.
  destruct (shr_m mrs2) as [|m|m]; try lia.
  destruct (e2 <=? emax - prec); [left|right; reflexivity].
  exists m, e2. repeat split; lia.
Qed.

End RoundAux.

Lemma b32_of_int_pos z :
  0 < z ->
  (exists m e, B32.of_int z = S754_finite false m e /\ -23 <= e /\ Zpos m < 2 ^ 24)
  \/ B32.of_int z = S754_infinity false.
Proof.
  intros Hz. destruct z as [|p|p]; try lia.
  unfold B32.of_int, binary_normalize, binary_round, shl_align.
  pose proof (digits2_pos_bounds p) as [B1 B2].
  set (d := Zpos (digits2_pos p)) in *.
  assert (Hd : 0 < d) by (unfold d; lia).
  assert (Hf : fexp B32.prec B32.emax (d + 0) = Z.max (d - 24) (-149)).
  { unfold fexp, emin, B32.prec, B32.emax. f_equal; lia. }
  rewrite Hf.
  destruct (Z.max (d - 24) (-149) - 0) as [|q|q] eqn:En.
  - destruct (binary_round_aux_pos B32.prec B32.emax ltac:(unfold B32.prec; lia)
                false (Zpos p) 0 loc_Exact ltac:(lia)
                ltac:(unfold emin, B32.prec, B32.emax; lia))
      as [(m & e & E & E1 & E2)|E]; [left|right; exact E].
    exists m, e. unfold B32.prec in E2. repeat split; try assumption; lia.
  - destruct (binary_round_aux_pos B32.prec B32.emax ltac:(unfold B32.prec; lia)
                false (Zpos p) 0 loc_Exact ltac:(lia)
                ltac:(unfold emin, B32.prec, B32.emax; lia))
      as [(m & e & E & E1 & E2)|E]; [left|right; exact E].
    exists m, e. unfold B32.prec in E2. repeat split; try assumption; lia.
  - destruct (binary_round_aux_pos B32.prec B32.emax ltac:(unfold B32.prec; lia)
                false (Zpos (Pos.iter xO p q)) (Z.max (d - 24) (-149)) loc_Exact ltac:(lia)
                ltac:(unfold emin, B32.prec, B32.emax; lia))
      as [(m & e & E & E1 & E2)|E]; [left|right; exact E].
    exists m, e. unfold B32.prec in E2. repeat split; try assumption; lia.
Qed.

Lemma b32_div_1e6_pos m e :
  -23 <= e -> Zpos m < 2 ^ 24 ->
  (exists m' e', B32.div (S754_finite false m e) (B32.of_int 1000000)
                 = S754_finite false m' e')
  \/ B32.div (S754_finite false m e) (B32.of_int 1000000) = S754_infinity false.
Proof.
  intros He Hm.
  change (B32.of_int 1000000) with (S754_finite false 16000000 (-4)).
  unfold B32.div, SFdiv, SFdiv_core_binary. cbn [xorb Zdigits2].
  change (Zpos (digits2_pos 16000000)) with 24.
  pose proof (digits2_pos_bounds m) as [B1 B2].
  pose proof (digits2_pos_le m 24 ltac:(lia) Hm) as B3.
  set (d := Zpos (digits2_pos m)) in *.
  assert (Hd : 0 < d) by (unfold d; lia).
  assert (E1 : Z.min (fexp B32.prec B32.emax (d + e - (24 + -4))) (e - -4) = d + e - 44).
  { unfold fexp, emin, B32.prec, B32.emax. lia. }
  rewrite E1.
  destruct (e - -4 - (d + e - 44)) as [|q|q] eqn:Es; try lia.
  assert (Hq : Zpos q = 48 - d) by lia.
  rewrite Z.shiftl_mul_pow2 by lia.
  assert (Hbig : 2 ^ 47 <= Zpos m * 2 ^ Zpos q).
  { replace 47 with ((d - 1) + Zpos q) by lia. rewrite Z.pow_add_r by lia.
    apply Z.mul_le_mono_nonneg_r; [apply Z.pow_nonneg; lia|exact B1]. }
  pose proof (Z_div_mod (Zpos m * 2 ^ Zpos q) 16000000 ltac:(lia)) as Hdm.
  destruct (Z.div_eucl (Zpos m * 2 ^ Zpos q) 16000000) as [qq rr].
  assert (Hqq : 0 < qq).
  { change (2 ^ 47) with 140737488355328 in Hbig. nia. }
  destruct (binary_round_aux_pos B32.prec B32.emax ltac:(unfold B32.prec; lia)
              false qq (d + e - 44) (new_location 16000000 rr) Hqq
              ltac:(unfold emin, B32.prec, B32.emax; lia))
    as [(m' & e' & E & _)|E]; [left; eauto|right; exact E].
Qed.

Lemma period_s_not_le_zero p :
  0 < p -> fleb (fdiv (of_int p) (of_int 1000000)) (of_int (F := spec_float) 0) = false.
Proof.
  intros Hp. cbn [fleb fdiv of_int Arith_b32].
  destruct (b32_of_int_pos p Hp) as [(m & e & -> & He & Hm)| ->].
  - destruct (b32_div_1e6_pos m e He Hm) as [(m' & e' & ->)| ->]; reflexivity.
  - reflexivity.
Qed.

(** ** Rounding error of the single precision operations

    [binary_round_aux] is followed through its two shifts: the record after
    the first shift is [rec_of], rounding to nearest even moves the mantissa
    by at most one half, and the second shift only renormalises. In the
    normal range this is a relative error of at most [2^-24] for conversion
    from an integer, product and quotient. *)

Ltac bool_cases :=
  repeat match goal with
         | |- context [?a <=? ?b] => destruct (Z.leb_spec a b)
         | |- context [?a =? ?b] => destruct (Z.eqb_spec a b)
         end;
  cbn [negb andb orb]; try reflexivity; try lia.

Lemma div_mod_double N D : 0 <= N -> 0 < D ->
  N / (2 * D) = (N / D) / 2 /\ N mod (2 * D) = ((N / D) mod 2) * D + N mod D.
Proof.
  intros HN HD.
  pose proof (Z.div_mod N D ltac:(lia)) as E.
  pose proof (Z.mod_pos_bound N D HD) as B.
  pose proof (Z.div_mod (N / D) 2 ltac:(lia)) as E2.
  pose proof (Z.mod_pos_bound (N / D) 2 ltac:(lia)) as B2.
  assert (G : N = (2 * D) * ((N / D) / 2) + (((N / D) mod 2) * D + N mod D)) by nia.
  assert (R : 0 <= ((N / D) mod 2) * D + N mod D < 2 * D) by nia.
  split.
  - symmetry. apply (Z.div_unique N (2 * D) _ _ (or_introl R) G).
  - symmetry. apply (Z.mod_unique N (2 * D) _ _ (or_introl R) G).
Qed.

Lemma xI_div_mod p : Zpos p~1 / 2 = Zpos p /\ Zpos p~1 mod 2 = 1.
Proof.
  rewrite Pos2Z.inj_xI. split; symmetry.
  - apply Z.div_unique with (r := 1); lia.
  - apply Z.mod_unique with (q := Zpos p); lia.
Qed.

Lemma xO_div_mod p : Zpos p~0 / 2 = Zpos p /\ Zpos p~0 mod 2 = 0.
Proof.
  rewrite Pos2Z.inj_xO. split; symmetry.
  - apply Z.div_unique with (r := 0); lia.
  - apply Z.mod_unique with (q := Zpos p); lia.
Qed.

Lemma shr_1_rec_of N D : 0 <= N -> 0 < D -> shr_1 (rec_of N D) = rec_of N (2 * D).
Proof.
  intros HN HD. destruct (div_mod_double N D HN HD) as [E1 E2].
  unfold rec_of. rewrite E1, E2.
  pose proof (Z.mod_pos_bound N D HD) as B.
  assert (Hm : 0 <= N / D) by (apply Z.div_pos; lia).
  remember (N / D) as m eqn:Em. remember (N mod D) as rho eqn:Er.
  clear Em Er E1 E2.
  destruct m as [|[p|p|]|p]; try lia; cbn [shr_1].
  - change (0 / 2) with 0. change (0 mod 2) with 0. f_equal; bool_cases.
  - destruct (xI_div_mod p) as [-> ->]. f_equal; bool_cases.
  - destruct (xO_div_mod p) as [-> ->]. f_equal; bool_cases.
  - change (1 / 2) with 0. change (1 mod 2) with 1. f_equal; bool_cases.
Qed.

Lemma iter_pos_rec_of p : forall N D, 0 <= N -> 0 < D ->
  iter_pos shr_1 p (rec_of N D) = rec_of N (2 ^ Zpos p * D).
Proof.
  induction p as [p IH|p IH|]; intros N D HN HD; cbn [iter_pos].
  - assert (P : 0 < 2 ^ Zpos p) by (apply Z.pow_pos_nonneg; lia).
    rewrite shr_1_rec_of, IH, IH by nia.
    f_equal.
    replace (Zpos p~1) with (Zpos p + Zpos p + 1) by lia.
    rewrite !Z.pow_add_r by lia. ring.
  - assert (P : 0 < 2 ^ Zpos p) by (apply Z.pow_pos_nonneg; lia).
    rewrite IH, IH by nia.
    f_equal.
    replace (Zpos p~0) with (Zpos p + Zpos p) by lia.
    rewrite !Z.pow_add_r by lia. ring.
  - rewrite shr_1_rec_of by assumption. reflexivity.
Qed.

Lemma div_mod_of_sum q r D : 0 < D -> 0 <= r < D ->
  (q * D + r) / D = q /\ (q * D + r) mod D = r.
Proof.
  intros HD Hr. split; symmetry.
  - apply Z.div_unique with (r := r); lia.
  - apply Z.mod_unique with (q := q); lia.
Qed.

Lemma rec_of_loc_of_rem q r D : 0 < D -> 0 <= r < D ->
  shr_record_of_loc q (loc_of_rem r D) = rec_of (q * D + r) D.
Proof.
  intros HD Hr. unfold rec_of. destruct (div_mod_of_sum q r D HD Hr) as [-> ->].
  unfold loc_of_rem. destruct (Z.eqb_spec r 0) as [->|Hn].
  - cbn [shr_record_of_loc]. f_equal; bool_cases.
  - destruct (Z.compare_spec (2 * r) D); cbn [shr_record_of_loc]; f_equal; bool_cases.
Qed.

Lemma rec_of_new_location q r D : 0 < D -> 0 <= r < D ->
  shr_record_of_loc q (new_location D r) = rec_of (q * D + r) D.
Proof.
  intros HD Hr. rewrite <- rec_of_loc_of_rem by assumption. f_equal.
  unfold new_location, new_location_even, new_location_odd, loc_of_rem.
  destruct (Z.even D) eqn:Ev; [reflexivity|].
  destruct (Z.eqb_spec r 0); [reflexivity|]. f_equal.
  assert (Ho : Z.odd D = true) by (rewrite <- Z.negb_even, Ev; reflexivity).
  apply Z.odd_spec in Ho. destruct Ho as [k Hk].
  destruct (Z.compare_spec (2 * r + 1) D), (Z.compare_spec (2 * r) D);
    try reflexivity; lia.
Qed.

Lemma round_nearest_even_rec_of N D : 0 <= N -> 0 < D ->
  let m2 := round_nearest_even (shr_m (rec_of N D)) (loc_of_shr_record (rec_of N D)) in
  N / D <= m2 <= N / D + 1 /\ - D <= 2 * (m2 * D) - 2 * N <= D.
Proof.
  intros HN HD.
  pose proof (Z.div_mod N D ltac:(lia)) as E.
  pose proof (Z.mod_pos_bound N D HD) as B.
  unfold rec_of. cbn [shr_m loc_of_shr_record].
  remember (N / D) as m eqn:Em. remember (N mod D) as rho eqn:Er.
  clear Em Er.
  destruct (Z.leb_spec D (2 * rho)), (Z.eqb_spec rho 0), (Z.eqb_spec (2 * rho) D);
    cbn [negb andb round_nearest_even]; try destruct (Z.even m); nia.
Qed.

Lemma digits2_pos_unique p k :
  2 ^ (k - 1) <= Zpos p < 2 ^ k -> Zpos (digits2_pos p) = k.
Proof.
  intros [H1 H2]. pose proof (digits2_pos_bounds p) as [B1 B2].
  remember (Zpos (digits2_pos p)) as d eqn:Ed.
  assert (0 < d) by lia.
  destruct (Z.lt_trichotomy d k) as [L|[E|G]]; [|exact E|].
  - exfalso. assert (2 ^ d <= 2 ^ (k - 1)) by (apply Z.pow_le_mono_r; lia). lia.
  - exfalso. destruct (Z_lt_le_dec k 0).
    + rewrite (Z.pow_neg_r 2 k) in H2 by lia. lia.
    + assert (2 ^ k <= 2 ^ (d - 1)) by (apply Z.pow_le_mono_r; lia). lia.
Qed.

Section RoundErr.

Variables prec emax : Z.
Hypothesis prec_pos : 0 < prec.

Lemma shr_fexp_rec_of p ex lx N D :
  0 < D -> 0 <= N ->
  shr_record_of_loc (Zpos p) lx = rec_of N D ->
  let n := Zpos (digits2_pos p) - prec in
  0 <= n -> emin prec emax <= ex + n ->
  shr_fexp prec emax (Zpos p) ex lx = (rec_of N (2 ^ n * D), ex + n).
Proof.
  intros HD HN Hl n Hn He. unfold shr_fexp, shr. rewrite Hl. cbn [Zdigits2].
  assert (E : fexp prec emax (Zpos (digits2_pos p) + ex) - ex = n)
    by (unfold fexp, n; lia).
  rewrite E. destruct n as [|q|q] eqn:En; try lia.
  - rewrite Z.pow_0_r, Z.mul_1_l, Z.add_0_r. reflexivity.
  - rewrite iter_pos_rec_of by assumption. reflexivity.
Qed.

Lemma shr_fexp_exact_small m e :
  2 ^ (prec - 1) <= Zpos m < 2 ^ prec -> emin prec emax <= e ->
  shr_fexp prec emax (Zpos m) e loc_Exact
  = ({| shr_m := Zpos m; shr_r := false; shr_s := false |}, e).
Proof.
  intros Hm He. unfold shr_fexp, shr. cbn [Zdigits2].
  rewrite (digits2_pos_unique m prec Hm).
  assert (E : fexp prec emax (prec + e) - e = 0) by (unfold fexp; lia).
  rewrite E. reflexivity.
Qed.

Lemma shr_fexp_exact_carry m e :
  Zpos m = 2 ^ prec -> emin prec emax <= e ->
  exists m', shr_fexp prec emax (Zpos m) e loc_Exact
             = ({| shr_m := Zpos m'; shr_r := false; shr_s := false |}, e + 1)
             /\ Zpos m = 2 * Zpos m'.
Proof.
  intros Hm He. unfold shr_fexp, shr. cbn [Zdigits2].
  assert (P : 2 ^ prec = 2 * 2 ^ (prec - 1)).
  { rewrite <- Z.pow_succ_r by lia. f_equal. lia. }
  assert (Q : 0 < 2 ^ (prec - 1)) by (apply Z.pow_pos_nonneg; lia).
  rewrite (digits2_pos_unique m (prec + 1)).
  2:{ replace (prec + 1 - 1) with prec by lia.
      rewrite Z.pow_add_r, Z.pow_1_r by lia. lia. }
  assert (E : fexp prec emax (prec + 1 + e) - e = 1) by (unfold fexp; lia).
  rewrite E. cbn [iter_pos shr_record_of_loc].
  destruct m as [m|m|]; cbn [shr_1 orb].
  - exfalso. rewrite Pos2Z.inj_xI in Hm. lia.
  - exists m. split; [reflexivity|]. rewrite Pos2Z.inj_xO. reflexivity.
  - exfalso. lia.
Qed.

Lemma binary_round_aux_rel sx p ex lx N D :
  0 < D -> Zpos p * D <= N < (Zpos p + 1) * D ->
  shr_record_of_loc (Zpos p) lx = rec_of N D ->
  let n := Zpos (digits2_pos p) - prec in
  0 <= n -> emin prec emax <= ex + n -> ex + n + 1 <= emax - prec ->
  exists m e m2,
    binary_round_aux prec emax sx (Zpos p) ex lx = S754_finite sx m e /\
    2 ^ (prec - 1) <= Zpos m < 2 ^ prec /\
    ((e = ex + n /\ m2 = Zpos m) \/ (e = ex + n + 1 /\ m2 = 2 * Zpos m)) /\
    - (2 ^ n * D) <= 2 * (m2 * (2 ^ n * D)) - 2 * N <= 2 ^ n * D.
Proof.
  intros HD HN Hl n Hn He Ho.
  assert (HN0 : 0 <= N) by nia.
  pose proof (digits2_pos_bounds p) as [B1 B2].
  assert (Pn : 0 < 2 ^ n) by (apply Z.pow_pos_nonneg; lia).
  assert (Pp : 0 < 2 ^ (prec - 1)) by (apply Z.pow_pos_nonneg; lia).
  assert (P2 : 2 ^ prec = 2 * 2 ^ (prec - 1)).
  { rewrite <- Z.pow_succ_r by lia. f_equal. lia. }
  assert (Ed : Zpos (digits2_pos p) = n + prec) by (unfold n; lia).
  assert (B1' : 2 ^ n * 2 ^ (prec - 1) <= Zpos p).
  { rewrite <- Z.pow_add_r by lia. replace (n + (prec - 1)) with (Zpos (digits2_pos p) - 1) by lia.
    exact B1. }
  assert (B2' : Zpos p < 2 ^ n * 2 ^ prec).
  { rewrite <- Z.pow_add_r by lia. rewrite <- Ed. exact B2. }
  set (D1 := 2 ^ n * D) in *.
  assert (HD1 : 0 < D1) by (unfold D1; nia).
  unfold binary_round_aux.
  rewrite (shr_fexp_rec_of p ex lx N D HD HN0 Hl Hn He). fold n. fold D1.
  pose proof (round_nearest_even_rec_of N D1 HN0 HD1) as [[R1 R2] R3].
  cbv zeta in R1, R2, R3.
  remember (round_nearest_even (shr_m (rec_of N D1)) (loc_of_shr_record (rec_of N D1)))
    as m2 eqn:Em2.
  assert (Q1 : 2 ^ (prec - 1) <= N / D1).
  { apply Z.div_le_lower_bound; [exact HD1|]. unfold D1. nia. }
  assert (Q2 : N / D1 < 2 ^ prec).
  { apply Z.div_lt_upper_bound; [exact HD1|]. unfold D1. nia. }
  destruct m2 as [|q|q]; try lia.
  destruct (Z_lt_le_dec (Zpos q) (2 ^ prec)) as [Lt|Ge].
  - rewrite (shr_fexp_exact_small q (ex + n)) by lia. cbn [shr_m].
    replace (ex + n <=? emax - prec) with true by (symmetry; apply Z.leb_le; lia).
    exists q, (ex + n), (Zpos q). repeat split; lia.
  - assert (Eq : Zpos q = 2 ^ prec) by lia.
    destruct (shr_fexp_exact_carry q (ex + n) Eq ltac:(lia)) as (m' & -> & Hm').
    cbn [shr_m].
    replace (ex + n + 1 <=? emax - prec) with true by (symmetry; apply Z.leb_le; lia).
    exists m', (ex + n + 1), (Zpos q). repeat split; lia.
Qed.

End RoundErr.

Local Open Scope Q_scope.

Lemma pow2_pos e : 0 < 2 ^ e.
Proof. apply Qpower_0_lt. reflexivity. Qed.

Lemma pow2_add a b : 2 ^ (a + b) == 2 ^ a * 2 ^ b.
Proof. apply Qpower_plus. discriminate. Qed.

Lemma pow2_inject n : (0 <= n)%Z -> inject_Z (2 ^ n) == 2 ^ n.
Proof. intros H. rewrite Zpower_Qpower by exact H. reflexivity. Qed.

Lemma near_of_int (a N D T : Z) (E : Q) :
  (0 < D)%Z -> (0 < T)%Z -> 0 < E ->
  (T * (a * D - N) <= N)%Z -> (T * (N - a * D) <= N)%Z ->
  near (1 / inject_Z T) (inject_Z N / inject_Z D * E) (inject_Z a * E).
Proof.
  intros HD HT HE H1 H2.
  assert (QD : 0 < inject_Z D) by (change 0 with (inject_Z 0); rewrite <- Zlt_Qlt; exact HD).
  assert (QT : 0 < inject_Z T) by (change 0 with (inject_Z 0); rewrite <- Zlt_Qlt; exact HT).
  assert (G1 : inject_Z T * (inject_Z a * inject_Z D - inject_Z N) <= inject_Z N).
  { unfold Qminus. rewrite <- !inject_Z_mult, <- inject_Z_opp, <- inject_Z_plus, <- inject_Z_mult, <- Zle_Qle.
    replace (a * D + - N)%Z with (a * D - N)%Z by lia. exact H1. }
  assert (G2 : inject_Z T * (inject_Z N - inject_Z a * inject_Z D) <= inject_Z N).
  { unfold Qminus. rewrite <- !inject_Z_mult, <- inject_Z_opp, <- inject_Z_plus, <- inject_Z_mult, <- Zle_Qle.
    replace (N + - (a * D))%Z with (N - a * D)%Z by lia. exact H2. }
  set (qa := inject_Z a) in *. set (qN := inject_Z N) in *.
  set (qD := inject_Z D) in *. set (qT := inject_Z T) in *.
  assert (ED : qN / qD * qD == qN) by (field; intro Z; rewrite Z in QD; discriminate).
  assert (ET : 1 / qT * qT == 1) by (field; intro Z; rewrite Z in QT; discriminate).
  set (x := qN / qD) in *. set (u := 1 / qT) in *.
  assert (PDT : 0 < qD * qT) by nra.
  unfold near. split.
  - apply Qmult_le_r with (z := qD * qT); [exact PDT|].
    assert (L : x * E * (1 - u) * (qD * qT) == E * (qN * qT - qN)).
    { transitivity (E * ((x * qD) * (qT - u * qT))); [ring|]. rewrite ED, ET. ring. }
    rewrite L. nra.
  - apply Qmult_le_r with (z := qD * qT); [exact PDT|].
    assert (L : x * E * (1 + u) * (qD * qT) == E * (qN * qT + qN)).
    { transitivity (E * ((x * qD) * (qT + u * qT))); [ring|]. rewrite ED, ET. ring. }
    rewrite L. nra.
Qed.

Lemma near_ext u X v X' v' : X == X' -> v == v' -> near u X v -> near u X' v'.
Proof. unfold near. intros E1 E2 [A B]. rewrite <- E1, <- E2. split; assumption. Qed.

Lemma inject_Z_pos_lt z : (0 < z)%Z -> 0 < inject_Z z.
Proof. intros H. change 0 with (inject_Z 0). rewrite <- Zlt_Qlt. exact H. Qed.

Local Close Scope Q_scope.

Lemma digits2_pos_range p a b :
  2 ^ a <= Zpos p < 2 ^ b -> a < Zpos (digits2_pos p) <= b.
Proof.
  intros [H1 H2]. pose proof (digits2_pos_bounds p) as [B1 B2].
  remember (Zpos (digits2_pos p)) as d eqn:Ed. assert (0 < d) by lia.
  split.
  - destruct (Z_lt_le_dec a d) as [L|G]; [exact L|]. exfalso.
    assert (2 ^ d <= 2 ^ a) by (apply Z.pow_le_mono_r; lia). lia.
  - destruct (Z_le_gt_dec d b) as [L|G]; [exact L|]. exfalso.
    destruct (Z_lt_le_dec b 0).
    + rewrite (Z.pow_neg_r 2 b) in H2 by lia. lia.
    + assert (2 ^ b <= 2 ^ (d - 1)) by (apply Z.pow_le_mono_r; lia). lia.
Qed.

Section RoundNear.

Variables prec emax : Z.
Hypothesis prec_pos : 0 < prec.

Lemma binary_round_aux_near p ex lx N D :
  0 < D -> Zpos p * D <= N < (Zpos p + 1) * D ->
  shr_record_of_loc (Zpos p) lx = rec_of N D ->
  let n := Zpos (digits2_pos p) - prec in
  0 <= n -> emin prec emax <= ex + n -> ex + n + 1 <= emax - prec ->
  exists m e,
    binary_round_aux prec emax false (Zpos p) ex lx = S754_finite false m e /\
    2 ^ (prec - 1) <= Zpos m < 2 ^ prec /\
    ex + n <= e <= ex + n + 1 /\
    near (1 / inject_Z (2 ^ prec)) (inject_Z N / inject_Z D * 2 ^ ex)
         (inject_Z (Zpos m) * 2 ^ e).
Proof.
  intros HD HN Hl n Hn He Ho.
  destruct (binary_round_aux_rel prec emax prec_pos false p ex lx N D HD HN Hl Hn He Ho)
    as (m & e & m2 & E & Hm & Hc & Hr).
  fold n in Hc, Hr.
  exists m, e. split; [exact E|]. split; [exact Hm|]. split; [lia|].
  pose proof (digits2_pos_bounds p) as [B1 B2].
  assert (Pn : 0 < 2 ^ n) by (apply Z.pow_pos_nonneg; lia).
  assert (Pp : 0 < 2 ^ (prec - 1)) by (apply Z.pow_pos_nonneg; lia).
  assert (P2 : 2 ^ prec = 2 * 2 ^ (prec - 1)).
  { rewrite <- Z.pow_succ_r by lia. f_equal. lia. }
  assert (B1' : 2 ^ n * 2 ^ (prec - 1) <= Zpos p).
  { rewrite <- Z.pow_add_r by lia.
    replace (n + (prec - 1)) with (Zpos (digits2_pos p) - 1) by (unfold n; lia).
    exact B1. }
  assert (V : (inject_Z (m2 * 2 ^ n) * 2 ^ ex == inject_Z (Zpos m) * 2 ^ e)%Q).
  { rewrite inject_Z_mult, pow2_inject by exact Hn.
    destruct Hc as [[-> ->]|[-> ->]].
    - rewrite pow2_add. ring.
    - rewrite !pow2_add, inject_Z_mult. change (inject_Z 2) with (2 ^ 1)%Q. ring. }
  apply (near_ext _ _ _ _ _ (Qeq_refl _) V).
  apply near_of_int; [exact HD|apply Z.pow_pos_nonneg; lia|apply pow2_pos| |].
  - remember (2 ^ n) as P eqn:EP. remember (2 ^ (prec - 1)) as Th eqn:ETh.
    rewrite P2. nia.
  - remember (2 ^ n) as P eqn:EP. remember (2 ^ (prec - 1)) as Th eqn:ETh.
    rewrite P2. nia.
Qed.

End RoundNear.

Lemma iter_xO_value p k : Zpos (Pos.iter xO p k) = Zpos p * 2 ^ Zpos k.
Proof.
  induction k as [|k IH] using Pos.peano_ind.
  - cbn [Pos.iter]. rewrite Pos2Z.inj_xO. change (2 ^ 1) with 2. lia.
  - rewrite Pos.iter_succ, Pos2Z.inj_xO, IH, Pos2Z.inj_succ, Z.pow_succ_r by lia. lia.
Qed.

Lemma exact_loc p : shr_record_of_loc (Zpos p) loc_Exact = rec_of (Zpos p * 1 + 0) 1.
Proof. exact (rec_of_loc_of_rem (Zpos p) 0 1 ltac:(lia) ltac:(lia)). Qed.

Lemma b32_of_int_near z :
  0 < z < 2 ^ 32 ->
  exists m e,
    B32.of_int z = S754_finite false m e /\
    2 ^ 23 <= Zpos m < 2 ^ 24 /\ -23 <= e <= 9 /\
    near b32_u (inject_Z z) (inject_Z (Zpos m) * 2 ^ e).
Proof.
  intros Hz. destruct z as [|p|p]; try lia.
  unfold B32.of_int, binary_normalize, binary_round, shl_align.
  pose proof (digits2_pos_bounds p) as [B1 B2].
  pose proof (digits2_pos_range p 0 32 ltac:(change (2 ^ 0) with 1; lia)) as Hd.
  remember (Zpos (digits2_pos p)) as d eqn:Ed.
  assert (Hf : fexp B32.prec B32.emax (d + 0) = d - 24).
  { unfold fexp, emin, B32.prec, B32.emax. lia. }
  rewrite Hf.
  destruct (d - 24 - 0) as [|k|k] eqn:Ek.
  - destruct (binary_round_aux_near 24 128 ltac:(lia) p 0 loc_Exact (Zpos p * 1 + 0) 1
                ltac:(lia) ltac:(lia) (exact_loc p))
      as (m & e & E & Hm & He & Hn);
      try (rewrite <- Ed; unfold emin; lia).
    rewrite <- Ed in He. exists m, e. split; [exact E|]. split; [exact Hm|].
    split; [lia|].
    revert Hn. apply near_ext; [|reflexivity].
    rewrite Z.mul_1_r, Z.add_0_r. change (2 ^ 0)%Q with 1%Q. change (inject_Z 1) with 1%Q.
    field.
  - destruct (binary_round_aux_near 24 128 ltac:(lia) p 0 loc_Exact (Zpos p * 1 + 0) 1
                ltac:(lia) ltac:(lia) (exact_loc p))
      as (m & e & E & Hm & He & Hn);
      try (rewrite <- Ed; unfold emin; lia).
    rewrite <- Ed in He. exists m, e. split; [exact E|]. split; [exact Hm|].
    split; [lia|].
    revert Hn. apply near_ext; [|reflexivity].
    rewrite Z.mul_1_r, Z.add_0_r. change (2 ^ 0)%Q with 1%Q. change (inject_Z 1) with 1%Q.
    field.
  - assert (Hk : Zpos k = 24 - d) by lia.
    assert (Pk : 0 < 2 ^ Zpos k) by (apply Z.pow_pos_nonneg; lia).
    assert (Dg : Zpos (digits2_pos (Pos.iter xO p k)) = 24).
    { apply digits2_pos_unique. rewrite iter_xO_value.
      replace (2 ^ (24 - 1)) with (2 ^ (d - 1) * 2 ^ Zpos k)
        by (rewrite <- Z.pow_add_r by lia; f_equal; lia).
      replace (2 ^ 24) with (2 ^ d * 2 ^ Zpos k)
        by (rewrite <- Z.pow_add_r by lia; f_equal; lia).
      nia. }
    destruct (binary_round_aux_near 24 128 ltac:(lia) (Pos.iter xO p k) (d - 24) loc_Exact
                (Zpos (Pos.iter xO p k) * 1 + 0) 1
                ltac:(lia) ltac:(lia) (exact_loc _))
      as (m & e & E & Hm & He & Hn);
      try (rewrite Dg; unfold emin; lia).
    rewrite Dg in He. exists m, e. split; [exact E|]. split; [exact Hm|].
    split; [lia|].
    revert Hn. apply near_ext; [|reflexivity].
    rewrite Z.mul_1_r, Z.add_0_r, iter_xO_value, inject_Z_mult, pow2_inject by lia.
    change (inject_Z 1) with 1%Q.
    assert (X : (2 ^ Zpos k * 2 ^ (d - 24) == 1)%Q).
    { rewrite <- pow2_add. replace (Zpos k + (d - 24)) with 0 by lia. reflexivity. }
    transitivity (inject_Z (Zpos p) * (2 ^ Zpos k * 2 ^ (d - 24)))%Q; [field|].
    rewrite X. ring.
Qed.

Lemma b32_mul_near m1 e1 m2 e2 :
  2 ^ 23 <= Zpos m1 < 2 ^ 24 -> 2 ^ 23 <= Zpos m2 < 2 ^ 24 ->
  -172 <= e1 + e2 <= 79 ->
  exists m e,
    B32.mul (S754_finite false m1 e1) (S754_finite false m2 e2)
    = S754_finite false m e /\
    2 ^ 23 <= Zpos m < 2 ^ 24 /\ e1 + e2 + 23 <= e <= e1 + e2 + 25 /\
    near b32_u ((inject_Z (Zpos m1) * 2 ^ e1) * (inject_Z (Zpos m2) * 2 ^ e2))
         (inject_Z (Zpos m) * 2 ^ e).
Proof.
  intros H1 H2 He.
  unfold B32.mul, SFmul. cbn [xorb].
  assert (Hp : 2 ^ 46 <= Zpos (m1 * m2) < 2 ^ 48).
  { rewrite Pos2Z.inj_mul. change (2 ^ 46) with (2 ^ 23 * 2 ^ 23).
    change (2 ^ 48) with (2 ^ 24 * 2 ^ 24). nia. }
  pose proof (digits2_pos_range (m1 * m2) 46 48 Hp) as Hd.
  destruct (binary_round_aux_near 24 128 ltac:(lia) (m1 * m2)%positive (e1 + e2) loc_Exact
              (Zpos (m1 * m2) * 1 + 0) 1 ltac:(lia) ltac:(lia) (exact_loc _))
    as (m & e & E & Hm & Hr & Hn); try (unfold emin; lia).
  exists m, e. split; [exact E|]. split; [exact Hm|]. split; [lia|].
  revert Hn. apply near_ext; [|reflexivity].
  rewrite Z.mul_1_r, Z.add_0_r, Pos2Z.inj_mul, inject_Z_mult, pow2_add.
  change (inject_Z 1) with 1%Q. field.
Qed.

Lemma b32_div_near m1 e1 m2 e2 :
  2 ^ 23 <= Zpos m1 < 2 ^ 24 -> 2 ^ 23 <= Zpos m2 < 2 ^ 24 ->
  -125 <= e1 - e2 <= 126 ->
  exists m e,
    B32.div (S754_finite false m1 e1) (S754_finite false m2 e2)
    = S754_finite false m e /\
    2 ^ 23 <= Zpos m < 2 ^ 24 /\ e1 - e2 - 24 <= e <= e1 - e2 - 22 /\
    near b32_u ((inject_Z (Zpos m1) * 2 ^ e1) / (inject_Z (Zpos m2) * 2 ^ e2))
         (inject_Z (Zpos m) * 2 ^ e).
Proof.
  intros H1 H2 He.
  unfold B32.div, SFdiv, SFdiv_core_binary. cbn [xorb Zdigits2].
  rewrite (digits2_pos_unique m1 24 H1), (digits2_pos_unique m2 24 H2).
  assert (E1 : Z.min (fexp B32.prec B32.emax (24 + e1 - (24 + e2))) (e1 - e2)
               = e1 - e2 - 24).
  { unfold fexp, emin, B32.prec, B32.emax. lia. }
  rewrite E1. replace (e1 - e2 - (e1 - e2 - 24)) with 24 by lia. cbv iota.
  rewrite Z.shiftl_mul_pow2 by lia.
  pose proof (Z_div_mod (Zpos m1 * 2 ^ 24) (Zpos m2) ltac:(lia)) as Hdm.
  destruct (Z.div_eucl (Zpos m1 * 2 ^ 24) (Zpos m2)) as [q r].
  destruct Hdm as [Hq Hr].
  assert (Bq : 2 ^ 23 <= q < 2 ^ 25).
  { change (2 ^ 23) with 8388608 in *. change (2 ^ 24) with 16777216 in *.
    change (2 ^ 25) with 33554432. nia. }
  destruct q as [|q|q]; try lia.
  pose proof (digits2_pos_range q 23 25 Bq) as Hd.
  destruct (binary_round_aux_near 24 128 ltac:(lia) q (e1 - e2 - 24)
              (new_location (Zpos m2) r) (Zpos q * Zpos m2 + r) (Zpos m2)
              ltac:(lia) ltac:(nia)
              (rec_of_new_location (Zpos q) r (Zpos m2) ltac:(lia) Hr))
    as (m & e & E & Hm & Hre & Hn); try (unfold emin; lia).
  exists m, e. split; [exact E|]. split; [exact Hm|]. split; [lia|].
  revert Hn. apply near_ext; [|reflexivity].
  replace (Zpos q * Zpos m2 + r) with (Zpos m1 * 2 ^ 24) by lia.
  rewrite inject_Z_mult, pow2_inject by lia.
  assert (X : (2 ^ e1 == 2 ^ (e1 - e2 - 24) * 2 ^ e2 * 2 ^ 24)%Q).
  { rewrite <- !pow2_add. replace (e1 - e2 - 24 + e2 + 24) with e1 by lia. reflexivity. }
  rewrite X.
  pose proof (pow2_pos e2) as P2. pose proof (inject_Z_pos_lt (Zpos m2) ltac:(lia)) as Pm.
  field. split; intro Z0; [rewrite Z0 in P2|rewrite Z0 in Pm]; discriminate.
Qed.

Local Open Scope Q_scope.

Lemma near_within u X v : near u X v -> within (1 - u) (1 + u) X v.
Proof. exact (fun H => H). Qed.

Lemma within_exact X : within 1 1 X X.
Proof. unfold within. split; rewrite Qmult_1_r; apply Qle_refl. Qed.

Lemma within_ext L U X v X' v' :
  X == X' -> v == v' -> within L U X v -> within L U X' v'.
Proof. unfold within. intros E1 E2 [A B]. rewrite <- E1, <- E2. split; assumption. Qed.

Lemma within_round u L U X v w :
  0 < X -> 0 < L -> 0 <= u -> u <= 1 ->
  within L U X v -> near u v w ->
  within (L * (1 - u)) (U * (1 + u)) X w.
Proof.
  unfold within, near. intros HX HL Hu0 Hu1 [A B] [C D].
  assert (0 < X * L) by nra.
  split; nra.
Qed.

Lemma within_div L1 U1 X1 v1 L2 U2 X2 v2 :
  0 < X1 -> 0 < X2 -> 0 < L1 -> 0 < L2 ->
  within L1 U1 X1 v1 -> within L2 U2 X2 v2 ->
  within (L1 / U2) (U1 / L2) (X1 / X2) (v1 / v2).
Proof.
  unfold within. intros HX1 HX2 HL1 HL2 [A1 B1] [A2 B2].
  assert (P1 : 0 < X1 * L1) by nra.
  assert (P2 : 0 < X2 * L2) by nra.
  assert (Pv2 : 0 < v2) by nra.
  assert (PU2 : 0 < X2 * U2) by nra.
  assert (PU2' : 0 < U2) by nra.
  assert (N1 : ~ X2 == 0) by (intro Z; rewrite Z in HX2; discriminate).
  assert (N2 : ~ U2 == 0) by (intro Z; rewrite Z in PU2'; discriminate).
  assert (N3 : ~ L2 == 0) by (intro Z; rewrite Z in HL2; discriminate).
  assert (N4 : ~ v2 == 0) by (intro Z; rewrite Z in Pv2; discriminate).
  split.
  - apply Qle_shift_div_l; [exact Pv2|].
    apply Qmult_le_r with (z := X2 * U2); [exact PU2|].
    assert (E : X1 / X2 * (L1 / U2) * v2 * (X2 * U2) == (X1 * L1) * v2) by (field; split; assumption).
    rewrite E. nra.
  - apply Qle_shift_div_r; [exact Pv2|].
    apply Qmult_le_r with (z := X2 * L2); [exact P2|].
    assert (E : X1 / X2 * (U1 / L2) * v2 * (X2 * L2) == (X1 * U1) * v2) by (field; split; assumption).
    rewrite E. nra.
Qed.

Lemma within_mul L1 U1 X1 v1 L2 U2 X2 v2 :
  0 < X1 -> 0 < X2 -> 0 < L1 -> 0 < L2 ->
  within L1 U1 X1 v1 -> within L2 U2 X2 v2 ->
  within (L1 * L2) (U1 * U2) (X1 * X2) (v1 * v2).
Proof.
  unfold within. intros HX1 HX2 HL1 HL2 [A1 B1] [A2 B2].
  assert (P1 : 0 < X1 * L1) by nra.
  assert (P2 : 0 < X2 * L2) by nra.
  split; nra.
Qed.

Lemma within_pos L U X v : 0 < X -> 0 < L -> within L U X v -> 0 < v.
Proof. unfold within. intros HX HL [A _]. nra. Qed.

Lemma within_weaken L U L' U' X v :
  0 < X -> L' <= L -> U <= U' -> within L U X v -> within L' U' X v.
Proof. unfold within. intros HX HL HU [A B]. split; nra. Qed.

Ltac qclosed := unfold Qlt, Qle; vm_compute; (reflexivity || discriminate).

Ltac step_div H1 H2 H :=
  lazymatch type of H1 with
  | within ?L1 ?U1 ?X1 ?v1 =>
      lazymatch type of H2 with
      | within ?L2 ?U2 ?X2 ?v2 =>
          assert (H : within (L1 / U2) (U1 / L2) (X1 / X2) (v1 / v2))
            by (apply within_div; [ .. | exact H1 | exact H2];
                first [assumption | qclosed])
      end
  end.

Ltac step_mul H1 H2 H :=
  lazymatch type of H1 with
  | within ?L1 ?U1 ?X1 ?v1 =>
      lazymatch type of H2 with
      | within ?L2 ?U2 ?X2 ?v2 =>
          assert (H : within (L1 * L2) (U1 * U2) (X1 * X2) (v1 * v2))
            by (apply within_mul; [ .. | exact H1 | exact H2];
                first [assumption | qclosed])
      end
  end.

Ltac step_round H N R :=
  lazymatch type of H with
  | within ?L ?U ?X ?v =>
      lazymatch type of N with
      | near ?u v ?w =>
          assert (R : within (L * (1 - u)) (U * (1 + u)) X w)
            by (apply (within_round u L U X v w); [ .. | exact H | exact N];
                first [assumption | qclosed])
      end
  end.

Lemma rpm_expr_within p ppr :
  (0 < p < 2 ^ 32)%Z -> (0 < ppr < 2 ^ 32)%Z ->
  exists m e,
    B32.mul (B32.of_int 60)
      (B32.div (B32.div (B32.of_int 1) (B32.div (B32.of_int p) (B32.of_int 1000000)))
         (B32.of_int ppr))
    = S754_finite false m e /\
    within (1 - rpm_tol) (1 + rpm_tol) (rpm_formula p ppr) (inject_Z (Zpos m) * 2 ^ e).
Proof.
  intros Hp Hr.
  destruct (b32_of_int_near p Hp) as (ma & ea & Ea & Hma & Hea & Na).
  destruct (b32_of_int_near ppr Hr) as (me & ee & Ee & Hme & Hee & Ne).
  rewrite Ea, Ee.
  change (B32.of_int 1000000) with (S754_finite false 16000000 (-4)).
  change (B32.of_int 1) with (S754_finite false 8388608 (-23)).
  change (B32.of_int 60) with (S754_finite false 15728640 (-18)).
  destruct (b32_div_near ma ea 16000000 (-4) Hma ltac:(lia) ltac:(lia))
    as (mb & eb & Eb & Hmb & Heb & Nb).
  rewrite Eb.
  destruct (b32_div_near 8388608 (-23) mb eb ltac:(lia) Hmb ltac:(lia))
    as (mc & ec & Ec & Hmc & Hec & Nc).
  rewrite Ec.
  destruct (b32_div_near mc ec me ee Hmc Hme ltac:(lia))
    as (mf & ef & Ef & Hmf & Hef & Nf).
  rewrite Ef.
  destruct (b32_mul_near 15728640 (-18) mf ef ltac:(lia) Hmf ltac:(lia))
    as (mg & eg & Eg & Hmg & Heg & Ng).
  exists mg, eg. split; [exact Eg|].
  assert (Pp : 0 < inject_Z p) by (apply inject_Z_pos_lt; lia).
  assert (Pr : 0 < inject_Z ppr) by (apply inject_Z_pos_lt; lia).
  assert (U0 : 0 <= b32_u) by qclosed.
  assert (U1 : b32_u <= 1) by qclosed.
  assert (W6 : within 1 1 1000000 (inject_Z 16000000 * 2 ^ (-4))).
  { apply (within_ext 1 1 1000000 1000000); [reflexivity|qclosed|apply within_exact]. }
  assert (W1 : within 1 1 1 (inject_Z 8388608 * 2 ^ (-23))).
  { apply (within_ext 1 1 1 1); [reflexivity|qclosed|apply within_exact]. }
  assert (W60 : within 1 1 60 (inject_Z 15728640 * 2 ^ (-18))).
  { apply (within_ext 1 1 60 60); [reflexivity|qclosed|apply within_exact]. }
  assert (Xb : 0 < inject_Z p / 1000000).
  { apply Qlt_shift_div_l; [reflexivity|]. rewrite Qmult_0_l. exact Pp. }
  assert (Xc : 0 < 1 / (inject_Z p / 1000000)).
  { apply Qlt_shift_div_l; [exact Xb|]. rewrite Qmult_0_l. reflexivity. }
  assert (Xf : 0 < 1 / (inject_Z p / 1000000) / inject_Z ppr).
  { apply Qlt_shift_div_l; [exact Pr|]. rewrite Qmult_0_l. exact Xc. }
  assert (Xg : 0 < 60 * (1 / (inject_Z p / 1000000) / inject_Z ppr)) by nra.
  apply near_within in Na, Ne.
  step_div Na W6 Wb0. step_round Wb0 Nb Wb.
  step_div W1 Wb Wc0. step_round Wc0 Nc Wc.
  step_div Wc Ne Wf0. step_round Wf0 Nf Wf.
  step_mul W60 Wf Wg0. step_round Wg0 Ng Wg.
  assert (EX : 60 * (1 / (inject_Z p / 1000000) / inject_Z ppr) == rpm_formula p ppr).
  { unfold rpm_formula. field. repeat split.
    - intro Z0; rewrite Z0 in Pr; discriminate.
    - intro Z0; rewrite Z0 in Pp; discriminate. }
  apply (within_ext _ _ _ _ _ _ EX (Qeq_refl _)).
  revert Wg. apply within_weaken; [exact Xg|qclosed|qclosed].
Qed.

Lemma within_abs t X v :
  0 < X -> within (1 - t) (1 + t) X v -> Qabs (v - X) <= X * t.
Proof.
  unfold within. intros HX [A B]. apply Qabs_Qle_condition. split; lra.
Qed.

Local Close Scope Q_scope.

(** ** RPM *)

(** C6. In single precision [compute_rpm] returns +0.0 when the period is 0
    and when the pulses per revolution are 0. Otherwise the test on
    [period_s] never fires and the result is 60 * ((1 / (period / 10^6)) /
    ppr) with each operation rounded to single precision. For a period and
    a pulse count in the range of [uint32_t] that is a positive finite
    number within a relative error of [2^-21] of the quotient
    60 / (period / 10^6 * ppr) over the rationals. For a period of 10000
    microseconds at 2 pulses per revolution the result is exactly 3000.0. *)
Theorem compute_rpm_spec :
  forall (s : TachSnapshot) (env : Env) (d : Dev),
    let p := snap_last_period_us s in
    let ppr := PULSES_PER_REV d in
    ((p = 0 \/ ppr = 0) ->
       compute_rpm (F := spec_float) s env d = (S754_zero false, d, [])) /\
    (0 < p -> ppr <> 0 ->
       compute_rpm (F := spec_float) s env d =
         (fmul (of_int 60)
            (fdiv (fdiv (of_int 1) (fdiv (of_int p) (of_int 1000000))) (of_int ppr)),
          d, [])) /\
    (0 < p < 2 ^ 32 -> 0 < ppr < 2 ^ 32 ->
       exists m e,
         compute_rpm (F := spec_float) s env d = (S754_finite false m e, d, []) /\
         (Qabs (SF2Q (S754_finite false m e) - rpm_formula p ppr)
          <= rpm_formula p ppr * rpm_tol)%Q) /\
    (p = 10000 -> ppr = 2 ->
       compute_rpm (F := spec_float) s env d = (B32.of_int 3000, d, [])).
Proof.
  intros s env d p ppr.
  assert (G : 0 < p -> ppr <> 0 ->
              compute_rpm (F := spec_float) s env d =
                (fmul (of_int 60)
                   (fdiv (fdiv (of_int 1) (fdiv (of_int p) (of_int 1000000)))
                      (of_int ppr)), d, [])).
  { intros Hp Hr. unfold compute_rpm, bind, get, ret. fold p ppr.
    replace ((p =? 0) || (ppr =? 0)) with false.
    2:{ symmetry. apply orb_false_iff. split; apply Z.eqb_neq; lia. }
    rewrite (period_s_not_le_zero p Hp). reflexivity. }
  split; [|split; [exact G|split]].
  - intros H. unfold compute_rpm, bind, get, ret. fold p ppr.
    replace ((p =? 0) || (ppr =? 0)) with true; [reflexivity|].
    symmetry. apply orb_true_iff. destruct H as [-> | ->]; auto.
  - intros Hp Hr. rewrite G by lia.
    destruct (rpm_expr_within p ppr Hp Hr) as (m & e & E & W).
    exists m, e. split.
    + f_equal. f_equal. exact E.
    + apply within_abs; [|exact W].
      unfold rpm_formula.
      assert (Pp : (0 < inject_Z p)%Q) by (apply inject_Z_pos_lt; lia).
      assert (Pr : (0 < inject_Z ppr)%Q) by (apply inject_Z_pos_lt; lia).
      assert (Pb : (0 < inject_Z p / 1000000)%Q).
      { apply Qlt_shift_div_l; [reflexivity|]. rewrite Qmult_0_l. exact Pp. }
      apply Qlt_shift_div_l; [nra|]. rewrite Qmult_0_l. reflexivity.
  - intros Hp Hr. unfold compute_rpm, bind, get, ret. fold p ppr.
    rewrite Hp, Hr. vm_compute. reflexivity.
Qed.

Lemma compute_rpm_spec_witness :
  let s := {| snap_pulses_total := 12; snap_last_period_us := 3 |} in
  let d := set_PULSES_PER_REV 7 (power_on []) in
  let env := mkEnv 0 0 None 0 in
  0 < snap_last_period_us s < 2 ^ 32 /\ 0 < PULSES_PER_REV d < 2 ^ 32 /\
  exists m e,
    compute_rpm (F := spec_float) s env d = (S754_finite false m e, d, []) /\
    (Qabs (SF2Q (S754_finite false m e) - rpm_formula 3 7)
     <= rpm_formula 3 7 * rpm_tol)%Q.
Proof.
  intros s d env.
  assert (H1 : 0 < snap_last_period_us s < 2 ^ 32) by (simpl; lia).
  assert (H2 : 0 < PULSES_PER_REV d < 2 ^ 32) by (simpl; lia).
  split; [exact H1|]. split; [exact H2|].
  exact (proj1 (proj2 (proj2 (compute_rpm_spec s env d))) H1 H2).
Defined.

(** C6, where the claim fails: at a period of 3 microseconds and 7 pulses
    per revolution the result is 2857142.5, which is not the quotient
    20000000 / 7, and not the single precision number nearest to it either:
    2857142.75 is closer. *)
Lemma compute_rpm_is_not_the_quotient :
  value_of (compute_rpm (F := spec_float)
              {| snap_pulses_total := 0; snap_last_period_us := 3 |}
              (mkEnv 0 0 None 0) (set_PULSES_PER_REV 7 (power_on [])))
  = S754_finite false 11428570 (-2) /\
  ~ (SF2Q (S754_finite false 11428570 (-2)) == rpm_formula 3 7)%Q /\
  (Qabs (SF2Q (S754_finite false 11428571 (-2)) - rpm_formula 3 7)
   < Qabs (SF2Q (S754_finite false 11428570 (-2)) - rpm_formula 3 7))%Q.
Proof.
  split; [vm_compute; reflexivity|]. split.
  - vm_compute. discriminate.
  - vm_compute. reflexivity.
Qed.

(** ** Tokens and dispatch *)

Lemma strtok_none s delim :
  Libc.skip_delims delim s = EmptyString -> Libc.strtok s delim = (None, EmptyString).
Proof. unfold Libc.strtok. intros ->. reflexivity. Qed.

Lemma break_token_no_delim s :
  Libc.break_token EmptyString s = (s, EmptyString).
Proof.
  induction s as [|c r IH]; [reflexivity|].
  cbn [Libc.break_token Libc.strchr]. rewrite IH. reflexivity.
Qed.

(** [strtok(nullptr, "")] followed by [args ? args : ""] yields the rest of
    the line as it is. *)
Lemma strtok_rest s :
  or_empty (fst (Libc.strtok s EmptyString)) = s.
Proof.
  unfold Libc.strtok. destruct s as [|c r]; [reflexivity|].
  cbn [Libc.skip_delims Libc.strchr]. rewrite break_token_no_delim. reflexivity.
Qed.

Lemma trim_crlf_cons c r :
  trim_crlf r = r -> (Libc.code c =? 13) || (Libc.code c =? 10) = false ->
  trim_crlf (String c r) = String c r.
Proof.
  intros Hr Hc. cbn [trim_crlf]. rewrite Hr, Hc. destruct r; reflexivity.
Qed.

(** A line [SETCAL args] with no CR or LF at its end reaches [cmd_setcal]
    with [args] as it is. *)
Lemma handle_line_setcal atof args env d :
  trim_crlf args = args ->
  handle_line atof ("SETCAL " ++ args) env d = cmd_setcal atof args env d.
Proof.
  intros H. unfold handle_line.
  assert (E1 : trim_crlf ("SETCAL " ++ args) = ("SETCAL " ++ args)%string).
  { cbn [append]. repeat (apply trim_crlf_cons; [|reflexivity]). exact H. }
  assert (E2 : skip_blanks ("SETCAL " ++ args) = ("SETCAL " ++ args)%string)
    by reflexivity.
  assert (E3 : Libc.strtok ("SETCAL " ++ args) blank_tab = (Some "SETCAL"%string, args))
    by reflexivity.
  rewrite E1, E2, E3.
  pose proof (strtok_rest args) as R.
  destruct (Libc.strtok args EmptyString) as [a r]. cbn [fst] in R.
  cbn [append].
  repeat match goal with
         | |- context [streqi ?a ?b] =>
             let v := eval vm_compute in (streqi a b) in
             change (streqi a b) with v
         end.
  cbv iota. rewrite R. reflexivity.
Qed.

(** ** Acquisition and TARE *)

(** The polling loop ends within its fuel, with [true] exactly when the
    converter is ready no later than 201 ms after the call, and with the
    time it has waited. *)
Lemma hx_poll_ready_after t : forall fuel elapsed,
  0 <= elapsed <= 202 -> (Z.to_nat (203 - elapsed) <= fuel)%nat ->
  hx_poll fuel elapsed (Some t)
  = Some ((t <=? elapsed) || (t <=? 201),
          if t <=? elapsed then elapsed
          else if t <=? 201 then t else Z.max elapsed 201).
Proof.
  induction fuel as [|fuel IH]; intros elapsed He Hf; [lia|].
  cbn [hx_poll]. destruct (Z.leb_spec t elapsed) as [L|L]; [reflexivity|].
  unfold HX711_READ_TIMEOUT_MS. cbn [orb].
  destruct (Z.gtb_spec elapsed 200) as [G|G].
  - destruct (Z.leb_spec t 201); [lia|]. f_equal. f_equal. lia.
  - rewrite IH by lia.
    destruct (Z.leb_spec t (elapsed + 1)), (Z.leb_spec t 201);
      cbn [orb]; f_equal; f_equal; lia.
Qed.

Lemma hx_poll_total t : hx_poll 203 0 t <> None.
Proof.
  destruct t as [t|]; [|vm_compute; discriminate].
  rewrite hx_poll_ready_after by (simpl; lia). discriminate.
Qed.

Lemma hx_read_blocking_spec env d :
  hx_read_blocking env d =
    (match env_hx_ready_after env with
     | Some t => if t <=? 201 then Some (s32 (env_hx_value env)) else None
     | None => None
     end, d, []).
Proof.
  unfold hx_read_blocking, bind, ask, ret.
  destruct (env_hx_ready_after env) as [t|].
  - rewrite hx_poll_ready_after by (simpl; lia).
    replace (t <=? 0) with ((t <=? 0) && (t <=? 201)).
    2:{ destruct (Z.leb_spec t 0); [|reflexivity]. cbn [andb]. apply Z.leb_le. lia. }
    destruct (t <=? 0), (t <=? 201); reflexivity.
  - reflexivity.
Qed.


Lemma hx_read_blocking_pure env d :
  hx_read_blocking env d = (value_of (hx_read_blocking env d), d, []).
Proof. rewrite hx_read_blocking_spec. reflexivity. Qed.

(** C8. The polling loop ends within its fuel, with a sample exactly when
    the converter is ready within the timeout. When it yields a sample [raw], [TARE] answers
    [OK TARE], the live tare is [raw], the live slope is what it was, and
    the state is the one [save] of (slope, raw) leaves, from which [load]
    returns that pair. When it times out the answer is [ERR 20] and the
    whole state, store included, is unchanged. *)
Theorem cmd_tare_effect :
  forall (env : Env) (d : Dev),
    hx_poll 203 0 (env_hx_ready_after env) <> None /\
    value_of (hx_read_blocking env d) =
      match env_hx_ready_after env with
      | Some t => if t <=? 201 then Some (s32 (env_hx_value env)) else None
      | None => None
      end /\
    match value_of (hx_read_blocking env d) with
    | Some raw =>
        let d' := state_of (cmd_tare env d) in
        output_of (cmd_tare env d) = [OK_TARE] /\
        tare_offset d' = raw /\
        g_per_count d' = g_per_count d /\
        d' = state_of (saveCalibrationToEEPROM (g_per_count d) raw env
                         (set_tare_offset raw d)) /\
        (forall s0 t0 env',
            is_u32 (g_per_count d) ->
            value_of (loadCalibrationFromEEPROM s0 t0 env' d') = (true, g_per_count d, raw))
    | None =>
        cmd_tare env d = (tt, d, [ERR 20 "HX711_timeout"])
    end.
Proof.
  intros env d. split; [apply hx_poll_total|].
  split; [rewrite hx_read_blocking_spec; reflexivity|].
  unfold cmd_tare, bind. rewrite hx_read_blocking_pure.
  assert (Hr : value_of (hx_read_blocking env d) = None \/
               exists v, value_of (hx_read_blocking env d) = Some (s32 v)).
  { rewrite hx_read_blocking_spec. unfold value_of. cbn [fst].
    destruct (env_hx_ready_after env) as [t|]; [|left; reflexivity].
    destruct (t <=? 201); [right; eauto|left; reflexivity]. }
  destruct Hr as [-> | [v ->]]; [reflexivity|].
  split; [reflexivity|]. split; [reflexivity|]. split; [reflexivity|].
  split; [reflexivity|].
  intros s0 t0 env' Hs.
  change (state_of _) with
    (state_of (saveCalibrationToEEPROM (g_per_count d) (s32 v) env (set_tare_offset (s32 v) d))).
  rewrite load_after_save, u32_small by exact Hs.
  unfold value_of; cbn [fst]. rewrite s32_small by apply s32_range. reflexivity.
Qed.

Lemma cmd_tare_effect_witness :
  let env := mkEnv 0 0 (Some 3) 1234 in
  let d := power_on [] in
  is_u32 (g_per_count d) /\
  value_of (loadCalibrationFromEEPROM 0 0 env (state_of (cmd_tare env d)))
  = (true, g_per_count d, 1234).
Proof.
  intros env d.
  assert (H : is_u32 (g_per_count d)) by (unfold is_u32, d, power_on, lit_0_0020f; cbn [g_per_count]; lia).
  split; [exact H|].
  pose proof (proj2 (proj2 (cmd_tare_effect env d))) as G.
  change (value_of (hx_read_blocking env d)) with (Some 1234) in G.
  destruct G as (_ & _ & _ & _ & G).
  exact (G 0 0 env H).
Defined.

(** ** Argument errors *)

(** C7. [SETTIME], [SETCAL] and [SETPPR] called with nothing but blanks as
    arguments answer [ERR 30], [ERR 31] and [ERR 32]; [SETPPR] with an
    argument that converts to 0 answers [ERR 33]; in each case the state
    after the call is the state before it. The same for the four lines as
    [handle_line] receives them. *)
Theorem argument_errors_leave_state :
  forall (atof : string -> Z) (env : Env) (d : Dev),
    (forall args, Libc.skip_delims blank_tab args = EmptyString ->
       cmd_settime args env d = (tt, d, [ERR 30 "missing_unix_ms"]) /\
       cmd_setcal atof args env d = (tt, d, [ERR 31 "missing_args"]) /\
       cmd_setppr args env d = (tt, d, [ERR 32 "missing_ppr"])) /\
    (forall args tok, fst (Libc.strtok args blank_tab) = Some tok ->
       Libc.strtoul tok = 0 ->
       cmd_setppr args env d = (tt, d, [ERR 33 "invalid_ppr"])) /\
    handle_line atof "SETTIME" env d = (tt, d, [ERR 30 "missing_unix_ms"]) /\
    handle_line atof "SETCAL" env d = (tt, d, [ERR 31 "missing_args"]) /\
    handle_line atof "SETPPR" env d = (tt, d, [ERR 32 "missing_ppr"]) /\
    handle_line atof "SETPPR 0" env d = (tt, d, [ERR 33 "invalid_ppr"]).
Proof.
  intros atof env d. split.
  { intros args H. unfold cmd_settime, cmd_setcal, cmd_setppr.
    rewrite (strtok_none _ _ H). cbn [fst].
    repeat split. }
  split.
  { intros args tok H H0. unfold cmd_setppr. rewrite H, H0. reflexivity. }
  repeat split.
Qed.

Lemma argument_errors_leave_state_witness :
  let env := mkEnv 5 5 None 0 in
  let d := power_on [] in
  Libc.skip_delims blank_tab "  " = EmptyString /\
  fst (Libc.strtok " 000" blank_tab) = Some "000"%string /\
  Libc.strtoul "000" = 0 /\
  cmd_settime "  " env d = (tt, d, [ERR 30 "missing_unix_ms"]) /\
  cmd_setppr " 000" env d = (tt, d, [ERR 33 "invalid_ppr"]).
Proof.
  intros env d.
  assert (H1 : Libc.skip_delims blank_tab "  " = EmptyString) by reflexivity.
  assert (H2 : fst (Libc.strtok " 000" blank_tab) = Some "000"%string) by reflexivity.
  assert (H3 : Libc.strtoul "000" = 0) by reflexivity.
  split; [exact H1|]. split; [exact H2|]. split; [exact H3|].
  destruct (argument_errors_leave_state DecimalAtof.atof env d) as (A & B & _).
  split; [exact (proj1 (A _ H1))|exact (B _ _ H2 H3)].
Defined.

(** ** Time base *)

Lemma cmd_load_ok env d raw :
  value_of (hx_read_blocking env d) = Some raw ->
  cmd_load env d =
    (tt, d,
     [OK_LOAD (fmul (of_int (s32 (raw - tare_offset d))) (B32.of_bits (g_per_count d)))
        raw
        (u64 (epoch_base_ms d + u32 (env_millis env + hx_wait_ms env)))]).
Proof.
  intros H. unfold cmd_load, bind. rewrite hx_read_blocking_pure, H.
  reflexivity.
Qed.

Lemma cmd_load_timeout env d :
  value_of (hx_read_blocking env d) = None ->
  cmd_load env d = (tt, d, [ERR 20 "HX711_timeout"]).
Proof.
  intros H. unfold cmd_load, bind. rewrite hx_read_blocking_pure, H.
  reflexivity.
Qed.




(** ** SETCAL *)

Section Setcal.

Variable atof : string -> Z.

(** ISO C 7.22.1.3: when no conversion can be performed, zero is returned. *)
Hypothesis atof_no_conversion :
  forall s, Libc.no_conversion s = true -> atof s = 0.

Lemma atol_no_conversion s : Libc.no_conversion s = true -> Libc.atol s = 0.
Proof.
  unfold Libc.no_conversion, Libc.atol.
  destruct (Libc.take_sign (Libc.skip_space s)) as [neg r]. cbn [snd].
  destruct r as [|c r]; [destruct neg; reflexivity|].
  intros H. apply negb_true_iff in H.
  apply orb_false_iff in H. destruct H as [H _].
  apply orb_false_iff in H. destruct H as [H _].
  apply orb_false_iff in H. destruct H as [H _].
  apply orb_false_iff in H. destruct H as [H _].
  apply orb_false_iff in H. destruct H as [H _].
  cbn [Libc.digits]. rewrite H. destruct neg; reflexivity.
Qed.

Lemma digits_numeric_prefix ds c rest : forall acc,
  all_digits ds = true -> Libc.isdigit c = false ->
  Libc.digits acc (ds ++ String c rest) = Libc.digits acc ds.
Proof.
  induction ds as [|x r IH]; intros acc Hd Hc.
  - cbn [String.append Libc.digits]. rewrite Hc. reflexivity.
  - cbn [all_digits] in Hd. apply andb_true_iff in Hd. destruct Hd as [Hx Hr].
    cbn [String.append Libc.digits]. rewrite Hx. apply IH; assumption.
Qed.

Lemma isdigit_not_space c : Libc.isdigit c = true -> Libc.isspace c = false.
Proof.
  unfold Libc.isdigit, Libc.isspace. intros H.
  apply andb_true_iff in H. destruct H as [H1 H2].
  apply Z.leb_le in H1. apply Z.leb_le in H2.
  apply orb_false_iff. split; [apply Z.eqb_neq; lia|].
  apply andb_false_iff. right. apply Z.leb_gt. lia.
Qed.

Lemma isdigit_not_sign c :
  Libc.isdigit c = true -> (Libc.code c =? 45) = false /\ (Libc.code c =? 43) = false.
Proof.
  unfold Libc.isdigit. intros H.
  apply andb_true_iff in H. destruct H as [H1 H2].
  apply Z.leb_le in H1. apply Z.leb_le in H2.
  split; apply Z.eqb_neq; lia.
Qed.

(** [atol] converts the decimal integer a token starts with and ignores
    what follows it. *)
Lemma atol_numeric_prefix tok c rest :
  integer_literal tok = true -> Libc.isdigit c = false ->
  Libc.atol (tok ++ String c rest) = Libc.atol tok.
Proof.
  unfold integer_literal. intros Hl Hc.
  destruct tok as [|a r]; [discriminate|].
  unfold Libc.atol. cbn [String.append Libc.skip_space].
  assert (Hsp : Libc.isspace a = false).
  { cbn [Libc.take_sign] in Hl.
    destruct (Z.eqb_spec (Libc.code a) 45) as [E|E].
    - unfold Libc.isspace. rewrite E. reflexivity.
    - destruct (Z.eqb_spec (Libc.code a) 43) as [E'|E'].
      + unfold Libc.isspace. rewrite E'. reflexivity.
      + cbn [snd all_digits] in Hl. apply andb_true_iff in Hl.
        apply isdigit_not_space. exact (proj1 Hl). }
  rewrite Hsp. cbn [Libc.take_sign] in *.
  destruct (Libc.code a =? 45).
  - cbn [snd] in Hl. destruct r as [|x y]; [discriminate|].
    rewrite (digits_numeric_prefix (String x y) c rest 0 Hl Hc). reflexivity.
  - destruct (Libc.code a =? 43).
    + cbn [snd] in Hl. destruct r as [|x y]; [discriminate|].
      rewrite (digits_numeric_prefix (String x y) c rest 0 Hl Hc). reflexivity.
    + cbn [snd] in Hl.
      change (String a (r ++ String c rest)) with (String a r ++ String c rest)%string.
      rewrite (digits_numeric_prefix (String a r) c rest 0 Hl Hc). reflexivity.
Qed.

Lemma atol_no_integer tok : starts_integer tok = false -> Libc.atol tok = 0.
Proof.
  unfold starts_integer, Libc.atol.
  destruct (Libc.take_sign (Libc.skip_space tok)) as [neg r]. cbn [snd].
  destruct r as [|c r]; [destruct neg; reflexivity|].
  intros H. cbn [Libc.digits]. rewrite H. destruct neg; reflexivity.
Qed.

(** C10. With two tokens in its arguments [SETCAL] answers [OK SETCAL],
    makes the converted values the live calibration and saves them, with no
    check on the values; with fewer than two it answers [ERR 31] and changes
    nothing. Every line [SETCAL args] is handled so. A token that does not
    start a number converts to 0, so [SETCAL x y] sets and persists slope
    +0.0 and tare 0. A token that starts with a number converts to that
    number, whatever follows it: [SETCAL x 12abc] sets and persists the
    tare 12. *)
Theorem setcal_accepts_any_two_tokens :
  forall (env : Env) (d : Dev),
    (forall args a b save,
        Libc.strtok args blank_tab = (Some a, save) ->
        fst (Libc.strtok save blank_tab) = Some b ->
        let d' := state_of (cmd_setcal atof args env d) in
        output_of (cmd_setcal atof args env d) = [OK_SETCAL] /\
        g_per_count d' = atof a /\ tare_offset d' = Libc.atol b /\
        d' = state_of (saveCalibrationToEEPROM (atof a) (Libc.atol b) env
                         (set_tare_offset (Libc.atol b) (set_g_per_count (atof a) d)))) /\
    (forall args,
        fst (Libc.strtok args blank_tab) = None \/
        fst (Libc.strtok (snd (Libc.strtok args blank_tab)) blank_tab) = None ->
        cmd_setcal atof args env d = (tt, d, [ERR 31 "missing_args"])) /\
    (forall args, trim_crlf args = args ->
        handle_line atof ("SETCAL " ++ args) env d = cmd_setcal atof args env d) /\
    (forall tok, Libc.no_conversion tok = true -> atof tok = 0 /\ Libc.atol tok = 0) /\
    (let d' := state_of (handle_line atof "SETCAL x y" env d) in
     output_of (handle_line atof "SETCAL x y" env d) = [OK_SETCAL] /\
     g_per_count d' = 0 /\ B32.of_bits (g_per_count d') = S754_zero false /\
     tare_offset d' = 0 /\
     forall s0 t0 env',
       value_of (loadCalibrationFromEEPROM s0 t0 env' d') = (true, 0, 0)) /\
    (forall tok, starts_integer tok = false -> Libc.atol tok = 0) /\
    (forall tok c rest,
        integer_literal tok = true -> Libc.isdigit c = false ->
        Libc.atol (tok ++ String c rest) = Libc.atol tok) /\
    (let d' := state_of (handle_line atof "SETCAL x 12abc" env d) in
     output_of (handle_line atof "SETCAL x 12abc" env d) = [OK_SETCAL] /\
     g_per_count d' = 0 /\ tare_offset d' = 12 /\
     forall s0 t0 env',
       value_of (loadCalibrationFromEEPROM s0 t0 env' d') = (true, 0, 12)).
Proof.
  intros env d. split.
  { intros args a b save Ha Hb d'. unfold d', cmd_setcal. rewrite Ha.
    destruct (Libc.strtok save blank_tab) as [b' r]. cbn [fst] in Hb. subst b'.
    repeat split. }
  split.
  { intros args H. unfold cmd_setcal.
    destruct (Libc.strtok args blank_tab) as [a save]. cbn [fst snd] in H.
    destruct (Libc.strtok save blank_tab) as [b r]. cbn [fst] in H.
    destruct H as [->| ->]; [reflexivity|]. destruct a; reflexivity. }
  split; [intros args H; apply handle_line_setcal; exact H|].
  split.
  { intros tok H. split; [apply atof_no_conversion|apply atol_no_conversion]; exact H. }
  assert (Hx : atof "x" = 0) by (apply atof_no_conversion; reflexivity).
  split; [|split; [exact atol_no_integer|split; [exact atol_numeric_prefix|]]].
  2:{ intros d'.
      assert (Hd : handle_line atof "SETCAL x 12abc" env d =
                   (tt, state_of (saveCalibrationToEEPROM 0 12 env
                                    (set_tare_offset 12 (set_g_per_count 0 d))),
                    [OK_SETCAL])).
      { change (handle_line atof "SETCAL x 12abc" env d)
          with (handle_line atof ("SETCAL " ++ "x 12abc") env d).
        rewrite (handle_line_setcal atof "x 12abc" env d) by reflexivity.
        unfold cmd_setcal.
        change (Libc.strtok "x 12abc" blank_tab) with (Some "x"%string, "12abc"%string).
        change (Libc.strtok "12abc" blank_tab) with (Some "12abc"%string, EmptyString).
        cbv iota beta. rewrite Hx. reflexivity. }
      set (dS := state_of (saveCalibrationToEEPROM 0 12 env
                              (set_tare_offset 12 (set_g_per_count 0 d)))) in *.
      unfold d'. rewrite Hd.
      change (state_of (tt, dS, [OK_SETCAL])) with dS.
      split; [reflexivity|]. split; [reflexivity|]. split; [reflexivity|].
      intros s0 t0 env'. unfold dS. rewrite load_after_save. reflexivity. }
  intros d'.
  assert (Hd : handle_line atof "SETCAL x y" env d =
               (tt, state_of (saveCalibrationToEEPROM 0 0 env
                                (set_tare_offset 0 (set_g_per_count 0 d))), [OK_SETCAL])).
  { change (handle_line atof "SETCAL x y" env d)
      with (handle_line atof ("SETCAL " ++ "x y") env d).
    rewrite (handle_line_setcal atof "x y" env d) by reflexivity.
    unfold cmd_setcal.
    change (Libc.strtok "x y" blank_tab) with (Some "x"%string, "y"%string).
    change (Libc.strtok "y" blank_tab) with (Some "y"%string, EmptyString).
    cbv iota beta. rewrite Hx. reflexivity. }
  set (dS := state_of (saveCalibrationToEEPROM 0 0 env
                          (set_tare_offset 0 (set_g_per_count 0 d)))) in *.
  unfold d'. rewrite Hd.
  change (state_of (tt, dS, [OK_SETCAL])) with dS.
  split; [reflexivity|]. split; [reflexivity|]. split; [reflexivity|].
  split; [reflexivity|].
  intros s0 t0 env'. unfold dS. rewrite load_after_save. reflexivity.
Qed.

End Setcal.

Lemma decimal_atof_no_conversion s :
  Libc.no_conversion s = true -> DecimalAtof.atof s = 0.
Proof.
  unfold Libc.no_conversion, DecimalAtof.atof.
  destruct (Libc.take_sign (Libc.skip_space s)) as [neg r]. cbn [snd].
  destruct r as [|c r]; [reflexivity|].
  intros H. apply negb_true_iff in H.
  apply orb_false_iff in H. destruct H as [H _].
  apply orb_false_iff in H. destruct H as [H _].
  apply orb_false_iff in H. destruct H as [H _].
  apply orb_false_iff in H. destruct H as [H _].
  apply orb_false_iff in H. destruct H as [Hd Hp].
  cbn [DecimalAtof.span_digits]. rewrite Hd.
  cbn [DecimalAtof.after_point]. rewrite Hp. reflexivity.
Qed.

(** C10, where the claim fails: [12abc] is no number, and [7x] is none
    either, but [SETCAL 7x 12abc] does not set 0 and 0: the tare becomes 12,
    and with a decimal [atof] the slope becomes 7.0. *)
Lemma setcal_keeps_a_numeric_prefix :
  integer_literal "12abc" = false /\ integer_literal "7x" = false /\
  handle_line DecimalAtof.atof "SETCAL 7x 12abc" (mkEnv 0 0 None 0) (power_on [])
  = (tt, state_of (saveCalibrationToEEPROM 0x40E00000 12 (mkEnv 0 0 None 0)
                     (set_tare_offset 12 (set_g_per_count 0x40E00000 (power_on [])))),
     [OK_SETCAL]) /\
  tare_offset (state_of (handle_line DecimalAtof.atof "SETCAL 7x 12abc"
                           (mkEnv 0 0 None 0) (power_on []))) = 12 /\
  g_per_count (state_of (handle_line DecimalAtof.atof "SETCAL 7x 12abc"
                           (mkEnv 0 0 None 0) (power_on []))) = 0x40E00000 /\
  B32.of_bits 0x40E00000 = B32.of_int 7 /\
  ~ (forall tok, integer_literal tok = false -> Libc.atol tok = 0).
Proof.
  assert (E : handle_line DecimalAtof.atof "SETCAL 7x 12abc"
                (mkEnv 0 0 None 0) (power_on [])
              = (tt, state_of (saveCalibrationToEEPROM 0x40E00000 12 (mkEnv 0 0 None 0)
                                 (set_tare_offset 12
                                    (set_g_per_count 0x40E00000 (power_on [])))),
                 [OK_SETCAL])).
  { change (handle_line DecimalAtof.atof "SETCAL 7x 12abc" (mkEnv 0 0 None 0) (power_on []))
      with (handle_line DecimalAtof.atof ("SETCAL " ++ "7x 12abc")
              (mkEnv 0 0 None 0) (power_on [])).
    rewrite (handle_line_setcal DecimalAtof.atof "7x 12abc") by reflexivity.
    unfold cmd_setcal.
    change (Libc.strtok "7x 12abc" blank_tab) with (Some "7x"%string, "12abc"%string).
    change (Libc.strtok "12abc" blank_tab) with (Some "12abc"%string, EmptyString).
    cbv iota beta.
    replace (DecimalAtof.atof "7x") with 0x40E00000 by (vm_compute; reflexivity).
    reflexivity. }
  rewrite E.
  split; [reflexivity|]. split; [reflexivity|]. split; [reflexivity|].
  split; [reflexivity|]. split; [reflexivity|].
  split; [vm_compute; reflexivity|].
  intros H. specialize (H "12abc"%string eq_refl). discriminate H.
Qed.

Lemma setcal_accepts_any_two_tokens_witness :
  let env := mkEnv 0 0 None 0 in
  let d := power_on [] in
  let d' := state_of (cmd_setcal DecimalAtof.atof "0.5 -3" env d) in
  Libc.strtok "0.5 -3" blank_tab = (Some "0.5"%string, "-3"%string) /\
  fst (Libc.strtok "-3" blank_tab) = Some "-3"%string /\
  g_per_count d' = 0x3F000000 /\ tare_offset d' = -3.
Proof.
  intros env d d'.
  assert (H1 : Libc.strtok "0.5 -3" blank_tab = (Some "0.5"%string, "-3"%string))
    by reflexivity.
  assert (H2 : fst (Libc.strtok "-3" blank_tab) = Some "-3"%string) by reflexivity.
  split; [exact H1|]. split; [exact H2|].
  destruct (setcal_accepts_any_two_tokens DecimalAtof.atof decimal_atof_no_conversion env d)
    as (G & _).
  destruct (G _ _ _ _ H1 H2) as (_ & Gs & Gt & _).
  split; [exact Gs|exact Gt].
Defined.

(** ** The line assembler *)

Lemma loop_body_overflow atof c env d :
  Libc.code c <> 13 -> Libc.code c <> 10 ->
  Libc.strlen (linebuf d) = 127 ->
  loop_body atof c env d = (tt, set_linebuf EmptyString d, [ERR 11 "line_too_long"]).
Proof.
  intros H13 H10 Hlen. unfold loop_body.
  apply Z.eqb_neq in H13, H10. rewrite H13, H10.
  unfold bind, get. rewrite Hlen. reflexivity.
Qed.

(** C1, what the code does. 200 bytes without terminator followed by the
    line [PING]: one [ERR 11] at the 128th byte, then the remaining 72
    bytes and [PING] are dispatched together as one unknown command. With
    128 bytes before it, [PING], the tail of the over-long line, is
    dispatched. On an empty buffer the same [PING] line answers [OK PONG]. *)
Theorem overlong_line_tail_is_dispatched :
  forall (atof : string -> Z) (env : Env) (d : Dev),
    let d0 := set_linebuf EmptyString d in
    loop atof (filler 200 "A" ++ "PING" ++ LF) env d0
      = (tt, d0, [ERR 11 "line_too_long"; ERR 10 "unknown_command"]) /\
    loop atof (filler 128 "A" ++ "PING" ++ LF) env d0
      = (tt, d0, [ERR 11 "line_too_long"; OK_PONG]) /\
    loop atof ("PING" ++ LF) env d0 = (tt, d0, [OK_PONG]).
Proof.
  intros atof env d d0. unfold d0.
  split; [|split]; vm_compute; reflexivity.
Qed.

(** * Further properties of the firmware *)

(** ** Further properties: CRC and store *)

(** X1. Changing one byte of a message of any length, at any position,
    changes its CRC; the CRC is a 32 bit value. *)
Theorem crc32_detects_single_byte_change :
  forall (l : list byte) (i : nat) (b : byte),
    (i < List.length l)%nat -> b <> nth i l Byte.xff ->
    crc32_span (poke i b l) <> crc32_span l /\
    is_u32 (crc32_span l) /\ is_u32 (crc32_span (poke i b l)).
Proof.
  intros l i b Hi Hb. split; [|split; apply crc32_span_range].
  intros E. apply Hb. exact (crc32_span_poke i b l Hi E).
Qed.

Lemma crc32_detects_single_byte_change_witness :
  (2 < List.length [Byte.x01; Byte.x02; Byte.x03])%nat /\
  Byte.x00 <> nth 2 [Byte.x01; Byte.x02; Byte.x03] Byte.xff /\
  crc32_span (poke 2 Byte.x00 [Byte.x01; Byte.x02; Byte.x03])
  <> crc32_span [Byte.x01; Byte.x02; Byte.x03].
Proof.
  assert (H1 : (2 < List.length [Byte.x01; Byte.x02; Byte.x03])%nat) by (simpl; lia).
  assert (H2 : Byte.x00 <> nth 2 [Byte.x01; Byte.x02; Byte.x03] Byte.xff)
    by (simpl; discriminate).
  split; [exact H1|]. split; [exact H2|].
  exact (proj1 (crc32_detects_single_byte_change _ 2%nat Byte.x00 H1 H2)).
Defined.

Lemma EEPROM_read_app_r obj tl i :
  (List.length obj <= i)%nat ->
  EEPROM_read (obj ++ tl) i = EEPROM_read tl (i - List.length obj).
Proof. intros H. unfold EEPROM_read. apply app_nth2. lia. Qed.

Lemma EEPROM_read_skipn n e i :
  EEPROM_read (skipn n e) i = EEPROM_read e (n + i).
Proof. unfold EEPROM_read. apply nth_skipn. Qed.

(** X2. [save] rewrites the twenty bytes of the record and nothing else:
    every cell from address 20 on reads as before, the store has the length
    it had (at least twenty), no global changes and nothing is printed. *)
Theorem save_writes_only_the_record :
  forall (sl ta : Z) (env : Env) (d : Dev),
    let r := saveCalibrationToEEPROM sl ta env d in
    let d' := state_of r in
    (forall i, (20 <= i)%nat ->
       EEPROM_read (eeprom d') i = EEPROM_read (eeprom d) i) /\
    List.length (eeprom d') = Nat.max 20 (List.length (eeprom d)) /\
    d' = set_eeprom (eeprom d') d /\
    output_of r = [].
Proof.
  intros sl ta env d r d'. unfold d', r. rewrite save_spec.
  unfold state_of, output_of. cbn [fst snd eeprom set_eeprom].
  split.
  { intros i Hi.
    rewrite EEPROM_read_app_r by (change (List.length _) with 20%nat; exact Hi).
    change (List.length (rec_bytes (saved_record sl ta))) with 20%nat.
    rewrite EEPROM_read_skipn. f_equal. lia. }
  split; [|split; reflexivity].
  rewrite length_app, length_skipn.
  change (List.length (rec_bytes (saved_record sl ta))) with 20%nat. lia.
Qed.

Lemma save_writes_only_the_record_witness :
  let d := set_eeprom (repeat Byte.x07 32) (power_on []) in
  let d' := state_of (saveCalibrationToEEPROM lit_0_0020f 5 (mkEnv 0 0 None 0) d) in
  (20 <= 25)%nat /\ EEPROM_read (eeprom d') 25 = Byte.x07.
Proof.
  intros d d'.
  assert (H : (20 <= 25)%nat) by lia.
  split; [exact H|].
  exact (proj1 (save_writes_only_the_record lit_0_0020f 5 (mkEnv 0 0 None 0) d) 25%nat H).
Defined.

(** X3. The last [save] wins: a save that follows another leaves the state
    the second save alone would leave. *)
Theorem save_after_save :
  forall (sl ta sl' ta' : Z) (env env' : Env) (d : Dev),
    state_of (saveCalibrationToEEPROM sl' ta' env'
                (state_of (saveCalibrationToEEPROM sl ta env d)))
    = state_of (saveCalibrationToEEPROM sl' ta' env' d).
Proof.
  intros. rewrite !save_spec. unfold state_of. cbn [fst snd eeprom set_eeprom].
  reflexivity.
Qed.

Lemma EEPROM_get_repeat b n :
  firstn 2 (EEPROM_get (repeat b n) 0 20)
  = [if (0 <? n)%nat then b else Byte.xff; if (1 <? n)%nat then b else Byte.xff].
Proof.
  unfold EEPROM_get, EEPROM_read. cbn [seq map firstn Nat.add].
  destruct n as [|[|n]]; reflexivity.
Qed.

(** X4. A store that holds one and the same byte in every cell (erased
    flash, zeroed memory, or no cell at all) is never accepted: [load]
    returns [false] and leaves the caller's variables and the globals
    alone. *)
Theorem load_rejects_uniform_store :
  forall (b : byte) (n : nat) (s0 t0 : Z) (env : Env) (d : Dev),
    eeprom d = repeat b n ->
    loadCalibrationFromEEPROM s0 t0 env d = ((false, s0, t0), d, []).
Proof.
  intros b n s0 t0 env d He. rewrite load_spec, He.
  replace (record_ok (EEPROM_get (repeat b n) 0 20)) with false; [reflexivity|].
  symmetry. unfold record_ok.
  replace (field_u32 (EEPROM_get (repeat b n) 0 20) 0 =? CAL_MAGIC) with false;
    [reflexivity|].
  symmetry. apply Z.eqb_neq. intros E.
  unfold field_u32 in E. change (skipn 0 ?l) with l in E.
  assert (E' : le_combine (firstn 4 (EEPROM_get (repeat b n) 0 20))
               = le_combine (le_split 4 CAL_MAGIC)).
  { rewrite E, le_combine_split4. reflexivity. }
  apply le_combine_inj in E'; [|reflexivity].
  apply (f_equal (firstn 2)) in E'.
  rewrite firstn_firstn in E'. change (Nat.min 2 4) with 2%nat in E'.
  rewrite EEPROM_get_repeat in E'.
  change (firstn 2 (le_split 4 CAL_MAGIC)) with [Byte.x31; Byte.x4c] in E'.
  destruct (0 <? n)%nat, (1 <? n)%nat; injection E' as E0 E1;
    try discriminate E1; try discriminate E0.
  rewrite E0 in E1. discriminate E1.
Qed.

Lemma load_rejects_uniform_store_witness :
  eeprom (power_on (repeat Byte.xff 64)) = repeat Byte.xff 64 /\
  loadCalibrationFromEEPROM 1 2 (mkEnv 0 0 None 0) (power_on (repeat Byte.xff 64))
  = ((false, 1, 2), power_on (repeat Byte.xff 64), []).
Proof.
  assert (H : eeprom (power_on (repeat Byte.xff 64)) = repeat Byte.xff 64)
    by reflexivity.
  split; [exact H|].
  exact (load_rejects_uniform_store Byte.xff 64 1 2 (mkEnv 0 0 None 0) _ H).
Defined.

(** ** Further properties: what a line can do *)

Lemma digits_nonneg s : forall acc, 0 <= acc -> 0 <= Libc.digits acc s.
Proof.
  induction s as [|c r IH]; intros acc H; cbn [Libc.digits]; [exact H|].
  destruct (Libc.isdigit c) eqn:E; [|exact H].
  apply IH. unfold Libc.isdigit in E. apply andb_true_iff in E.
  destruct E as [E _]. apply Z.leb_le in E. lia.
Qed.

Lemma strtou_range bits s : 0 < bits -> 0 <= Libc.strtou bits s < 2 ^ bits.
Proof.
  intros Hb. unfold Libc.strtou.
  destruct (Libc.take_sign (Libc.skip_space s)) as [neg r].
  pose proof (digits_nonneg r 0 ltac:(lia)) as Hd.
  assert (Hp : 0 < 2 ^ bits) by (apply Z.pow_pos_nonneg; lia).
  destruct (Z.gtb_spec (Libc.digits 0 r) (2 ^ bits - 1)); [lia|].
  destruct neg; [apply Z.mod_pos_bound; lia|lia].
Qed.

Lemma atol_range s : is_s32 (Libc.atol s).
Proof.
  unfold Libc.atol, is_s32.
  destruct (Libc.take_sign (Libc.skip_space s)) as [neg r].
  pose proof (digits_nonneg r 0 ltac:(lia)) as Hd.
  destruct neg.
  - destruct (Z.gtb_spec (Libc.digits 0 r) (2 ^ 31)); lia.
  - destruct (Z.gtb_spec (Libc.digits 0 r) (2 ^ 31 - 1)); lia.
Qed.

Lemma set_g_per_count_same d : set_g_per_count (g_per_count d) d = d.
Proof. destruct d; reflexivity. Qed.

Lemma now_unix_ms_pure env d :
  now_unix_ms env d = (value_of (now_unix_ms env d), d, []).
Proof. reflexivity. Qed.

Lemma compute_rpm_pure {F} `{Arith F} s env d :
  compute_rpm s env d = (value_of (compute_rpm s env d), d, []).
Proof.
  unfold compute_rpm, bind, get, ret, value_of.
  destruct (_ || _); [reflexivity|]. destruct (fleb _ _); reflexivity.
Qed.

Lemma cmd_load_reply env d : exists r, cmd_load env d = (tt, d, [r]).
Proof.
  unfold cmd_load, bind. rewrite hx_read_blocking_pure.
  destruct (value_of (hx_read_blocking env d)); eexists; reflexivity.
Qed.

Lemma cmd_speed_reply env d : exists r, cmd_speed env d = (tt, d, [r]).
Proof.
  assert (E : tach_snapshot env d = (value_of (tach_snapshot env d), d, []))
    by reflexivity.
  unfold cmd_speed, bind. rewrite E, compute_rpm_pure.
  eexists. reflexivity.
Qed.

Section Effects.

Variable atof : string -> Z.
Variable env : Env.
Variable d : Dev.

Lemma cmd_tare_effect_shape : effect_of atof env d (cmd_tare env d).
Proof.
  unfold cmd_tare, bind. rewrite hx_read_blocking_pure.
  rewrite hx_read_blocking_spec. unfold value_of. cbn [fst].
  destruct (env_hx_ready_after env) as [t|]; [|apply eff_reply].
  destruct (t <=? 201); [|apply eff_reply].
  set (raw := s32 (env_hx_value env)).
  pose proof (eff_cal atof env d (g_per_count d) raw OK_TARE
                (or_introl eq_refl) (s32_range _)) as E.
  rewrite set_g_per_count_same in E. exact E.
Qed.

Lemma cmd_settime_effect_shape args : effect_of atof env d (cmd_settime args env d).
Proof.
  unfold cmd_settime. destruct (fst (Libc.strtok args blank_tab)); [|apply eff_reply].
  apply eff_settime.
Qed.

Lemma cmd_setcal_effect_shape args : effect_of atof env d (cmd_setcal atof args env d).
Proof.
  unfold cmd_setcal.
  destruct (Libc.strtok args blank_tab) as [a save].
  destruct (Libc.strtok save blank_tab) as [b r].
  destruct a as [a|]; [|apply eff_reply]. destruct b as [b|]; [|apply eff_reply].
  apply (eff_cal atof env d (atof a) (Libc.atol b) OK_SETCAL).
  - right. right. eauto.
  - apply atol_range.
Qed.

Lemma cmd_resetcal_effect_shape : effect_of atof env d (cmd_resetcal env d).
Proof.
  apply (eff_cal atof env d lit_0_0020f 0 OK_RESETCAL).
  - right. left. reflexivity.
  - unfold is_s32. lia.
Qed.

Lemma cmd_setppr_effect_shape args : effect_of atof env d (cmd_setppr args env d).
Proof.
  unfold cmd_setppr. destruct (fst (Libc.strtok args blank_tab)) as [a|]; [|apply eff_reply].
  destruct (Z.eqb_spec (Libc.strtoul a) 0) as [E|E]; [apply eff_reply|].
  apply eff_setppr. pose proof (strtou_range 32 a ltac:(lia)).
  unfold Libc.strtoul in *. lia.
Qed.

Lemma skip_blanks_head s c r :
  skip_blanks s = String c r -> Libc.strchr blank_tab c = false.
Proof.
  induction s as [|c0 r0 IH]; cbn [skip_blanks]; [discriminate|].
  destruct ((Libc.code c0 =? 32) || (Libc.code c0 =? 9)) eqn:E; [exact IH|].
  intros H. injection H as -> ->.
  unfold blank_tab. cbn [Libc.strchr].
  apply orb_false_iff in E. destruct E as [E1 E2].
  apply Z.eqb_neq in E1, E2.
  destruct (Ascii.eqb_spec " " c) as [<-|_]; [exfalso; apply E1; reflexivity|].
  destruct (Ascii.eqb_spec "009" c) as [<-|_]; [exfalso; apply E2; reflexivity|].
  reflexivity.
Qed.

Lemma strtok_head c r delim :
  Libc.strchr delim c = false ->
  exists tok rest, Libc.strtok (String c r) delim = (Some (String c tok), rest).
Proof.
  intros H. unfold Libc.strtok. cbn [Libc.skip_delims]. rewrite H.
  cbn [Libc.break_token]. rewrite H.
  destruct (Libc.break_token delim r) as [tok rest]. eauto.
Qed.

(** A line that is not blank runs exactly one of the handlers or the
    unknown-command reply. *)
Lemma handle_line_nonblank_cases (P : unit * Dev * list Response -> Prop) line :
  skip_blanks (trim_crlf line) <> EmptyString ->
  P (cmd_ping env d) -> P (cmd_info env d) -> P (cmd_load env d) ->
  P (cmd_tare env d) -> P (cmd_speed env d) ->
  (forall args, P (cmd_settime args env d)) ->
  (forall args, P (cmd_setcal atof args env d)) ->
  P (cmd_calq env d) -> P (cmd_resetcal env d) ->
  (forall args, P (cmd_setppr args env d)) ->
  P (cmd_pprq env d) ->
  P (Serial_print (ERR 10 "unknown_command") env d) ->
  P (handle_line atof line env d).
Proof.
  intros Hnb. intros. unfold handle_line.
  destruct (skip_blanks (trim_crlf line)) as [|c r] eqn:El; [congruence|].
  destruct (strtok_head c r blank_tab (skip_blanks_head _ _ _ El)) as (tok & rest & ->).
  destruct (Libc.strtok rest EmptyString) as [args r'].
  repeat match goal with
         | |- context [if streqi ?a ?b then _ else _] => destruct (streqi a b)
         end; auto.
Qed.

Lemma handle_line_blank line :
  skip_blanks (trim_crlf line) = EmptyString ->
  handle_line atof line env d = (tt, d, []).
Proof. intros H. unfold handle_line. rewrite H. reflexivity. Qed.

Lemma handle_line_effect line :
  skip_blanks (trim_crlf line) <> EmptyString ->
  effect_of atof env d (handle_line atof line env d).
Proof.
  intros H. apply handle_line_nonblank_cases; try exact H;
    try (intros; apply eff_reply).
  - destruct (cmd_load_reply env d) as [r ->]. apply eff_reply.
  - apply cmd_tare_effect_shape.
  - destruct (cmd_speed_reply env d) as [r ->]. apply eff_reply.
  - apply cmd_settime_effect_shape.
  - apply cmd_setcal_effect_shape.
  - apply cmd_resetcal_effect_shape.
  - apply cmd_setppr_effect_shape.
Qed.

End Effects.

(** ** Further properties: invariants of the protocol *)

Lemma field_u32_range bs off : is_u32 (field_u32 bs off).
Proof.
  unfold field_u32, is_u32.
  pose proof (le_combine_bound (firstn 4 (skipn off bs))) as [B1 B2].
  split; [exact B1|].
  eapply Z.lt_le_trans; [exact B2|].
  apply Z.pow_le_mono_r; [lia|].
  pose proof (firstn_le_length 4 (skipn off bs)). lia.
Qed.

Lemma cal_synced_iff d :
  let bs := EEPROM_get (eeprom d) 0 20 in
  cal_synced d <->
  record_ok bs = true /\ field_u32 bs 8 = g_per_count d /\
  s32 (field_u32 bs 12) = tare_offset d.
Proof.
  intros bs. unfold cal_synced. split.
  - intros H. specialize (H 0 0 (mkEnv 0 0 None 0)). rewrite load_spec in H.
    fold bs in H. destruct (record_ok bs); [|discriminate H].
    injection H as H1 H2. auto.
  - intros (H1 & H2 & H3) s0 t0 env. rewrite load_spec. fold bs.
    rewrite H1, H2, H3. reflexivity.
Qed.

Lemma cal_synced_range d :
  cal_synced d -> is_u32 (g_per_count d) /\ is_s32 (tare_offset d).
Proof.
  intros H. apply cal_synced_iff in H. destruct H as (_ & <- & <-).
  split; [apply field_u32_range|apply s32_range].
Qed.

Lemma cal_synced_after_save sl ta env d :
  is_u32 sl -> is_s32 ta ->
  cal_synced (state_of (saveCalibrationToEEPROM sl ta env
                          (set_tare_offset ta (set_g_per_count sl d)))).
Proof.
  intros Hs Ht s0 t0 env'. rewrite load_after_save.
  rewrite (u32_small sl Hs), (s32_small ta Ht). reflexivity.
Qed.

Lemma cal_synced_frame d d' :
  eeprom d' = eeprom d -> g_per_count d' = g_per_count d ->
  tare_offset d' = tare_offset d -> cal_synced d -> cal_synced d'.
Proof.
  intros He Hg Ht H. apply cal_synced_iff. apply cal_synced_iff in H.
  rewrite He, Hg, Ht. exact H.
Qed.

(** Whatever a step of the line assembler preserves, [loop] preserves. *)
Lemma loop_invariant atof (I : Dev -> Prop) :
  (forall d b, I d -> I (set_linebuf b d)) ->
  (forall line env d, I d -> I (state_of (handle_line atof line env d))) ->
  forall input env d, I d -> I (state_of (loop atof input env d)).
Proof.
  intros Hb Hl. induction input as [|c rest IH]; intros env d Hd; [exact Hd|].
  cbn [loop]. unfold bind.
  destruct (loop_body atof c env d) as [[u d1] o1] eqn:E1.
  assert (H1 : I d1).
  { unfold loop_body in E1.
    destruct (Libc.code c =? 13); [injection E1 as _ <- _; exact Hd|].
    destruct (Libc.code c =? 10).
    - unfold bind, get, modify in E1.
      destruct (handle_line atof (Libc.c_str (linebuf d)) env d) as [[u2 d2] o2] eqn:E2.
      injection E1 as _ <- _. apply Hb.
      change d2 with (state_of (u2, d2, o2)). rewrite <- E2. apply Hl. exact Hd.
    - unfold bind, get, modify, Serial_print in E1.
      destruct (Libc.strlen (linebuf d) <? sizeof_linebuf - 1);
        injection E1 as _ <- _; apply Hb; exact Hd. }
  specialize (IH env d1 H1).
  destruct (loop atof rest env d1) as [[u3 d3] o3]. exact IH.
Qed.

Ltac effect_cases atof env d line B :=
  generalize (handle_line_effect atof env d line B); unfold effect_of;
  generalize (output_of (handle_line atof line env d));
  generalize (state_of (handle_line atof line env d));
  let d' := fresh "d'" in let o := fresh "o" in let E := fresh "E" in
  intros d' o E; destruct E.

Section Invariants.

Variable atof : string -> Z.

(** X5. A line that is blank once CR, LF and leading blanks are dropped
    prints nothing and changes nothing; every other line prints exactly one
    response. *)
Theorem one_response_per_line :
  forall (line : string) (env : Env) (d : Dev),
    (skip_blanks (trim_crlf line) = EmptyString ->
       handle_line atof line env d = (tt, d, [])) /\
    (skip_blanks (trim_crlf line) <> EmptyString ->
       exists r, output_of (handle_line atof line env d) = [r]).
Proof.
  intros line env d. split; [apply handle_line_blank|].
  intros H. effect_cases atof env d line H; eauto.
Qed.

Lemma handle_line_keeps_linebuf line env d :
  linebuf (state_of (handle_line atof line env d)) = linebuf d.
Proof.
  destruct (string_dec (skip_blanks (trim_crlf line)) EmptyString) as [B|B].
  - rewrite (handle_line_blank atof env d line B). reflexivity.
  - effect_cases atof env d line B; reflexivity.
Qed.

(** X6. No line writes the tachometer fields: the pulse count, the last
    edge and the last period after [handle_line] are those before, whatever
    the line is. *)
Theorem commands_leave_the_tachometer :
  forall (line : string) (env : Env) (d : Dev),
    let d' := state_of (handle_line atof line env d) in
    tach_pulses_total d' = tach_pulses_total d /\
    last_edge_us d' = last_edge_us d /\
    last_period_us d' = last_period_us d.
Proof.
  intros line env d d'.
  destruct (string_dec (skip_blanks (trim_crlf line)) EmptyString) as [B|B].
  - unfold d'. rewrite (handle_line_blank atof env d line B). repeat split.
  - unfold d'. effect_cases atof env d line B; repeat split.
Qed.

(** X7. The pulse count per revolution is never zero: it is 1 at reset,
    [setup] keeps it, and no input whatever makes it leave [1, 2^32). *)
Theorem ppr_never_zero :
  forall (e : eeprom_t) (s t : Z) (env env' : Env) (input : string),
    let d0 := state_of (setup s t env (power_on e)) in
    let d := state_of (loop atof input env' d0) in
    PULSES_PER_REV d0 = 1 /\ 1 <= PULSES_PER_REV d < 2 ^ 32.
Proof.
  intros e s t env env' input d0 d.
  assert (H0 : PULSES_PER_REV d0 = 1).
  { unfold d0. rewrite setup_spec. destruct (record_ok _); reflexivity. }
  split; [exact H0|].
  unfold d. apply (loop_invariant atof (fun d => 1 <= PULSES_PER_REV d < 2 ^ 32)).
  - intros d1 b H. exact H.
  - intros line env1 d1 H.
    destruct (string_dec (skip_blanks (trim_crlf line)) EmptyString) as [B|B].
    + rewrite (handle_line_blank atof env1 d1 line B). exact H.
    + effect_cases atof env1 d1 line B; try exact H. assumption.
  - rewrite H0. lia.
Qed.

(** A float has 32 bits. *)
Hypothesis atof_is_float : forall s, is_u32 (atof s).

Lemma handle_line_keeps_synced line env d :
  cal_synced d -> cal_synced (state_of (handle_line atof line env d)).
Proof.
  intros H.
  destruct (string_dec (skip_blanks (trim_crlf line)) EmptyString) as [B|B].
  - rewrite (handle_line_blank atof env d line B). exact H.
  - effect_cases atof env d line B.
    + exact H.
    + apply (cal_synced_frame d); try reflexivity. exact H.
    + apply (cal_synced_frame d); try reflexivity. exact H.
    + apply cal_synced_after_save; [|assumption].
      match goal with Hsl : _ \/ _ |- _ => destruct Hsl as [->|[->|[a ->]]] end.
      * apply (cal_synced_range d H).
      * unfold is_u32, lit_0_0020f. lia.
      * apply atof_is_float.
Qed.

(** X8. From [setup] on, the live calibration is always the persisted one:
    after boot on any store and any input, [load] on the state returns
    [true] with the live slope and tare, so a reboot restores what [CAL?]
    reports. *)
Theorem live_calibration_is_persisted :
  forall (e : eeprom_t) (s t : Z) (env env' : Env) (input : string),
    let d0 := state_of (setup s t env (power_on e)) in
    let d := state_of (loop atof input env' d0) in
    cal_synced d0 /\ cal_synced d /\
    (forall s2 t2 env2,
        let d2 := state_of (setup s2 t2 env2 (power_on (eeprom d))) in
        g_per_count d2 = g_per_count d /\ tare_offset d2 = tare_offset d /\
        eeprom d2 = eeprom d).
Proof.
  intros e s t env env' input d0 d.
  assert (H0 : cal_synced d0).
  { unfold d0. rewrite setup_spec.
    destruct (record_ok (EEPROM_get (eeprom (power_on e)) 0 20)) eqn:Hok.
    - apply cal_synced_iff. unfold state_of. cbn [fst snd eeprom set_tare_offset
        set_g_per_count g_per_count tare_offset power_on].
      cbn [eeprom power_on] in Hok. rewrite Hok. repeat split.
    - unfold state_of at 1. cbn [fst snd]. rewrite reset_spec.
      unfold state_of at 1. cbn [fst snd].
      apply cal_synced_after_save; [unfold is_u32, lit_0_0020f|unfold is_s32]; lia. }
  assert (H : cal_synced d).
  { unfold d. apply (loop_invariant atof cal_synced).
    - intros d1 b H1. apply (cal_synced_frame d1); try reflexivity. exact H1.
    - intros line env1 d1. apply handle_line_keeps_synced.
    - exact H0. }
  split; [exact H0|]. split; [exact H|].
  intros s2 t2 env2.
  pose proof (proj1 (cal_synced_iff d) H) as (K1 & K2 & K3).
  rewrite setup_spec. cbn [eeprom power_on]. rewrite K1.
  unfold state_of. cbn [fst snd]. rewrite K2, K3. repeat split.
Qed.

End Invariants.

Lemma live_calibration_is_persisted_witness :
  let atof := fun s => u32 (DecimalAtof.atof s) in
  let env := mkEnv 0 0 (Some 0) 77 in
  let d0 := state_of (setup 0 0 env (power_on [])) in
  let d := state_of (loop atof ("SETCAL 0.5 3" ++ LF ++ "TARE" ++ LF) env d0) in
  (forall s, is_u32 (atof s)) /\ cal_synced d.
Proof.
  intros atof env d0 d.
  assert (H : forall s, is_u32 (atof s)) by (intros s; apply u32_range).
  split; [exact H|].
  exact (proj1 (proj2 (live_calibration_is_persisted atof H [] 0 0 env env
                         ("SETCAL 0.5 3" ++ LF ++ "TARE" ++ LF)))).
Defined.

Lemma one_response_per_line_witness :
  skip_blanks (trim_crlf "  ping") <> EmptyString /\
  exists r, output_of (handle_line DecimalAtof.atof "  ping"
                         (mkEnv 0 0 None 0) (power_on [])) = [r].
Proof.
  assert (H : skip_blanks (trim_crlf "  ping") <> EmptyString)
    by (vm_compute; discriminate).
  split; [exact H|].
  exact (proj2 (one_response_per_line DecimalAtof.atof "  ping"
                  (mkEnv 0 0 None 0) (power_on [])) H).
Defined.

(** ** Further properties: the line assembler *)

Section Assembler.

Variable atof : string -> Z.

(** X9. A line whose command is none of TARE, SETTIME, SETCAL, RESETCAL and
    SETPPR (an unknown command included) leaves every global and the store
    as they are. *)
Theorem queries_change_nothing :
  forall (line cmd : string) (env : Env) (d : Dev),
    command_of line = Some cmd -> mutating cmd = false ->
    state_of (handle_line atof line env d) = d.
Proof.
  intros line cmd env d Hc Hm. unfold command_of in Hc. unfold handle_line.
  destruct (skip_blanks (trim_crlf line)) as [|c r]; [discriminate Hc|].
  destruct (Libc.strtok (String c r) blank_tab) as [c0 save]. cbn [fst] in Hc.
  subst c0. destruct (Libc.strtok save EmptyString) as [args r'].
  unfold mutating in Hm.
  repeat (apply orb_false_iff in Hm; destruct Hm as [Hm ?]).
  repeat match goal with H : streqi cmd _ = false |- _ => rewrite H; clear H end.
  repeat match goal with
         | |- context [if streqi ?a ?b then _ else _] => destruct (streqi a b)
         end; try reflexivity.
  - destruct (cmd_load_reply env d) as [x ->]. reflexivity.
  - destruct (cmd_speed_reply env d) as [x ->]. reflexivity.
Qed.

Lemma loop_body_linebuf c env d :
  linebuf (state_of (loop_body atof c env d)) =
    if Libc.code c =? 13 then linebuf d
    else if Libc.code c =? 10 then EmptyString
    else if Libc.strlen (linebuf d) <? sizeof_linebuf - 1
         then String.append (linebuf d) (String c EmptyString)
         else EmptyString.
Proof.
  unfold loop_body.
  destruct (Libc.code c =? 13); [reflexivity|].
  destruct (Libc.code c =? 10).
  - unfold bind, get, modify.
    destruct (handle_line atof (Libc.c_str (linebuf d)) env d) as [[u d2] o2].
    reflexivity.
  - unfold bind, get, modify, Serial_print.
    destruct (Libc.strlen (linebuf d) <? sizeof_linebuf - 1); reflexivity.
Qed.

Lemma strlen_append a b :
  Libc.strlen (String.append a b) = Libc.strlen a + Libc.strlen b.
Proof.
  unfold Libc.strlen. induction a as [|c a IH]; cbn [String.append String.length].
  - lia.
  - rewrite !Nat2Z.inj_succ. lia.
Qed.

(** X10. The line buffer never overruns: started with at most 127
    characters in it, [loop] leaves at most 127 whatever the input, so the
    terminating NUL is always written inside the 128 bytes. *)
Theorem linebuf_never_overruns :
  forall (input : string) (env : Env) (d : Dev),
    Libc.strlen (linebuf d) <= sizeof_linebuf - 1 ->
    Libc.strlen (linebuf (state_of (loop atof input env d))) <= sizeof_linebuf - 1.
Proof.
  induction input as [|c rest IH]; intros env d H; [exact H|].
  cbn [loop]. unfold bind.
  pose proof (loop_body_linebuf c env d) as L.
  destruct (loop_body atof c env d) as [[u d1] o1]. unfold state_of in L. cbn [fst snd] in L.
  assert (H1 : Libc.strlen (linebuf d1) <= sizeof_linebuf - 1).
  { rewrite L. destruct (Libc.code c =? 13); [exact H|].
    destruct (Libc.code c =? 10); [unfold sizeof_linebuf; cbn; lia|].
    destruct (Z.ltb_spec (Libc.strlen (linebuf d)) (sizeof_linebuf - 1)).
    - rewrite strlen_append. change (Libc.strlen (String c EmptyString)) with 1. lia.
    - unfold sizeof_linebuf; cbn; lia. }
  specialize (IH env d1 H1).
  destruct (loop atof rest env d1) as [[u2 d2] o2]. exact IH.
Qed.

Lemma loop_app (a b : string) (env : Env) (d : Dev) :
  loop atof (a ++ b) env d =
    (tt,
     state_of (loop atof b env (state_of (loop atof a env d))),
     output_of (loop atof a env d)
       ++ output_of (loop atof b env (state_of (loop atof a env d)))).
Proof.
  revert b env d.
  induction a as [|c a IH]; intros b env d.
  - cbn [String.append loop]. unfold ret, state_of, output_of. cbn [fst snd app].
    destruct (loop atof b env d) as [[[] d2] o2]. reflexivity.
  - cbn [String.append loop]. unfold bind.
    destruct (loop_body atof c env d) as [[u d1] o1].
    rewrite IH.
    destruct (loop atof a env d1) as [[u2 d2] o2].
    unfold state_of, output_of. cbn [fst snd].
    destruct (loop atof b env d2) as [[u3 d3] o3]. cbn [fst snd].
    rewrite app_assoc. reflexivity.
Qed.

(** X12. Carriage returns are ignored wherever they stand: the input and
    the input without its CR bytes give the same state and responses. *)
Theorem loop_ignores_cr :
  forall (input : string) (env : Env) (d : Dev),
    loop atof input env d = loop atof (drop_cr input) env d.
Proof.
  induction input as [|c rest IH]; intros env d; [reflexivity|].
  cbn [drop_cr]. destruct (Libc.code c =? 13) eqn:E.
  - rewrite <- IH. cbn [loop]. unfold bind, loop_body. rewrite E.
    unfold ret. destruct (loop atof rest env d) as [[[] d2] o2]. reflexivity.
  - cbn [loop]. unfold bind.
    destruct (loop_body atof c env d) as [[u d1] o1]. rewrite IH. reflexivity.
Qed.

End Assembler.

Lemma queries_change_nothing_witness :
  command_of "speed? now" = Some "speed?"%string /\
  mutating "speed?" = false /\
  state_of (handle_line DecimalAtof.atof "speed? now" (mkEnv 9 9 None 0) (power_on []))
  = power_on [].
Proof.
  assert (H1 : command_of "speed? now" = Some "speed?"%string) by reflexivity.
  assert (H2 : mutating "speed?" = false) by reflexivity.
  split; [exact H1|]. split; [exact H2|].
  exact (queries_change_nothing DecimalAtof.atof "speed? now"%string "speed?"%string
           (mkEnv 9 9 None 0) (power_on []) H1 H2).
Defined.

Lemma linebuf_never_overruns_witness :
  Libc.strlen (linebuf (power_on [])) <= sizeof_linebuf - 1 /\
  Libc.strlen (linebuf (state_of (loop DecimalAtof.atof (filler 300 "x")
                                    (mkEnv 0 0 None 0) (power_on []))))
  <= sizeof_linebuf - 1.
Proof.
  assert (H : Libc.strlen (linebuf (power_on [])) <= sizeof_linebuf - 1)
    by (vm_compute; discriminate).
  split; [exact H|].
  exact (linebuf_never_overruns DecimalAtof.atof (filler 300 "x") (mkEnv 0 0 None 0) (power_on []) H).
Defined.

Section Dispatch.

Variable atof : string -> Z.

Ltac fw_norm :=
  cbv [get now_unix_ms millis bind ret Serial_print modify state_of output_of
       value_of fst snd app tach_snapshot saveCalibrationToEEPROM
       set_linebuf set_tare_offset set_g_per_count set_eeprom set_epoch_base_ms
       set_PULSES_PER_REV
       PULSES_PER_REV g_per_count tare_offset tach_pulses_total last_edge_us
       last_period_us epoch_base_ms eeprom linebuf
       snap_pulses_total snap_last_period_us].

Lemma cmd_load_set_linebuf b env d :
  cmd_load env (set_linebuf b d)
  = (tt, set_linebuf b (state_of (cmd_load env d)), output_of (cmd_load env d)).
Proof.
  unfold cmd_load, bind. rewrite (hx_read_blocking_spec env (set_linebuf b d)), (hx_read_blocking_spec env d).
  destruct (env_hx_ready_after env) as [t|]; [|reflexivity].
  destruct (t <=? 201); fw_norm; reflexivity.
Qed.

Lemma cmd_tare_set_linebuf b env d :
  cmd_tare env (set_linebuf b d)
  = (tt, set_linebuf b (state_of (cmd_tare env d)), output_of (cmd_tare env d)).
Proof.
  unfold cmd_tare, bind. rewrite (hx_read_blocking_spec env (set_linebuf b d)), (hx_read_blocking_spec env d).
  destruct (env_hx_ready_after env) as [t|]; [|reflexivity].
  destruct (t <=? 201); fw_norm; reflexivity.
Qed.

Lemma cmd_speed_set_linebuf b env d :
  cmd_speed env (set_linebuf b d)
  = (tt, set_linebuf b (state_of (cmd_speed env d)), output_of (cmd_speed env d)).
Proof.
  assert (E : forall d0, tach_snapshot env d0 = (value_of (tach_snapshot env d0), d0, []))
    by reflexivity.
  assert (V : forall s0, value_of (compute_rpm (F := spec_float) s0 env (set_linebuf b d))
                      = value_of (compute_rpm s0 env d)).
  { intros s0. unfold compute_rpm, bind, get, ret.
    change (PULSES_PER_REV (set_linebuf b d)) with (PULSES_PER_REV d).
    destruct (_ || _); [reflexivity|]. destruct (fleb _ _); reflexivity. }
  unfold cmd_speed, bind.
  rewrite (E (set_linebuf b d)), (E d).
  rewrite (compute_rpm_pure _ env (set_linebuf b d)), (compute_rpm_pure _ env d), V.
  fw_norm. reflexivity.
Qed.

Lemma cmd_settime_set_linebuf args b env d :
  cmd_settime args env (set_linebuf b d)
  = (tt, set_linebuf b (state_of (cmd_settime args env d)),
     output_of (cmd_settime args env d)).
Proof.
  unfold cmd_settime. destruct (fst (Libc.strtok args blank_tab)); fw_norm; reflexivity.
Qed.

Lemma cmd_setcal_set_linebuf args b env d :
  cmd_setcal atof args env (set_linebuf b d)
  = (tt, set_linebuf b (state_of (cmd_setcal atof args env d)),
     output_of (cmd_setcal atof args env d)).
Proof.
  unfold cmd_setcal. destruct (Libc.strtok args blank_tab) as [[a|] save];
    destruct (Libc.strtok save blank_tab) as [[b0|] r]; fw_norm; reflexivity.
Qed.

Lemma cmd_setppr_set_linebuf args b env d :
  cmd_setppr args env (set_linebuf b d)
  = (tt, set_linebuf b (state_of (cmd_setppr args env d)),
     output_of (cmd_setppr args env d)).
Proof.
  unfold cmd_setppr. destruct (fst (Libc.strtok args blank_tab)) as [a|]; [|reflexivity].
  destruct (Libc.strtoul a =? 0); fw_norm; reflexivity.
Qed.

(** No handler reads the line buffer: a line does to a state with another
    buffer content what it does to the state, buffer apart. *)
Lemma handle_line_set_linebuf line b env d :
  handle_line atof line env (set_linebuf b d)
  = (tt, set_linebuf b (state_of (handle_line atof line env d)),
     output_of (handle_line atof line env d)).
Proof.
  destruct (string_dec (skip_blanks (trim_crlf line)) EmptyString) as [B|B].
  - rewrite !(handle_line_blank atof _ _ line B). reflexivity.
  - unfold handle_line.
    destruct (skip_blanks (trim_crlf line)) as [|c r]; [congruence|].
    destruct (Libc.strtok (String c r) blank_tab) as [[cmd|] save];
      destruct (Libc.strtok save EmptyString) as [args r']; [|reflexivity].
    repeat match goal with
           | |- context [if streqi ?a ?b then _ else _] => destruct (streqi a b)
           end; try (fw_norm; reflexivity).
    + apply cmd_load_set_linebuf.
    + apply cmd_tare_set_linebuf.
    + apply cmd_speed_set_linebuf.
    + apply cmd_settime_set_linebuf.
    + apply cmd_setcal_set_linebuf.
    + apply cmd_setppr_set_linebuf.
Qed.

Lemma string_length_append a b :
  String.length (String.append a b) = (String.length a + String.length b)%nat.
Proof. induction a as [|c a IH]; cbn; [reflexivity|]. now rewrite IH. Qed.

Lemma append_assoc_1 a c r :
  String.append (String.append a (String c EmptyString)) r
  = String.append a (String c r).
Proof. induction a as [|x a IH]; cbn; [reflexivity|]. now rewrite IH. Qed.

Lemma append_empty_r a : String.append a EmptyString = a.
Proof. induction a as [|x a IH]; cbn; [reflexivity|]. now rewrite IH. Qed.

Lemma set_linebuf_twice a b d : set_linebuf a (set_linebuf b d) = set_linebuf a d.
Proof. reflexivity. Qed.

(** Characters that end no line and fit are stored, nothing else happens. *)
Lemma loop_accumulates line : forall env d,
  no_eol line = true ->
  (String.length (linebuf d) + String.length line <= 127)%nat ->
  loop atof line env d = (tt, set_linebuf (String.append (linebuf d) line) d, []).
Proof.
  induction line as [|c r IH]; intros env d Hn Hl.
  - cbn [loop]. rewrite append_empty_r. destruct d; reflexivity.
  - cbn [no_eol] in Hn. apply andb_true_iff in Hn. destruct Hn as [Hc Hn].
    apply negb_true_iff, orb_false_iff in Hc. destruct Hc as [H13 H10].
    cbn [String.length] in Hl.
    cbn [loop]. unfold bind, loop_body. rewrite H13, H10.
    unfold bind, get, modify, Libc.strlen, sizeof_linebuf.
    replace (Z.of_nat (String.length (linebuf d)) <? 128 - 1) with true
      by (symmetry; apply Z.ltb_lt; lia).
    rewrite IH; [|exact Hn|].
    + cbn [linebuf set_linebuf app]. rewrite append_assoc_1. reflexivity.
    + cbn [linebuf set_linebuf]. rewrite string_length_append. cbn [String.length]. lia.
Qed.

(** X13. A line of at most 127 characters, none of them CR or LF, that
    arrives on an empty buffer with its LF is handed to [handle_line] up to
    its first NUL; the responses are those of [handle_line], the state is
    the one it leaves, and the buffer is empty again. *)
Theorem loop_dispatches_short_line :
  forall (line : string) (env : Env) (d : Dev),
    linebuf d = EmptyString -> no_eol line = true ->
    (String.length line <= 127)%nat ->
    loop atof (line ++ LF) env d =
      (tt, state_of (handle_line atof (Libc.c_str line) env d),
       output_of (handle_line atof (Libc.c_str line) env d)).
Proof.
  intros line env d Hb Hn Hl.
  assert (A : loop atof line env d = (tt, set_linebuf line d, [])).
  { rewrite (loop_accumulates line env d Hn); rewrite Hb; [reflexivity|cbn; lia]. }
  rewrite loop_app, A.
  change (state_of (tt, set_linebuf line d, @nil Response)) with (set_linebuf line d).
  change (output_of (tt, set_linebuf line d, @nil Response)) with (@nil Response).
  cbn [app].
  assert (B : loop atof LF env (set_linebuf line d)
              = (tt, set_linebuf EmptyString
                       (state_of (handle_line atof (Libc.c_str line) env (set_linebuf line d))),
                 output_of (handle_line atof (Libc.c_str line) env (set_linebuf line d)))).
  { unfold LF. cbn [loop]. unfold bind, loop_body.
    change (Libc.code "010" =? 13) with false. change (Libc.code "010" =? 10) with true.
    cbv iota. unfold bind, get, modify, ret.
    change (linebuf (set_linebuf line d)) with line.
    destruct (handle_line atof (Libc.c_str line) env (set_linebuf line d)) as [[u d1] o1].
    unfold state_of, output_of. cbn [fst snd app]. rewrite !app_nil_r. reflexivity. }
  rewrite B, handle_line_set_linebuf.
  pose proof (handle_line_keeps_linebuf atof (Libc.c_str line) env d) as F.
  rewrite Hb in F.
  destruct (handle_line atof (Libc.c_str line) env d) as [[u d1] o1].
  unfold state_of, output_of in *. cbn [fst snd] in *.
  destruct d1 as [? ? ? ? ? ? ? ? lb]. change (lb = EmptyString) in F.
  subst lb. reflexivity.
Qed.

End Dispatch.

Lemma loop_dispatches_short_line_witness :
  let env := mkEnv 7 0 None 0 in
  let d := power_on [] in
  loop DecimalAtof.atof ("PPR?" ++ LF) env d = (tt, d, [OK_PPR 1]).
Proof.
  intros env d.
  exact (loop_dispatches_short_line DecimalAtof.atof "PPR?"%string env d
           eq_refl eq_refl ltac:(cbn; lia)).
Defined.

(** ** Further properties: accepted stores, trimming, command names *)

(** X14. Whatever [load] accepts is what [save] writes: when [load] returns
    [true] with a pair, the pair is in the range of its types and saving it
    again writes the twenty bytes that are already there. *)
Theorem load_accepts_only_saved_records :
  forall (s0 t0 sl ta : Z) (env env' : Env) (d : Dev),
    value_of (loadCalibrationFromEEPROM s0 t0 env d) = (true, sl, ta) ->
    is_u32 sl /\ is_s32 ta /\
    EEPROM_get (eeprom (state_of (saveCalibrationToEEPROM sl ta env' d))) 0 20
    = EEPROM_get (eeprom d) 0 20.
Proof.
  intros s0 t0 sl ta env env' d H. rewrite load_spec in H.
  set (bs := EEPROM_get (eeprom d) 0 20) in *.
  destruct (record_ok bs) eqn:Hok; [|discriminate H].
  unfold value_of in H. cbn [fst] in H. injection H as H8 H12.
  split; [rewrite <- H8; apply field_u32_range|].
  split; [rewrite <- H12; apply s32_range|].
  rewrite save_spec. unfold state_of. cbn [fst snd eeprom set_eeprom].
  rewrite (EEPROM_get_app (rec_bytes (saved_record sl ta))).
  assert (Hl : List.length bs = 20%nat) by apply EEPROM_get_length.
  rewrite <- (rec_bytes_of_bytes bs Hl).
  unfold record_ok in Hok.
  apply andb_true_iff in Hok. destruct Hok as [Hok H3].
  apply andb_true_iff in Hok. destruct Hok as [H1 H2].
  apply Z.eqb_eq in H1, H2, H3.
  unfold saved_record, rec_of_bytes. rewrite H1, H2, H8, H12, <- H3.
  rewrite s32_small by (rewrite <- H12; apply s32_range).
  f_equal. f_equal.
  rewrite (firstn16_rec_bytes _ _ _ _ 0 (crc32_span (firstn 16 bs))).
  pose proof (rec_bytes_of_bytes bs Hl) as R. unfold rec_of_bytes in R.
  rewrite H1, H2, H8, H12, <- H3 in R. rewrite R. reflexivity.
Qed.

Lemma load_accepts_only_saved_records_witness :
  let env := mkEnv 0 0 None 0 in
  let d := state_of (setup 0 0 env (power_on [])) in
  value_of (loadCalibrationFromEEPROM 0 0 env d) = (true, lit_0_0020f, 0) /\
  EEPROM_get (eeprom (state_of (saveCalibrationToEEPROM lit_0_0020f 0 env d))) 0 20
  = EEPROM_get (eeprom d) 0 20.
Proof.
  intros env d.
  assert (H : value_of (loadCalibrationFromEEPROM 0 0 env d) = (true, lit_0_0020f, 0))
    by (vm_compute; reflexivity).
  split; [exact H|].
  exact (proj2 (proj2 (load_accepts_only_saved_records 0 0 lit_0_0020f 0 env env d H))).
Defined.

Lemma trim_crlf_append_eol line post :
  trim_crlf post = EmptyString -> trim_crlf (line ++ post) = trim_crlf line.
Proof.
  intros H. induction line as [|c r IH]; cbn [String.append trim_crlf].
  - exact H.
  - rewrite IH. reflexivity.
Qed.

Lemma skip_blanks_trim_blank_head pre rest :
  skip_blanks pre = EmptyString ->
  skip_blanks (trim_crlf (pre ++ rest)) = skip_blanks (trim_crlf rest).
Proof.
  induction pre as [|c r IH]; intros H; [reflexivity|].
  cbn [skip_blanks] in H.
  destruct ((Libc.code c =? 32) || (Libc.code c =? 9)) eqn:Ec; [|discriminate H].
  specialize (IH H).
  cbn [String.append trim_crlf].
  assert (Hn : (Libc.code c =? 13) || (Libc.code c =? 10) = false).
  { apply orb_true_iff in Ec. destruct Ec as [E|E]; apply Z.eqb_eq in E; rewrite E;
      reflexivity. }
  rewrite Hn.
  destruct (trim_crlf (r ++ rest)) as [|x y] eqn:Et.
  - cbn [skip_blanks]. rewrite Ec. cbn [skip_blanks]. exact IH.
  - cbn [skip_blanks]. rewrite Ec. exact IH.
Qed.

Lemma handle_line_depends_on_trimmed atof l1 l2 env d :
  skip_blanks (trim_crlf l1) = skip_blanks (trim_crlf l2) ->
  handle_line atof l1 env d = handle_line atof l2 env d.
Proof. intros H. unfold handle_line. rewrite H. reflexivity. Qed.

(** X15. Blanks and tabs before a line and CR and LF after it do not count:
    the line with them behaves as the line without them. *)
Theorem handle_line_ignores_padding :
  forall (atof : string -> Z) (pre line post : string) (env : Env) (d : Dev),
    skip_blanks pre = EmptyString -> trim_crlf post = EmptyString ->
    handle_line atof (pre ++ line ++ post) env d = handle_line atof line env d.
Proof.
  intros atof pre line post env d Hpre Hpost.
  apply handle_line_depends_on_trimmed.
  rewrite (skip_blanks_trim_blank_head pre (line ++ post) Hpre).
  rewrite (trim_crlf_append_eol line post Hpost). reflexivity.
Qed.

Lemma handle_line_ignores_padding_witness :
  let CRLF := String "013" (String "010" EmptyString) in
  skip_blanks "   " = EmptyString /\ trim_crlf CRLF = EmptyString /\
  handle_line DecimalAtof.atof ("   " ++ "PPR?" ++ CRLF) (mkEnv 0 0 None 0) (power_on [])
  = handle_line DecimalAtof.atof "PPR?" (mkEnv 0 0 None 0) (power_on []).
Proof.
  intros CRLF.
  assert (H1 : skip_blanks "   " = EmptyString) by reflexivity.
  assert (H2 : trim_crlf CRLF = EmptyString) by reflexivity.
  split; [exact H1|]. split; [exact H2|].
  exact (handle_line_ignores_padding DecimalAtof.atof "   "%string "PPR?"%string CRLF
           (mkEnv 0 0 None 0) (power_on []) H1 H2).
Defined.

Lemma streqi_upper_same_letter c1 c2 :
  streqi_upper c1 = streqi_upper c2 <-> same_letter c1 c2.
Proof.
  unfold streqi_upper, same_letter.
  destruct (Z.leb_spec 97 (Libc.code c1)), (Z.leb_spec (Libc.code c1) 122),
    (Z.leb_spec 97 (Libc.code c2)), (Z.leb_spec (Libc.code c2) 122);
    cbn [andb]; lia.
Qed.

(** X16. [streqi] holds of two strings exactly when they have the same
    length and, place by place, the same character up to the case of the
    letters A to Z: no other pair of different characters is taken for
    equal. *)
Theorem streqi_ignores_case_only :
  forall a b : string, streqi a b = true <-> same_ignoring_case a b.
Proof.
  induction a as [|ca ra IH]; intros [|cb rb]; cbn [streqi same_ignoring_case].
  - split; [intros _; exact I|reflexivity].
  - split; [discriminate|intros []].
  - split; [discriminate|intros []].
  - rewrite <- streqi_upper_same_letter, <- IH.
    destruct (Z.eqb_spec (streqi_upper ca) (streqi_upper cb)) as [E|E].
    + split; [intros H; split; assumption|intros [_ H]; exact H].
    + split; [discriminate|intros [H _]; contradiction].
Qed.

Lemma streqi_ignores_case_only_witness :
  streqi "Cal?" "CAL?" = true /\ same_ignoring_case "Cal?" "CAL?" /\
  ~ same_ignoring_case "CAL?" "CAL_" /\ streqi "CAL?" "CAL_" = false.
Proof.
  assert (H : streqi "Cal?" "CAL?" = true) by reflexivity.
  assert (N : streqi "CAL?" "CAL_" = false) by reflexivity.
  split; [exact H|].
  split; [exact (proj1 (streqi_ignores_case_only "Cal?" "CAL?") H)|].
  split; [|exact N].
  intros S. apply (proj2 (streqi_ignores_case_only "CAL?" "CAL_")) in S.
  rewrite N in S. discriminate S.
Defined.

(** ** Further properties: the string helpers *)

Lemma rstrip_len_le ws s n : (rstrip_len ws s n <= n)%nat.
Proof.
  induction n as [|m IH]; cbn [rstrip_len]; [lia|].
  destruct (String.get m s) as [c|]; [|lia]. destruct (ws c); lia.
Qed.

Lemma rstrip_len_cons ws c r n :
  rstrip_len ws (String c r) (S n) =
    match rstrip_len ws r n with
    | O => if ws c then O else 1%nat
    | S k => S (S k)
    end.
Proof.
  induction n as [|m IH].
  - cbn [rstrip_len String.get]. destruct (ws c); reflexivity.
  - change (rstrip_len ws (String c r) (S (S m)))
      with (match String.get (S m) (String c r) with
            | Some x => if ws x then rstrip_len ws (String c r) (S m) else S (S m)
            | None => S (S m)
            end).
    change (String.get (S m) (String c r)) with (String.get m r).
    cbn [rstrip_len].
    destruct (String.get m r) as [x|]; [|reflexivity].
    destruct (ws x); [exact IH|reflexivity].
Qed.

Lemma substring_0_0 s : String.substring 0 0 s = EmptyString.
Proof. destruct s; reflexivity. Qed.

(** The loop of [rstrip], read from the front of the string. *)
Lemma rstrip_by_cons ws c r :
  rstrip_by ws (String c r) =
    match rstrip_by ws r with
    | EmptyString => if ws c then EmptyString else String c EmptyString
    | r' => String c r'
    end.
Proof.
  unfold rstrip_by. cbn [String.length]. rewrite rstrip_len_cons.
  pose proof (rstrip_len_le ws r (String.length r)) as L.
  destruct (rstrip_len ws r (String.length r)) as [|k].
  - rewrite substring_0_0.
    destruct (ws c); cbn [String.substring]; rewrite ?substring_0_0; reflexivity.
  - destruct r as [|x y]; [cbn in L; lia|]. reflexivity.
Qed.

Lemma rstrip_by_nil ws : rstrip_by ws EmptyString = EmptyString.
Proof. reflexivity. Qed.

Lemma rstrip_by_tail ws s :
  exists tail,
    s = (rstrip_by ws s ++ tail)%string /\
    Forall (fun c => ws c = true) (list_ascii_of_string tail).
Proof.
  induction s as [|c r (tail & E1 & E2)].
  - exists EmptyString. split; [reflexivity|constructor].
  - rewrite rstrip_by_cons. destruct (rstrip_by ws r) as [|x y] eqn:Er.
    + cbn [String.append] in E1. subst tail.
      destruct (ws c) eqn:Ec.
      * exists (String c r). split; [reflexivity|].
        cbn [list_ascii_of_string]. constructor; assumption.
      * exists r. split; [reflexivity|exact E2].
    + exists tail. split; [|exact E2]. cbn [String.append] in *. now rewrite <- E1.
Qed.

Lemma rstrip_by_last ws s : forall r c,
  rstrip_by ws s = (r ++ String c EmptyString)%string -> ws c = false.
Proof.
  induction s as [|x s IH]; intros r c H.
  - rewrite rstrip_by_nil in H. destruct r; discriminate H.
  - rewrite rstrip_by_cons in H. destruct (rstrip_by ws s) as [|y z] eqn:Er.
    + destruct (ws x) eqn:Ex.
      * destruct r; discriminate H.
      * destruct r as [|a r]; cbn [String.append] in H.
        -- injection H as <-. exact Ex.
        -- injection H as _ H. destruct r; discriminate H.
    + destruct r as [|a r]; cbn [String.append] in H.
      * injection H as _ H. discriminate H.
      * injection H as _ H. exact (IH r c H).
Qed.

Lemma is_strip_space_codes c :
  is_strip_space c = true <-> In (Libc.code c) [13; 10; 32; 9].
Proof.
  unfold is_strip_space. cbn [In].
  destruct (Z.eqb_spec (Libc.code c) 13), (Z.eqb_spec (Libc.code c) 10),
    (Z.eqb_spec (Libc.code c) 32), (Z.eqb_spec (Libc.code c) 9);
    cbn [orb]; split; intros H; try reflexivity; try discriminate H; intuition lia.
Qed.

(** X17. [rstrip] cuts a tail made of CR, LF, blanks and tabs only, and
    cuts all of it: the string is the result followed by characters with
    the codes 13, 10, 32 and 9, and the result does not end in such a
    character. *)
Theorem rstrip_cuts_the_blank_tail :
  forall s : string,
    exists tail,
      s = (rstrip s ++ tail)%string /\
      Forall (fun c => In (Libc.code c) [13; 10; 32; 9]) (list_ascii_of_string tail) /\
      (forall r c, rstrip s = (r ++ String c EmptyString)%string ->
                   ~ In (Libc.code c) [13; 10; 32; 9]).
Proof.
  intros s. unfold rstrip.
  destruct (rstrip_by_tail is_strip_space s) as (tail & E & F).
  exists tail. split; [exact E|]. split.
  - eapply Forall_impl; [|exact F]. intros c. apply is_strip_space_codes.
  - intros r c H Hin. apply is_strip_space_codes in Hin.
    rewrite (rstrip_by_last is_strip_space s r c H) in Hin. discriminate Hin.
Qed.

Lemma rstrip_cuts_the_blank_tail_witness :
  let s := ("PING " ++ String "009" (String "013" (String "010" EmptyString)))%string in
  rstrip s = "PING"%string /\
  ~ In (Libc.code "G") [13; 10; 32; 9].
Proof.
  intros s.
  assert (H : rstrip s = ("PIN" ++ String "G" EmptyString)%string)
    by reflexivity.
  split; [exact H|].
  destruct (rstrip_cuts_the_blank_tail s) as (tail & _ & _ & L).
  exact (L "PIN"%string "G"%char H).
Defined.

Lemma lstrip_index_spec s :
  String.substring (lstrip_index s) (String.length s - lstrip_index s) s
  = skip_blanks s.
Proof.
  induction s as [|c r IH]; [reflexivity|].
  cbn [lstrip_index skip_blanks String.length].
  destruct ((Libc.code c =? 32) || (Libc.code c =? 9)).
  - cbn [Nat.sub String.substring]. exact IH.
  - cbn [Nat.sub String.substring]. f_equal.
    clear IH. induction r as [|x y IH]; [reflexivity|].
    cbn [String.length String.substring]. f_equal. exact IH.
Qed.

(** X18. [lstrip] is the skipping of blanks and tabs that [handle_line]
    does in line, and the first loop of [handle_line] is [rstrip] kept to
    CR and LF. *)
Theorem strip_helpers_agree_with_handle_line :
  forall s : string,
    lstrip s = skip_blanks s /\ rstrip_by is_crlf s = trim_crlf s.
Proof.
  intros s. split.
  - unfold lstrip. destruct (Nat.ltb_spec 0 (lstrip_index s)) as [H|H].
    + apply lstrip_index_spec.
    + destruct s as [|c r]; [reflexivity|].
      cbn [lstrip_index skip_blanks] in *.
      destruct ((Libc.code c =? 32) || (Libc.code c =? 9)); [lia|reflexivity].
  - induction s as [|c r IH]; [reflexivity|].
    rewrite rstrip_by_cons, IH. reflexivity.
Qed.

(** ** Further properties: pulse capture over several edges *)

Lemma tach_edges_cons t ts env d :
  tach_edges (t :: ts) env d
  = tach_edges ts env (state_of (tach_isr (with_micros t env) d)).
Proof. reflexivity. Qed.

Lemma tach_edges_snoc ts t env d :
  tach_edges (ts ++ [t]) env d
  = state_of (tach_isr (with_micros t env) (tach_edges ts env d)).
Proof. unfold tach_edges. rewrite fold_left_app. reflexivity. Qed.

Lemma tach_isr_state t env d :
  state_of (tach_isr (with_micros t env) d) =
    {| PULSES_PER_REV := PULSES_PER_REV d;
       g_per_count := g_per_count d;
       tare_offset := tare_offset d;
       tach_pulses_total := u32 (tach_pulses_total d + 1);
       last_edge_us := u32 t;
       last_period_us :=
         if negb (last_edge_us d =? 0) && (u32 (u32 t - last_edge_us d) >? 100)
         then u32 (u32 t - last_edge_us d) else last_period_us d;
       epoch_base_ms := epoch_base_ms d;
       eeprom := eeprom d;
       linebuf := linebuf d |}.
Proof. rewrite tach_isr_spec. reflexivity. Qed.

(** X19. Every edge counts, accepted or not: after the edges of [ts] the
    pulse total is the old one plus their number, modulo 2^32, and the last
    edge time is the time stamp of the last of them. *)
Theorem tach_counts_every_edge :
  forall (ts : list Z) (env : Env) (d : Dev),
    is_u32 (tach_pulses_total d) ->
    tach_pulses_total (tach_edges ts env d)
      = u32 (tach_pulses_total d + Z.of_nat (List.length ts)) /\
    (forall t, last_edge_us (tach_edges (ts ++ [t]) env d) = u32 t).
Proof.
  intros ts env d H. split.
  - revert d H. induction ts as [|t ts IH]; intros d H.
    + cbn [tach_edges fold_left List.length Z.of_nat]. rewrite Z.add_0_r.
      symmetry. apply u32_small. exact H.
    + rewrite tach_edges_cons, IH, tach_isr_state.
      * cbn [tach_pulses_total]. change (List.length (t :: ts)) with (S (List.length ts)).
        rewrite Nat2Z.inj_succ. unfold u32. rewrite Zplus_mod_idemp_l. f_equal. lia.
      * rewrite tach_isr_state. apply u32_range.
  - intros t. rewrite tach_edges_snoc, tach_isr_state. reflexivity.
Qed.

Lemma tach_counts_every_edge_witness :
  let d := set_tach_pulses_total (2 ^ 32 - 2) (power_on []) in
  is_u32 (tach_pulses_total d) /\
  tach_pulses_total (tach_edges [5; 700; 710] (mkEnv 0 0 None 0) d) = 1.
Proof.
  intros d.
  assert (H : is_u32 (tach_pulses_total d)) by (unfold is_u32; cbn; lia).
  split; [exact H|].
  exact (proj1 (tach_counts_every_edge [5; 700; 710] (mkEnv 0 0 None 0) d H)).
Defined.

(** X20. The period is never a glitch: if it is 0 or above 100 microseconds
    it stays so over any edges, so from reset on [SPEED?] never sees a
    period between 1 and 100. *)
Theorem tach_period_is_never_a_glitch :
  forall (ts : list Z) (env : Env) (e : eeprom_t),
    (forall d,
        last_period_us d = 0 \/ 100 < last_period_us d < 2 ^ 32 ->
        last_period_us (tach_edges ts env d) = 0 \/
        100 < last_period_us (tach_edges ts env d) < 2 ^ 32) /\
    (last_period_us (tach_edges ts env (power_on e)) = 0 \/
     100 < last_period_us (tach_edges ts env (power_on e)) < 2 ^ 32).
Proof.
  intros ts env e.
  assert (G : forall d,
             last_period_us d = 0 \/ 100 < last_period_us d < 2 ^ 32 ->
             last_period_us (tach_edges ts env d) = 0 \/
             100 < last_period_us (tach_edges ts env d) < 2 ^ 32).
  { induction ts as [|t ts IH]; intros d H; [exact H|].
    rewrite tach_edges_cons. apply IH. rewrite tach_isr_state.
    cbn [last_period_us].
    destruct (negb (last_edge_us d =? 0)); cbn [andb]; [|exact H].
    destruct (Z.gtb_spec (u32 (u32 t - last_edge_us d)) 100) as [L|L]; [|exact H].
    right. pose proof (u32_range (u32 t - last_edge_us d)). unfold is_u32 in *. lia. }
  split; [exact G|]. apply G. left. reflexivity.
Qed.

Lemma tach_period_is_never_a_glitch_witness :
  let d := set_last_edge_us 1000 (set_last_period_us 150 (power_on [])) in
  (last_period_us d = 0 \/ 100 < last_period_us d < 2 ^ 32) /\
  (last_period_us (tach_edges [1050; 1060; 3000] (mkEnv 0 0 None 0) d) = 0 \/
   100 < last_period_us (tach_edges [1050; 1060; 3000] (mkEnv 0 0 None 0) d) < 2 ^ 32).
Proof.
  intros d.
  assert (H : last_period_us d = 0 \/ 100 < last_period_us d < 2 ^ 32)
    by (right; cbn; lia).
  split; [exact H|].
  exact (proj1 (tach_period_is_never_a_glitch [1050; 1060; 3000]
                  (mkEnv 0 0 None 0) []) d H).
Defined.

(** X21. A time stamp of 0 is taken for no edge yet: after an edge taken
    at [micros() = 0] the next edge leaves the period as that edge left it,
    whenever it comes; and the first edge after reset never gives a
    period. *)
Theorem edge_at_time_zero_loses_an_interval :
  forall (t0 t1 : Z) (env : Env) (d : Dev) (e : eeprom_t),
    (u32 t0 = 0 ->
     last_period_us (tach_edges [t0; t1] env d)
     = last_period_us (tach_edges [t0] env d)) /\
    last_period_us (tach_edges [t1] env (power_on e)) = 0.
Proof.
  intros t0 t1 env d e. split; [intros H|reflexivity].
  cbn [tach_edges fold_left]. rewrite !tach_isr_state.
  cbn [last_period_us last_edge_us]. rewrite H. reflexivity.
Qed.

Lemma edge_at_time_zero_loses_an_interval_witness :
  let d := set_last_period_us 500 (set_last_edge_us 77 (power_on [])) in
  u32 (2 ^ 32) = 0 /\
  last_period_us (tach_edges [2 ^ 32; 5000] (mkEnv 0 0 None 0) d)
  = last_period_us (tach_edges [2 ^ 32] (mkEnv 0 0 None 0) d).
Proof.
  intros d.
  assert (H : u32 (2 ^ 32) = 0) by reflexivity.
  split; [exact H|].
  exact (proj1 (edge_at_time_zero_loses_an_interval (2 ^ 32) 5000
                  (mkEnv 0 0 None 0) d []) H).
Defined.

(** ** Further properties: single commands *)

Lemma cmd_resetcal_spec env d :
  cmd_resetcal env d =
    (tt, state_of (saveCalibrationToEEPROM lit_0_0020f 0 env
                     (set_tare_offset 0 (set_g_per_count lit_0_0020f d))),
     [OK_RESETCAL]).
Proof. unfold cmd_resetcal, bind. rewrite reset_spec. reflexivity. Qed.

(** X22. [RESETCAL] from any state: the answer is [OK RESETCAL], the live
    calibration is (0.0020f, 0) and is the persisted one, nothing else
    changes, and a second [RESETCAL] changes nothing more. *)
Theorem resetcal_restores_defaults :
  forall (env env' : Env) (d : Dev),
    let d' := state_of (cmd_resetcal env d) in
    output_of (cmd_resetcal env d) = [OK_RESETCAL] /\
    g_per_count d' = lit_0_0020f /\ tare_offset d' = 0 /\
    (forall s0 t0 env2,
        value_of (loadCalibrationFromEEPROM s0 t0 env2 d') = (true, lit_0_0020f, 0)) /\
    d' = set_eeprom (eeprom d') (set_tare_offset 0 (set_g_per_count lit_0_0020f d)) /\
    state_of (cmd_resetcal env' d') = d'.
Proof.
  intros env env' d d'. unfold d'. rewrite !cmd_resetcal_spec.
  change (output_of (tt, ?x, [OK_RESETCAL])) with [OK_RESETCAL].
  change (state_of (tt, ?x, [OK_RESETCAL])) with x.
  split; [reflexivity|]. split; [reflexivity|]. split; [reflexivity|].
  split; [intros; rewrite load_after_save; reflexivity|].
  split; [rewrite save_spec; reflexivity|].
  rewrite !save_spec. unfold state_of. cbn [fst snd eeprom set_eeprom set_tare_offset set_g_per_count].
  unfold set_eeprom.
  cbn [PULSES_PER_REV g_per_count tare_offset tach_pulses_total last_edge_us
       last_period_us epoch_base_ms eeprom linebuf].
  f_equal.
Qed.

Lemma of_bits_sign x :
  match B32.of_bits x with
  | S754_zero s | S754_finite s _ _ => s = Z.testbit x 31
  | _ => True
  end.
Proof.
  unfold B32.of_bits.
  destruct (Z.land (Z.shiftr x 23) 255 =? 0).
  - destruct (Z.land x 8388607); reflexivity.
  - destruct (Z.land (Z.shiftr x 23) 255 =? 255).
    + destruct (Z.land x 8388607 =? 0); exact I.
    + destruct (Z.land x 8388607 + 2 ^ 23); try exact I; reflexivity.
Qed.

(** X23. Zero after taring: once [TARE] has taken a raw count, a [LOAD?]
    that reads the same count reports a mass of zero with the sign of the
    slope, whatever the slope is, zero included, as long as it is finite;
    for an infinite or NaN slope the mass is NaN. The stamp is taken after
    the wait for the sample. *)
Theorem load_after_tare_reads_zero :
  forall (env env' : Env) (d : Dev) (raw : Z),
    value_of (hx_read_blocking env d) = Some raw ->
    value_of (hx_read_blocking env' (state_of (cmd_tare env d))) = Some raw ->
    output_of (cmd_load env' (state_of (cmd_tare env d)))
    = [OK_LOAD
         (if b32_is_finite (B32.of_bits (g_per_count d))
          then S754_zero (Z.testbit (g_per_count d) 31) else S754_nan)
         raw
         (u64 (epoch_base_ms d + u32 (env_millis env' + hx_wait_ms env')))].
Proof.
  intros env env' d raw H1 H2.
  assert (T : tare_offset (state_of (cmd_tare env d)) = raw /\
              g_per_count (state_of (cmd_tare env d)) = g_per_count d /\
              epoch_base_ms (state_of (cmd_tare env d)) = epoch_base_ms d).
  { unfold cmd_tare, bind. rewrite hx_read_blocking_pure, H1. repeat split. }
  destruct T as (T1 & T2 & T3).
  rewrite (cmd_load_ok env' _ raw H2), T1, T2, T3, Z.sub_diag.
  unfold output_of. cbn [snd]. f_equal. f_equal.
  pose proof (of_bits_sign (g_per_count d)) as S.
  change (of_int (s32 0)) with (S754_zero false).
  destruct (B32.of_bits (g_per_count d)) as [s|s| |s m e];
    cbn [b32_is_finite]; try reflexivity; subst s; reflexivity.
Qed.

Lemma load_after_tare_reads_zero_witness :
  let env := mkEnv 10 0 (Some 3) 4321 in
  let d := set_g_per_count 0x80000000 (power_on []) in
  value_of (hx_read_blocking env d) = Some 4321 /\
  output_of (cmd_load env (state_of (cmd_tare env d)))
  = [OK_LOAD (S754_zero true) 4321 13].
Proof.
  intros env d.
  assert (H1 : value_of (hx_read_blocking env d) = Some 4321) by reflexivity.
  assert (H2 : value_of (hx_read_blocking env (state_of (cmd_tare env d))) = Some 4321)
    by reflexivity.
  split; [exact H1|].
  exact (load_after_tare_reads_zero env env d 4321 H1 H2).
Defined.




Lemma cmd_speed_at_rest env d :
  last_period_us d = 0 ->
  cmd_speed env d =
    (tt, d, [OK_SPEED (S754_zero false) (S754_zero false)
               (tach_pulses_total d) (value_of (now_unix_ms env d))]).
Proof.
  intros H.
  assert (E : tach_snapshot env d = (value_of (tach_snapshot env d), d, []))
    by reflexivity.
  unfold cmd_speed, bind. rewrite E. cbn [fst snd].
  assert (P : snap_last_period_us (value_of (tach_snapshot env d)) = 0)
    by exact H.
  unfold compute_rpm, bind, get. cbn [fst snd]. rewrite P.
  cbn [Z.eqb orb]. unfold ret. cbn [fst snd app].
  rewrite now_unix_ms_pure. reflexivity.
Qed.

(** X25. At rest: until two edges have been seen the period is 0, and
    [SPEED?] then reports an rpm of 0 and a period of 0 (no division takes
    place), whatever PULSES_PER_REV is; the edge itself is counted. *)
Theorem speed_is_zero_until_the_second_edge :
  forall (e : list byte) (env env' : Env) (t1 : Z),
    let d0 := power_on e in
    let d1 := tach_edges [t1] env d0 in
    (exists ts, cmd_speed env' d0
                = (tt, d0, [OK_SPEED (S754_zero false) (S754_zero false) 0 ts])) /\
    (exists ts, cmd_speed env' d1
                = (tt, d1, [OK_SPEED (S754_zero false) (S754_zero false) 1 ts])).
Proof.
  intros e env env' t1 d0 d1. split.
  - eexists. rewrite cmd_speed_at_rest by reflexivity. reflexivity.
  - eexists. rewrite cmd_speed_at_rest.
    + reflexivity.
    + unfold d1. cbn [tach_edges fold_left]. rewrite tach_isr_state.
      reflexivity.
Qed.
